(** * rdm4lab: the incremental grouping-and-regression engine

    A shallow embedding of the result-group bookkeeping of the G1 and G3
    experiments ([G1/utils.py], [G1/analysis.py], [G3/utils.py],
    [G3/analysis.py]) together with the properties the specification
    states about it.

    Conventions of the embedding.
    - A result group is a Python dictionary with string keys; it is a
      [gmap string value].  The entries are JSON data: scalars, flat lists
      of scalars (the member list and the parallel columns), the floats
      and plot dictionaries the regression pass stores.
    - A function that mutates its argument in place returns the new
      value.  A function that can raise returns an [option]; [None] is an
      exception that escapes the function (the triggering request fails
      and nothing is saved).
    - The model is typed.  Where Python would reject an entry of the
      wrong shape (a member list that is no list, an id that is no
      number) the model returns [None] as well; no state that the
      pipeline itself builds has such entries.
    - Floats are rationals; the two non-finite results a numpy division
      by zero can give are kept apart ([npfloat]).
    - pint, scipy, numpy and uncertainties are not part of the
      repository.  What the code needs from them is collected in the
      class [Numerics]; everything is proved for every instance. *)

From Stdlib Require Import QArith Qabs Qminmax Qround Lqa.
From stdpp Require Import pretty gmap strings list fin_maps option.

Local Open Scope string_scope.
Local Open Scope list_scope.

(** ** JSON data *)

Inductive scalar :=
| SNone
| SBool (b : bool)
| SInt (n : Z)
| SStr (s : string).

Inductive npfloat :=
| Fin (q : Q)
| NegInf
| NaN.

Record plot := {
  plot_x : list Q;
  plot_y : list Q;
  plot_mode : string;
  plot_name : string
}.

Inductive value :=
| VScalar (s : scalar)
| VList (l : list scalar)
| VFloat (f : npfloat)
| VPlot (p : plot).

Abbreviation dict := (gmap string value).
Abbreviation record := (gmap string scalar).

Abbreviation VNone := (VScalar SNone).
Abbreviation VTrue := (VScalar (SBool true)).
Abbreviation VFalse := (VScalar (SBool false)).

(** ** Python's operations on that data *)

(** The number a bool or an int compares as ([True == 1]). *)
Definition py_num (a : scalar) : option Z :=
  match a with
  | SBool b => Some (Z.b2z b)
  | SInt n => Some n
  | _ => None
  end.

(** [a == b] *)
Definition py_eq (a b : scalar) : bool :=
  match a, b with
  | SNone, SNone => true
  | SStr s, SStr t => bool_decide (s = t)
  | _, _ =>
      match py_num a, py_num b with
      | Some x, Some y => bool_decide (x = y)
      | _, _ => false
      end
  end.

(** [x in l] *)
Definition py_in (x : scalar) (l : list scalar) : bool :=
  existsb (py_eq x) l.

(** [l.index(x)]; [None] is the ValueError of an absent element. *)
Fixpoint py_index (x : scalar) (l : list scalar) : option nat :=
  match l with
  | [] => None
  | y :: l' => if py_eq y x then Some 0%nat else S <$> py_index x l'
  end.

(** [set(l)], as the list of its elements. *)
Fixpoint py_set (l : list scalar) : list scalar :=
  match l with
  | [] => []
  | x :: l' => if py_in x l' then py_set l' else x :: py_set l'
  end.

(** [len(set(l))] *)
Definition len_set (l : list scalar) : nat := length (py_set l).

(** The same for a list of floats. *)
Fixpoint float_set (l : list Q) : list Q :=
  match l with
  | [] => []
  | x :: l' => if existsb (Qeq_bool x) l' then float_set l' else x :: float_set l'
  end.

Definition len_float_set (l : list Q) : nat := length (float_set l).

(** Truth value of a scalar ([any], [if x]). *)
Definition py_truthy (a : scalar) : bool :=
  match a with
  | SNone => false
  | SBool b => b
  | SInt n => negb (bool_decide (n = 0%Z))
  | SStr s => negb (bool_decide (s = ""))
  end.

(** [any(l)] *)
Definition py_any (l : list scalar) : bool := existsb py_truthy l.

(** [x is False] *)
Definition is_False (a : scalar) : bool :=
  match a with
  | SBool false => true
  | _ => false
  end.

(** [d.get(k)] *)
Definition dget (d : dict) (k : string) : value := default VNone (d !! k).

(** [proc_data.get(k)] *)
Definition pget (r : record) (k : string) : scalar := default SNone (r !! k).

Definition as_list (v : value) : option (list scalar) :=
  match v with
  | VList l => Some l
  | _ => None
  end.

Definition as_scalar (v : value) : option scalar :=
  match v with
  | VScalar s => Some s
  | _ => None
  end.

(** [v is True] *)
Definition is_True (v : value) : bool :=
  match v with
  | VScalar (SBool true) => true
  | _ => false
  end.

(** [v is None] *)
Definition is_null (v : value) : bool :=
  match v with
  | VScalar SNone => true
  | _ => false
  end.

(** [s == v] for a scalar [s] and a stored entry [v]. *)
Definition val_eq (s : scalar) (v : value) : bool :=
  match v with
  | VScalar t => py_eq s t
  | _ => false
  end.

(** [d["id"]], read as the number it compares as. *)
Definition dict_id (d : dict) : option Z :=
  match d !! "id" with
  | Some (VScalar s) => py_num s
  | _ => None
  end.

(** The member list of a group (empty when the entry is no list). *)
Definition ref_ids_of (d : dict) : list scalar :=
  match d !! "ref_ids" with
  | Some (VList l) => l
  | _ => []
  end.

(** [max(l)] of a list of ints that is not empty, 0 for the empty one
    (the code's [max(...) if dicts else 0]). *)
Definition max_id (ids : list Z) : Z :=
  match ids with
  | [] => 0%Z
  | i :: ids' => foldl Z.max i ids'
  end.

(** A loop that threads a state and may raise. *)
Fixpoint foldlM {A B : Type} (f : B → A → option B) (b : B) (l : list A) : option B :=
  match l with
  | [] => Some b
  | x :: l' => b' ← f b x; foldlM f b' l'
  end.

(** ** The membership manager: the two passes every family shares

    Every [upd_*_dicts] function of [G1/utils.py] and [G3/utils.py] is
    the same two loops over the family's groups, with the family's key
    fields in place of [keep] and [kv].  The passes are written once
    here; the functions below instantiate them field by field. *)

Section passes.

(** Keys the inner loops skip: ["id"] and the grouping keys. *)
Variable keep : list string.

(** [for k, v in d.items(): if k not in keep: if isinstance(v, list):
    d[k].pop(pos) else: d[k] = None] *)
Definition pop_entry (pos : nat) (k : string) (v : value) : option value :=
  Some (if bool_decide (k ∈ keep) then v
        else match v with
             | VList l => VList (delete pos l)
             | _ => VNone
             end).

(** [pop] raises IndexError on a list that has no position [pos]. *)
Definition pop_ok (pos : nat) (d : dict) : bool :=
  forallb (λ kv : string * value,
             bool_decide (kv.1 ∈ keep) ||
             match kv.2 with
             | VList l => bool_decide (pos < length l)
             | _ => true
             end)
          (map_to_list d).

(** The body of the removal loop for one group [d]. *)
Definition remove_ref (ref_id : scalar) (d : dict) : option dict :=
  ref_ids ← as_list (dget d "ref_ids");
  if py_in ref_id ref_ids then
    ref_id_pos ← py_index ref_id ref_ids;
    if pop_ok ref_id_pos d then
      Some (<["updated" := VTrue]> (map_imap (pop_entry ref_id_pos) d))
    else None
  else Some d.

(** "First remove the instance from the existing dicts". *)
Definition remove_pass (ref_id : scalar) (dicts : list dict) : option (list dict) :=
  mapM (remove_ref ref_id) dicts.

(** The observation's values of the grouping keys. *)
Variable kv : list (string * scalar).

(** [src k] is what is appended to column [k]: [proc_data.get(k)] or
    [r.get(k)]. *)
Variable src : string → option scalar.

(** Assignments a family makes after the common ones (the
    [is_simulated] flag of the G3 Ea and reaction-order groups). *)
Variable extra : dict → dict.

(** [p == d.get("p") and T_reactor == d.get("T_reactor")] *)
Definition key_match (d : dict) : bool :=
  forallb (λ p : string * scalar, val_eq p.2 (dget d p.1)) kv.

(** [for k, v in d.items(): if k not in keep + ["ref_ids"]:
    if isinstance(v, list): d[k].append(src(k)) else: d[k] = None] *)
Definition append_entry (k : string) (v : value) : option value :=
  Some (if bool_decide (k ∈ (keep ++ ["ref_ids"])) then v
        else match v with
             | VList l => VList (l ++ [default SNone (src k)])
             | _ => VNone
             end).

Definition append_ok (d : dict) : bool :=
  forallb (λ kv : string * value,
             bool_decide (kv.1 ∈ (keep ++ ["ref_ids"])) ||
             match kv.2 with
             | VList l => bool_decide (is_Some (src kv.1))
             | _ => true
             end)
          (map_to_list d).

(** The body of the insertion loop for a group [d] whose key matches. *)
Definition append_ref (ref_id : scalar) (d : dict) : option dict :=
  ref_ids ← d !! "ref_ids" ≫= as_list;
  let d1 := <["ref_ids" := VList (ref_ids ++ [ref_id])]> d in
  if append_ok d1 then
    Some (extra (<["updated" := VTrue]> (map_imap append_entry d1)))
  else None.

(** The new group of a family, from the largest id in use. *)
Variable new_dict : Z → option dict.

(** The insertion loop and the creation of a group when no key matched. *)
Definition insert_pass (ref_id : scalar) (dicts : list dict) : option (list dict) :=
  dicts' ← mapM (λ d, if key_match d then append_ref ref_id d else Some d) dicts;
  if existsb key_match dicts then Some dicts'
  else
    ids ← mapM dict_id dicts;
    d ← new_dict (max_id ids);
    Some (dicts' ++ [d]).

End passes.

(** The dictionary literal of a new group, and the assignments that
    follow it: [{"id": max_id + 1, "ref_ids": [ref_id], key: value, ...,
    "error": None}], then [d[k] = [v]] for the columns and
    [d["updated"] = True]. *)
Definition new_group (max_id : Z) (ref_id : scalar) (kv : list (string * scalar))
    (cols : list (string * scalar)) : dict :=
  <["updated" := VTrue]>
    (foldl (λ d c, <[c.1 := VList [c.2]]> d)
       (<["error" := VNone]>
          (foldl (λ d p, <[p.1 := VScalar p.2]> d)
             (<["ref_ids" := VList [ref_id]]>
                (<["id" := VScalar (SInt (max_id + 1))]> ∅))
             kv))
       cols).

(** [x is None] *)
Definition is_SNone (a : scalar) : bool :=
  match a with
  | SNone => true
  | _ => false
  end.

(** ** What the code uses of pint, scipy, numpy and uncertainties *)

(** A [ufloat]: a number with its standard deviation. *)
Record ufloat := {
  nominal_value : Q;
  std_dev : Q
}.

(** The fields of scipy's [linregress] result the code reads. *)
Record linregress_result := {
  lr_slope : Q;
  lr_stderr : Q;
  lr_intercept : Q;
  lr_intercept_stderr : Q;
  lr_rvalue : Q
}.

Class Numerics := {
  (** [Q_(x).magnitude]; [None] when pint raises. *)
  Q_magnitude : scalar → option Q;
  (** [Q_(x).magnitude.nominal_value] of a stored value with error. *)
  Q_nominal_value : scalar → option Q;
  (** [curve_fit(f, x, y)] for the one-parameter models [f(x, m) = m * x]
      of the code: [popt[0]] and [sqrt(diag(pcov))[0]]. *)
  curve_fit : list Q → list Q → option (Q * Q);
  (** [linregress(x, y)] *)
  linregress : list Q → list Q → option linregress_result;
  (** [np.log], [np.log10] *)
  np_log : Q → Q;
  np_log10 : Q → Q;
  (** [f"{q:.5ue~}"] of a magnitude with its unit. *)
  format_quantity : ufloat → string → string
}.

(** [bool(u)] of a ufloat: it differs from zero. *)
Definition ufloat_truthy (u : ufloat) : bool :=
  negb (Qeq_bool (nominal_value u) 0 && Qeq_bool (std_dev u) 0).

(** [c * u] for a float [c]. *)
Definition ufloat_scale (c : Q) (u : ufloat) : ufloat :=
  {| nominal_value := c * nominal_value u; std_dev := Qabs c * std_dev u |}.

(** [np.sum], [np.mean] *)
Definition np_sum (l : list Q) : Q := foldr Qplus 0%Q l.

Definition np_mean (l : list Q) : Q := (np_sum l / inject_Z (Z.of_nat (length l)))%Q.

(** [1 - ss_res / ss_tot] in numpy floats, for a sum of squares
    [ss_res]: dividing by zero raises nothing, it gives [nan] (0/0) or
    [inf] (and then [1 - inf = -inf]). *)
Definition r_squared_of (ss_res ss_tot : Q) : npfloat :=
  if Qeq_bool ss_tot 0 then (if Qeq_bool ss_res 0 then NaN else NegInf)
  else Fin (1 - ss_res / ss_tot)%Q.

(** [r >= threshold]; false for [nan] and [-inf]. *)
Definition npfloat_ge (r : npfloat) (threshold : Q) : bool :=
  match r with
  | Fin q => Qle_bool threshold q
  | _ => false
  end.

(** [bool(r)] *)
Definition npfloat_truthy (r : npfloat) : bool :=
  match r with
  | Fin q => negb (Qeq_bool q 0)
  | _ => true
  end.

(** [min(l)], [max(l)]; [None] is the ValueError of an empty list. *)
Definition py_min (l : list Q) : option Q :=
  match l with
  | [] => None
  | x :: l' => Some (foldl Qmin x l')
  end.

Definition py_max (l : list Q) : option Q :=
  match l with
  | [] => None
  | x :: l' => Some (foldl Qmax x l')
  end.

(** [np.linspace(start, stop, num)] *)
Definition np_linspace (start stop : Q) (num : nat) : list Q :=
  map (λ i : nat, start + inject_Z (Z.of_nat i) * (stop - start) / inject_Z (Z.of_nat (num - 1)))%Q
      (seq 0 num).

(** The universal gas constant of [main/constants.py]. *)
Definition R_magnitude : Q := (831446261815324 # 100000000000000)%Q.

(** ** The linear analyses the families share *)

Section analysis.
Context `{N : Numerics}.

(** The tail both linear analyses share once the fit is stored in
    [d1]: the two plot series and the diagnostic of the three tiers.
    [min] of an empty list raises inside the [try], which leaves [d1]. *)
Definition store_linear_fit (d1 : dict) (xs ys : list Q) (slope intercept : ufloat)
    (unique : nat) (msg_one msg_two : string) : dict :=
  match py_min xs, py_max xs with
  | Some lo, Some hi =>
      let plotdata :=
        {| plot_x := xs; plot_y := ys; plot_mode := "markers"; plot_name := "Data" |} in
      let xs_fit :=
        np_linspace (lo - (hi - lo) * (1 # 10))%Q (hi + (hi - lo) * (1 # 10))%Q 100 in
      let ys_fit :=
        map (λ x, nominal_value slope * x + nominal_value intercept)%Q xs_fit in
      let fitdata :=
        {| plot_x := xs_fit; plot_y := ys_fit; plot_mode := "lines"; plot_name := "Fit" |} in
      let d2 := <["fitdata" := VPlot fitdata]> (<["plotdata" := VPlot plotdata]> d1) in
      if bool_decide (unique = 1%nat) then <["error" := VScalar (SStr msg_one)]> d2
      else if bool_decide (unique = 2%nat) then <["error" := VScalar (SStr msg_two)]> d2
      else if bool_decide (3 ≤ unique)%nat then <["error" := VNone]> d2
      else d2
  | _, _ => d1
  end.

(** [calc_slope]: slope and intercept with their errors, and R-squared. *)
Definition calc_slope (x y : list Q) : option (ufloat * ufloat * Q) :=
  r ← linregress x y;
  Some ({| nominal_value := lr_slope r; std_dev := lr_stderr r |},
        {| nominal_value := lr_intercept r; std_dev := lr_intercept_stderr r |},
        (lr_rvalue r * lr_rvalue r)%Q).

(** [1 / Q_(x).magnitude]; dividing by zero raises. *)
Definition inverse_magnitude (x : scalar) : option Q :=
  m ← Q_magnitude x;
  if Qeq_bool m 0 then None else Some (1 / m)%Q.

Definition ea_msg_one : string :=
  "Only one unique T_reactor value. Need at least three to calculate Ea. Activation energy cannot be calculated. Please add more data points to calculate the Ea.".

Definition ea_msg_two : string :=
  "Only two unique T_reactor values. Need at least three to calculate Ea. The calculated Ea is only an estimate. Please add more data points at different T to calculate the Ea accurately.".

Definition ro_msg_one : string :=
  "Only one unique pressure value. Need at least three to calculate reaction order. Reaction order cannot be calculated. Please add more data points to calculate the reaction order.".

Definition ro_msg_two : string :=
  "Only two unique pressure values. Need at least three to calculate reaction order. The calculated reaction order is only an estimate. Please add more data points at unique pressure to calculate the reaction order accurately.".

(** [perform_ea_analysis] for a temperature column named [T_key]
    (["T_reaction"] in G1, ["T_reactor"] in G3; the two functions are
    the same text otherwise). *)
Definition perform_ea_analysis_on (T_key : string) (ea_dict : dict) : option dict :=
  rate ← as_list (dget ea_dict "rate");
  T ← as_list (dget ea_dict T_key);
  ln_r ← mapM (λ x, np_log <$> Q_nominal_value x) rate;
  T_inv ← mapM inverse_magnitude T;
  let unique_T := len_set T in
  Some
    match calc_slope T_inv ln_r with
    | None => ea_dict
    | Some (slope, intercept, r_squared) =>
        let Ea := ufloat_scale (- R_magnitude)%Q slope in
        let d1 :=
          <["r_squared" := VFloat (Fin r_squared)]>
            (<["A_app" := VScalar (SStr (format_quantity intercept "dimensionless"))]>
               (<["Ea" := VScalar (SStr (format_quantity Ea "J/mol"))]> ea_dict)) in
        store_linear_fit d1 T_inv ln_r slope intercept unique_T ea_msg_one ea_msg_two
    end.

(** The reaction-order analyses: [C_key] is the column the order is
    taken in, [out_key] the entry that receives it. *)
Definition perform_ro_analysis_on (C_key out_key : string) (ro_dict : dict) : option dict :=
  rate ← as_list (dget ro_dict "rate");
  C ← as_list (dget ro_dict C_key);
  log_r ← mapM (λ x, np_log10 <$> Q_nominal_value x) rate;
  log_C ← mapM (λ x, m ← Q_magnitude x; Some (np_log10 (m / 100000))%Q) C;
  let unique_C := len_set C in
  Some
    match calc_slope log_C log_r with
    | None => ro_dict
    | Some (slope, intercept, r_squared) =>
        let d1 :=
          <["r_squared" := VFloat (Fin r_squared)]>
            (<[out_key := VScalar (SStr (format_quantity slope "dimensionless"))]> ro_dict) in
        store_linear_fit d1 log_C log_r slope intercept unique_C ro_msg_one ro_msg_two
    end.

(** The body of the loops of [upd_ea], [upd_ro], [upd_ro_base] and
    [upd_ro_ester] for one group: [x_key] is the column whose distinct
    values are counted, [outs] the entries set to [None] below two. *)
Definition upd_fit_step (x_key : string) (outs : list string)
    (perform : dict → option dict) (d : dict) : option dict :=
  if is_True (dget d "updated") then
    xs ← as_list (dget d x_key);
    d' ← (if bool_decide (2 ≤ len_set xs)%nat then perform d
          else Some (foldl (λ d k, <[k := VNone]> d) d outs));
    Some (<["updated" := VFalse]> d')
  else Some d.

End analysis.

(** ** G1: analysis and result groups *)

Module G1.
Section G1.
Context `{N : Numerics}.

(** [G1/analysis.py], [lin_func] *)
Definition lin_func (x m : Q) : Q := (m * x)%Q.

(** The local variables of [calc_init_slope] that outlive an iteration. *)
Record init_slope_state := {
  st_slope : option Q;
  st_slope_err : option Q;
  st_r_squared : option npfloat;
  st_num_points : option nat
}.

(** R-squared of the line of slope [m] on the first points. *)
Definition r_sq_of (x y : list Q) (m : Q) : npfloat :=
  let y_pred := map (λ xi, lin_func xi m) x in
  let ss_res := np_sum (zip_with (λ a b, (a - b) * (a - b))%Q y y_pred) in
  let ss_tot := np_sum (map (λ a, (a - np_mean y) * (a - np_mean y))%Q y) in
  r_squared_of ss_res ss_tot.

(** The [for] loop of [calc_init_slope] over the values [is] of [i].
    The flag tells whether an exception ended it. *)
Fixpoint init_slope_loop (x y : list Q) (min_points : nat) (threshold : Q)
    (idxs : list nat) (st : init_slope_state) : init_slope_state * bool :=
  match idxs with
  | [] => (st, false)
  | i :: rest =>
      match curve_fit (take i x) (take i y) with
      | None => (st, true)
      | Some (popt, perr) =>
          if bool_decide (length (take i x) = length (take i y)) then
            let r_sq := r_sq_of (take i x) (take i y) popt in
            if npfloat_ge r_sq threshold || bool_decide (i = min_points) then
              init_slope_loop x y min_points threshold rest
                {| st_slope := Some popt; st_slope_err := Some perr;
                   st_r_squared := Some r_sq; st_num_points := Some i |}
            else (st, false)
          else (st, true)
      end
  end.

(** The slope [calc_init_slope] returns: a ufloat, or the bare float
    that is left when an exception skips the conversion. *)
Inductive slope_result :=
| slope_ufloat (u : ufloat)
| slope_float (q : Q).

Definition slope_value (s : slope_result) : Q :=
  match s with
  | slope_ufloat u => nominal_value u
  | slope_float q => q
  end.

(** [G1/analysis.py], [calc_init_slope]: (slope, r_squared, num_points) *)
Definition calc_init_slope (x y : list Q) (min_points : nat) (threshold : Q)
    : option slope_result * option npfloat * option nat :=
  let '(st, raised) :=
    init_slope_loop x y min_points threshold
      (seq min_points (length x + 1 - min_points))
      {| st_slope := None; st_slope_err := None;
         st_r_squared := None; st_num_points := None |} in
  let slope :=
    if raised then slope_float <$> st_slope st
    else m ← st_slope st; e ← st_slope_err st;
         Some (slope_ufloat {| nominal_value := m; std_dev := e |}) in
  (slope, st_r_squared st, st_num_points st).

(** The search as the specification words it: fit the first [k] points
    for growing [k] until R-squared reaches the threshold or the points
    are exhausted, and return the last fit attempted.  It is compared
    with [calc_init_slope] below. *)
Fixpoint progressive_slope_loop (x y : list Q) (threshold : Q) (ks : list nat)
    (last : option (Q * npfloat * nat)) : option (Q * npfloat * nat) :=
  match ks with
  | [] => last
  | k :: rest =>
      match curve_fit (take k x) (take k y) with
      | None => last
      | Some (popt, _) =>
          let r_sq := r_sq_of (take k x) (take k y) popt in
          if npfloat_ge r_sq threshold then Some (popt, r_sq, k)
          else progressive_slope_loop x y threshold rest (Some (popt, r_sq, k))
      end
  end.

Definition progressive_slope_spec (x y : list Q) (min_points : nat) (threshold : Q)
    : option (Q * npfloat * nat) :=
  progressive_slope_loop x y threshold (seq min_points (length x + 1 - min_points)) None.

(** [G1/analysis.py]: the three linear analyses. *)
Definition perform_ea_analysis : dict → option dict :=
  perform_ea_analysis_on "T_reaction".

Definition perform_ro_base_analysis : dict → option dict :=
  perform_ro_analysis_on "C_base" "ro_base".

Definition perform_ro_ester_analysis : dict → option dict :=
  perform_ro_analysis_on "C_ester" "ro_ester".

(** [G1/utils.py]: [upd_ea_dicts], [upd_ro_base_dicts] and
    [upd_ro_ester_dicts] are one text with the two key fields [keys]
    and the two columns [cols] renamed. *)
Definition upd_dicts_by (keys cols : list string) (proc_data : record)
    (dicts : list dict) (deleted : bool) : option (list dict) :=
  let ref_id := pget proc_data "id" in
  let keep := "id" :: keys in
  let kv := map (λ k, (k, pget proc_data k)) keys in
  dicts ← remove_pass keep ref_id dicts;
  if deleted then Some dicts
  else if is_False (pget proc_data "is_active") then Some dicts
  else if negb (is_SNone (pget proc_data "rate")) then
    insert_pass keep kv (λ k, Some (pget proc_data k)) id
      (λ m, Some (new_group m ref_id kv (map (λ k, (k, pget proc_data k)) cols)))
      ref_id dicts
  else Some dicts.

Definition upd_ea_dicts : record → list dict → bool → option (list dict) :=
  upd_dicts_by ["C_base"; "C_ester"] ["T_reaction"; "rate"].

Definition upd_ro_base_dicts : record → list dict → bool → option (list dict) :=
  upd_dicts_by ["T_reaction"; "C_ester"] ["C_base"; "rate"].

Definition upd_ro_ester_dicts : record → list dict → bool → option (list dict) :=
  upd_dicts_by ["T_reaction"; "C_base"] ["C_ester"; "rate"].

Definition upd_ea (ea_dicts : list dict) : option (list dict) :=
  mapM (upd_fit_step "T_reaction" ["Ea"; "A_app"] perform_ea_analysis) ea_dicts.

Definition upd_ro_base (ro_base_dicts : list dict) : option (list dict) :=
  mapM (upd_fit_step "C_base" ["ro_base"] perform_ro_base_analysis) ro_base_dicts.

Definition upd_ro_ester (ro_ester_dicts : list dict) : option (list dict) :=
  mapM (upd_fit_step "C_ester" ["ro_ester"] perform_ro_ester_analysis) ro_ester_dicts.

(** The three group families of a student's G1 results. *)
Record results := {
  ea_dicts : list dict;
  ro_base_dicts : list dict;
  ro_ester_dicts : list dict
}.

(** [upd_g1results], on the processed record of the saved or deleted
    observation. *)
Definition upd_g1results (proc_data : record) (deleted : bool) (g1results : results)
    : option results :=
  ea ← upd_ea_dicts proc_data (ea_dicts g1results) deleted;
  ea ← upd_ea ea;
  ro_base ← upd_ro_base_dicts proc_data (ro_base_dicts g1results) deleted;
  ro_ester ← upd_ro_ester_dicts proc_data (ro_ester_dicts g1results) deleted;
  ro_base ← upd_ro_base ro_base;
  ro_ester ← upd_ro_ester ro_ester;
  Some {| ea_dicts := ea; ro_base_dicts := ro_base; ro_ester_dicts := ro_ester |}.

End G1.
End G1.

(** ** G3: analysis and result groups *)

Module G3.
Section G3.
Context `{N : Numerics}.

(** *** [G3/utils.py]: membership of the rate groups *)

(** [upd_rate_dicts] *)
Definition upd_rate_dicts (proc_data : record) (rate_dicts : list dict) (deleted : bool)
    : option (list dict) :=
  let ref_id := pget proc_data "id" in
  let p := pget proc_data "p" in
  let T_reactor := pget proc_data "T_reactor" in
  let keep := ["id"; "p"; "T_reactor"] in
  let kv := [("p", p); ("T_reactor", T_reactor)] in
  rate_dicts ← remove_pass keep ref_id rate_dicts;
  if deleted then Some rate_dicts
  else if is_False (pget proc_data "is_active") then Some rate_dicts
  else
    insert_pass keep kv (λ k, Some (pget proc_data k)) id
      (λ m, Some (new_group m ref_id kv
                    (map (λ k, (k, pget proc_data k))
                         ["tau"; "conversion"; "is_active"; "is_simulated"])))
      ref_id rate_dicts.

(** *** [G3/analysis.py]: the rate fit *)

Definition tau_conv_func (tau rate : Q) : Q := (tau * rate)%Q.

(** [calc_rate]: the rate with its error and R-squared; [None] when
    the fit raises. *)
Definition calc_rate (tau conversion : list Q) : option (ufloat * npfloat) :=
  '(rate_val, rate_err) ← curve_fit tau conversion;
  if bool_decide (length tau = length conversion) then
    let rate := {| nominal_value := rate_val; std_dev := rate_err |} in
    let residuals := zip_with (λ c t, c - tau_conv_func t rate_val)%Q conversion tau in
    let ss_res := np_sum (map (λ r, r * r)%Q residuals) in
    let ss_tot :=
      np_sum (map (λ c, (c - np_mean conversion) * (c - np_mean conversion))%Q conversion) in
    Some (rate, r_squared_of ss_res ss_tot)
  else None.

(** The loop that separates simulated from experimental points.
    [tau[i]] raises when the column is shorter than the flags. *)
Fixpoint split_simulated (is_simulated : list scalar) (tau conversion : list Q) (i : nat)
    : option (list (Q * Q) * list (Q * Q)) :=
  match is_simulated with
  | [] => Some ([], [])
  | flag :: rest =>
      if py_eq flag (SBool true) then
        t ← tau !! i; c ← conversion !! i;
        '(simul, exp) ← split_simulated rest tau conversion (S i);
        Some ((t, c) :: simul, exp)
      else if py_eq flag (SBool false) then
        t ← tau !! i; c ← conversion !! i;
        '(simul, exp) ← split_simulated rest tau conversion (S i);
        Some (simul, (t, c) :: exp)
      else split_simulated rest tau conversion (S i)
  end.

Definition rate_msg_one : string :=
  "Only one unique tau value. Need at least three to calculate rate. The calculated rate is only an estimate and will not be used for further calculations. Please add more data points to calculate the rate accurately.".

Definition rate_msg_two : string :=
  "Only two unique tau values. Need at least three to calculate rate. The calculated rate is only an estimate and will not be used for further calculations. Please add more data points to calculate the rate accurately.".

(** [perform_rate_analysis] *)
Definition perform_rate_analysis (rate_dict : dict) : option dict :=
  tau ← as_list (dget rate_dict "tau");
  conversion ← as_list (dget rate_dict "conversion");
  is_simulated ← as_list (dget rate_dict "is_simulated");
  tau ← mapM Q_magnitude tau;
  conversion ← mapM Q_magnitude conversion;
  let unique_tau := len_float_set tau in
  let tau := tau ++ [0%Q] in
  let conversion := conversion ++ [0%Q] in
  let is_simulated := is_simulated ++ [SBool false] in
  Some
    match calc_rate tau conversion with
    | None => rate_dict
    | Some (rate, r_squared) =>
        let d1 :=
          <["r_squared" := if npfloat_truthy r_squared then VFloat r_squared else VNone]>
            (<["rate" := if ufloat_truthy rate
                         then VScalar (SStr (format_quantity rate "mol/(kg*s)"))
                         else VNone]> rate_dict) in
        if ufloat_truthy rate then
          match py_min tau, py_max tau, split_simulated is_simulated tau conversion 0 with
          | Some lo, Some hi, Some (simul, exp) =>
              let tau_fit :=
                np_linspace (lo - (hi - lo) * (1 # 10))%Q (hi + (hi - lo) * (1 # 10))%Q 100 in
              let conversion_fit := map (λ t, nominal_value rate * t)%Q tau_fit in
              let plotdata :=
                {| plot_x := exp.*1; plot_y := exp.*2;
                   plot_mode := "markers"; plot_name := "Exp" |} in
              let simuldata :=
                {| plot_x := simul.*1; plot_y := simul.*2;
                   plot_mode := "markers"; plot_name := "Sim" |} in
              let fitdata :=
                {| plot_x := tau_fit; plot_y := conversion_fit;
                   plot_mode := "lines"; plot_name := "Fit" |} in
              let d2 :=
                <["simuldata" := VPlot simuldata]>
                  (<["fitdata" := VPlot fitdata]>
                     (<["plotdata" := VPlot plotdata]> d1)) in
              if bool_decide (unique_tau = 1%nat) then
                <["error" := VScalar (SStr rate_msg_one)]> d2
              else if bool_decide (unique_tau = 2%nat) then
                <["error" := VScalar (SStr rate_msg_two)]> d2
              else if bool_decide (3 ≤ unique_tau)%nat then <["error" := VNone]> d2
              else d2
          | _, _, _ => d1
          end
        else d1
    end.

(** The body of the loop of [upd_rates] for one group. *)
Definition upd_rates_step (d : dict) : option dict :=
  if is_True (dget d "updated") then
    tau ← as_list (dget d "tau");
    if bool_decide (1 ≤ len_set tau)%nat then perform_rate_analysis d
    else Some (<["rate" := VNone]> d)
  else Some d.

(** [upd_rates] *)
Definition upd_rates (rate_dicts : list dict) : option (list dict) :=
  mapM upd_rates_step rate_dicts.

(** *** Membership of the Ea and reaction-order groups *)

(** [if r.get("rate") is not None and r.get("error") is None] *)
Definition rate_usable (r : dict) : bool :=
  negb (is_null (dget r "rate")) && is_null (dget r "error").

(** The body of the loop of [upd_ea_dicts] ([key] is ["p"], [col] is
    ["T_reactor"]) and of [upd_ro_dicts] (the other way round) for one
    updated rate group [r]. *)
Definition upd_from_rate (key col : string) (r : dict) (dicts : list dict)
    : option (list dict) :=
  ref_id ← as_scalar (dget r "id");
  key_value ← as_scalar (dget r key);
  let keep := ["id"; key] in
  let kv := [(key, key_value)] in
  dicts ← remove_pass keep ref_id dicts;
  if rate_usable r then
    is_simulated ← as_list (dget r "is_simulated");
    let is_simulated := py_any is_simulated in
    insert_pass keep kv (λ k, as_scalar (dget r k))
      (λ d, <["is_simulated" := VScalar (SBool is_simulated)]> d)
      (λ m, c ← as_scalar (dget r col); rate ← as_scalar (dget r "rate");
            Some (<["is_simulated" := VScalar (SBool is_simulated)]>
                    (new_group m ref_id kv [(col, c); ("rate", rate)])))
      ref_id dicts
  else Some dicts.

(** [upd_ea_dicts] *)
Definition upd_ea_dicts (rate_dicts ea_dicts : list dict) : option (list dict) :=
  foldlM (λ ea_dicts r,
            if is_True (dget r "updated")
            then upd_from_rate "p" "T_reactor" r ea_dicts
            else Some ea_dicts)
         ea_dicts rate_dicts.

(** [upd_ro_dicts]; it also clears the flag of the rate groups it goes
    through, so the function returns both families. *)
Definition upd_ro_dicts (rate_dicts ro_dicts : list dict) : option (list dict * list dict) :=
  ro_dicts ← foldlM (λ ro_dicts r,
                       if is_True (dget r "updated")
                       then upd_from_rate "T_reactor" "p" r ro_dicts
                       else Some ro_dicts)
                    ro_dicts rate_dicts;
  Some (map (λ r, if is_True (dget r "updated") then <["updated" := VFalse]> r else r)
            rate_dicts,
        ro_dicts).

(** [perform_ea_analysis], [perform_ro_analysis] *)
Definition perform_ea_analysis : dict → option dict :=
  perform_ea_analysis_on "T_reactor".

Definition perform_ro_analysis : dict → option dict :=
  perform_ro_analysis_on "p" "r_order".

(** [upd_ea], [upd_ro] *)
Definition upd_ea (ea_dicts : list dict) : option (list dict) :=
  mapM (upd_fit_step "T_reactor" ["Ea"; "A_app"] perform_ea_analysis) ea_dicts.

Definition upd_ro (ro_dicts : list dict) : option (list dict) :=
  mapM (upd_fit_step "p" ["r_order"] perform_ro_analysis) ro_dicts.

(** The three group families of a student's G3 results. *)
Record results := {
  rate_dicts : list dict;
  ea_dicts : list dict;
  ro_dicts : list dict
}.

(** [upd_g3results], on the processed record of the saved or deleted
    observation. *)
Definition upd_g3results (proc_data : record) (deleted : bool) (g3results : results)
    : option results :=
  rate ← upd_rate_dicts proc_data (rate_dicts g3results) deleted;
  rate ← upd_rates rate;
  ea ← upd_ea_dicts rate (ea_dicts g3results);
  ea ← upd_ea ea;
  '(rate, ro) ← upd_ro_dicts rate (ro_dicts g3results);
  ro ← upd_ro ro;
  Some {| rate_dicts := rate; ea_dicts := ea; ro_dicts := ro |}.

(** *** The data set of the simulation parameters *)

(** The stored [simul_dicts] of a [G3SimulParams] row.  The field is a
    JSON field whose default is the empty list ([default=list] in
    [G3/models.py]); the functions of [G3/utils.py] treat it as a
    dict. *)
Inductive simul_store :=
| SimulList (l : list value)
| SimulDict (d : dict).

(** [for k, v in simul_dicts.items(): if k not in ["id"]:
    if isinstance(v, list): simul_dicts[k].pop(pos)] *)
Definition simul_pop_entry (pos : nat) (k : string) (v : value) : option value :=
  Some (if bool_decide (k ∈ ["id"]) then v
        else match v with
             | VList l => VList (delete pos l)
             | _ => v
             end).

(** [for k, v in simul_dicts.items(): if k not in ["ref_ids"]:
    if isinstance(v, list): simul_dicts[k].append(data.get(k))] *)
Definition simul_append_entry (data : record) (k : string) (v : value) : option value :=
  Some (if bool_decide (k ∈ ["ref_ids"]) then v
        else match v with
             | VList l => VList (l ++ [pget data k])
             | _ => v
             end).

(** [upd_simul_dicts] from [if not simul_dicts:] on, for a data set
    that is a dict; [data] is the combined record without its id. *)
Definition upd_simul_dict (data : record) (ref_id : scalar) (simul_dicts : dict)
    (deleted : bool) : option dict :=
  if bool_decide (size simul_dicts = 0%nat) then
    if is_False (pget data "is_active") then Some simul_dicts
    else
      Some (((λ v, VList [v]) <$> data) ∪
            <["updated" := VTrue]> (<["ref_ids" := VList [ref_id]]> simul_dicts))
  else
    ref_ids ← as_list (dget simul_dicts "ref_ids");
    simul_dicts ←
      (if py_in ref_id ref_ids then
         ref_id_pos ← py_index ref_id ref_ids;
         if pop_ok ["id"] ref_id_pos simul_dicts then
           Some (<["updated" := VTrue]> (map_imap (simul_pop_entry ref_id_pos) simul_dicts))
         else None
       else Some simul_dicts);
    if deleted then Some simul_dicts
    else if is_False (pget data "is_active") then Some simul_dicts
    else
      ref_ids ← simul_dicts !! "ref_ids" ≫= as_list;
      let d1 : dict := <["ref_ids" := VList (ref_ids ++ [ref_id])]> simul_dicts in
      Some (<["updated" := VTrue]> (map_imap (simul_append_entry data) d1)).

(** [upd_simul_dicts], on the raw and processed records of the
    observation.  [data.pop("id")] raises on a record without an id.
    On a list, [not simul_dicts] holds for the empty one only: there
    the inactive observation passes and the active one raises (a list
    has no [update]); a list that is not empty raises at
    [simul_dicts.get]. *)
Definition upd_simul_dicts (raw_data proc_data : record) (simul_dicts : simul_store)
    (deleted : bool) : option simul_store :=
  let ref_id := pget proc_data "id" in
  let data := proc_data ∪ raw_data in
  if bool_decide (is_Some (data !! "id")) then
    let data := delete "id" data in
    match simul_dicts with
    | SimulList [] =>
        if is_False (pget data "is_active") then Some simul_dicts else None
    | SimulList (_ :: _) => None
    | SimulDict d => SimulDict <$> upd_simul_dict data ref_id d deleted
    end
  else None.

End G3.
End G3.

(** ** An instance of [Numerics] in exact arithmetic

    Used for the concrete runs below.  [curve_fit] and [linregress] are
    the closed forms of the least-squares problems scipy solves; what
    is not rational (standard errors, the correlation coefficient,
    logarithms) is replaced by a placeholder, and no statement depends
    on it.  Quantities are written as a decimal integer followed by a
    unit. *)

Definition digit_of (c : Ascii.ascii) : option Z :=
  let n := Z.of_nat (Ascii.nat_of_ascii c) in
  if bool_decide (48 ≤ n ≤ 57)%Z then Some (n - 48)%Z else None.

Fixpoint leading_int (s : string) (acc : option Z) : option Z :=
  match s with
  | EmptyString => acc
  | String c s' =>
      match digit_of c with
      | Some d => leading_int s' (Some (10 * default 0 acc + d)%Z)
      | None => acc
      end
  end.

Definition exact_magnitude (a : scalar) : option Q :=
  match a with
  | SStr s => inject_Z <$> leading_int s None
  | SInt n => Some (inject_Z n)
  | _ => None
  end.

(** The slope of the least-squares line through the origin; for a
    degenerate problem (all [x] zero) the start value 1 of the
    iteration is a solution. *)
Definition exact_curve_fit (x y : list Q) : option (Q * Q) :=
  match x with
  | [] => None
  | _ :: _ =>
      if bool_decide (length x = length y) then
        let sxx := np_sum (map (λ a, a * a)%Q x) in
        let sxy := np_sum (zip_with Qmult x y) in
        Some (if Qeq_bool sxx 0 then 1%Q else (sxy / sxx)%Q, 0%Q)
      else None
  end.

(** Ordinary least squares; scipy raises when all [x] are identical. *)
Definition exact_linregress (x y : list Q) : option linregress_result :=
  if bool_decide (length x = length y) && bool_decide (2 ≤ length x)%nat then
    let mx := np_mean x in
    let my := np_mean y in
    let sxx := np_sum (map (λ a, (a - mx) * (a - mx))%Q x) in
    let sxy := np_sum (zip_with (λ a b, (a - mx) * (b - my))%Q x y) in
    if Qeq_bool sxx 0 then None
    else
      Some {| lr_slope := sxy / sxx; lr_stderr := 0;
              lr_intercept := my - sxy / sxx * mx; lr_intercept_stderr := 0;
              lr_rvalue := 1 |}%Q
  else None.

Definition exact_format (u : ufloat) (unit : string) : string :=
  pretty (Qfloor (nominal_value u)) +:+ " " +:+ unit.

#[export] Instance exact_numerics : Numerics := {|
  Q_magnitude := exact_magnitude;
  Q_nominal_value := exact_magnitude;
  curve_fit := exact_curve_fit;
  linregress := exact_linregress;
  np_log := λ q, q;
  np_log10 := λ q, q;
  format_quantity := exact_format
|}.

(** * Runs of the update pipelines *)

Definition empty_g3results : G3.results :=
  {| G3.rate_dicts := []; G3.ea_dicts := []; G3.ro_dicts := [] |}.

Definition empty_g1results : G1.results :=
  {| G1.ea_dicts := []; G1.ro_base_dicts := []; G1.ro_ester_dicts := [] |}.

(** A student's results after a sequence of save and delete events,
    from no groups at all; each event is the processed record of the
    observation and whether it is a deletion.  A run that raises has
    no results: the signal handler saves them only at its end. *)
Definition G3_run `{N : Numerics} (events : list (record * bool)) : option G3.results :=
  foldlM (λ s e, G3.upd_g3results e.1 e.2 s) empty_g3results events.

Definition G1_run `{N : Numerics} (events : list (record * bool)) : option G1.results :=
  foldlM (λ s e, G1.upd_g1results e.1 e.2 s) empty_g1results events.

(** The group families the membership manager maintains. *)
Inductive result_family `{N : Numerics} : list dict → Prop :=
| rate_family events s : G3_run events = Some s → result_family (G3.rate_dicts s)
| g3_ea_family events s : G3_run events = Some s → result_family (G3.ea_dicts s)
| g3_ro_family events s : G3_run events = Some s → result_family (G3.ro_dicts s)
| g1_ea_family events s : G1_run events = Some s → result_family (G1.ea_dicts s)
| g1_ro_base_family events s :
    G1_run events = Some s → result_family (G1.ro_base_dicts s)
| g1_ro_ester_family events s :
    G1_run events = Some s → result_family (G1.ro_ester_dicts s).

(** The loop of [upd_ea_dicts] and [upd_ro_dicts] over the rate groups. *)
Definition feed_loop `{N : Numerics} (key col : string) (rate_dicts dicts : list dict)
    : option (list dict) :=
  foldlM (λ dicts r,
            if is_True (dget r "updated") then G3.upd_from_rate key col r dicts
            else Some dicts)
         dicts rate_dicts.

(** What [upd_ro_dicts] does to a rate group. *)
Definition clear_updated (r : dict) : dict :=
  if is_True (dget r "updated") then <["updated" := VFalse]> r else r.

(** * Properties of a family of groups *)

(** The column alignment of one group: the member list is a list, and
    every list-valued entry is a column of the same length (in
    particular no key field holds a list). *)
Definition aligned (keep : list string) (d : dict) : Prop :=
  ∃ ids, (d !! "ref_ids" = Some (VList ids)) ∧
         ∀ k l, d !! k = Some (VList l) → (k ∉ keep) ∧ length l = length ids.

(** How often [x] occurs in a member list, and in a family. *)
Fixpoint py_count (x : scalar) (l : list scalar) : nat :=
  match l with
  | [] => 0
  | y :: l' => (if py_eq x y then 1 else 0) + py_count x l'
  end.

Definition total_count (x : scalar) (dicts : list dict) : nat :=
  sum_list (map (λ d, py_count x (ref_ids_of d)) dicts).

(** Membership exclusivity. *)
Definition exclusive (dicts : list dict) : Prop :=
  ∀ x, (total_count x dicts ≤ 1)%nat.

(** No observation key matches two groups of the family. *)
Definition keys_unique (keys : list string) (dicts : list dict) : Prop :=
  ∀ (kv : list (string * scalar)) i j d1 d2,
    kv.*1 = keys →
    dicts !! i = Some d1 → dicts !! j = Some d2 →
    key_match kv d1 = true → key_match kv d2 = true → i = j.

Record family_inv (keys : list string) (dicts : list dict) : Prop := {
  inv_aligned : Forall (aligned ("id" :: keys)) dicts;
  inv_keys_unique : keys_unique keys dicts;
  inv_exclusive : exclusive dicts
}.

(** What a step that only stores results leaves alone: the member
    list, the entries under [keep], and the alignment. *)
Definition frame (keep : list string) (d d' : dict) : Prop :=
  d' !! "ref_ids" = d !! "ref_ids"
  ∧ (∀ k, k ∈ keep → d' !! k = d !! k)
  ∧ (aligned keep d → aligned keep d').

(** The entries under [keep] are left alone. *)
Definition key_stable (keep : list string) (d d' : dict) : Prop :=
  ∀ k, k ∈ keep → d' !! k = d !! k.

(** What the insertion loop does to one group. *)
Definition appended (keep : list string) (kv : list (string * scalar))
    (src : string → option scalar) (extra : dict → dict) (x : scalar)
    (d d1 : dict) : Prop :=
  if key_match kv d then append_ref keep src extra x d = Some d1 else d1 = d.

(** A step that writes under the keys [W] only, and no list. *)
Definition only_stores (W : list string) (d d' : dict) : Prop :=
  (∀ k, k ∉ W → d' !! k = d !! k)
  ∧ (∀ k l, d' !! k = Some (VList l) → d !! k = Some (VList l)).

(** The diagnostic of the three tiers, as an update of the [error] entry. *)
Definition tier_error (msg_one msg_two : string) (unique : nat) (old : option value)
    : option value :=
  if bool_decide (unique = 1%nat) then Some (VScalar (SStr msg_one))
  else if bool_decide (unique = 2%nat) then Some (VScalar (SStr msg_two))
  else if bool_decide (3 ≤ unique)%nat then Some VNone
  else old.

(** [word in msg] *)
Definition mentions (word msg : string) : bool :=
  match String.index 0 word msg with
  | Some _ => true
  | None => false
  end.

(** ** The rate groups *)

(** The list-valued entries of a rate group. *)
Definition rate_cols : list string :=
  ["ref_ids"; "tau"; "conversion"; "is_active"; "is_simulated"].

Definition list_keys_in (cols : list string) (d : dict) : Prop :=
  ∀ k l, d !! k = Some (VList l) → k ∈ cols.

(** A rate group as the membership manager leaves it when it touches
    it: flagged, with no rate and no diagnostic. *)
Definition dirtied (d : dict) : Prop :=
  dget d "updated" = VTrue ∧ dget d "rate" = VNone ∧ dget d "error" = VNone.

(** A rate group after [upd_rate_dicts], against the one before. *)
Definition touched_or_same (d0 d1 : dict) : Prop :=
  d1 !! "id" = d0 !! "id" ∧ (d1 = d0 ∨ dirtied d1).

(** The number of distinct tau values of a rate group, as the fit
    counts them. *)
Definition distinct_taus `{N : Numerics} (r : dict) : option nat :=
  tau ← as_list (dget r "tau");
  ms ← mapM Q_magnitude tau;
  Some (len_float_set ms).

Definition well_fitted `{N : Numerics} (r : dict) : Prop :=
  ∃ n, distinct_taus r = Some n ∧ (3 ≤ n)%nat.

(** ** What feeds the Ea and reaction-order groups *)

Definition has_id (ρ : scalar) (r : dict) : Prop := val_eq ρ (dget r "id") = true.

(** Every member of a downstream group is the id of a usable rate group. *)
Definition fed_by `{N : Numerics} (rate_dicts dicts : list dict) : Prop :=
  ∀ ρ, (0 < total_count ρ dicts)%nat →
       ∃ r, r ∈ rate_dicts ∧ has_id ρ r ∧ G3.rate_usable r = true.

(** The invariant of the G3 results between events. *)
Record G3_inv `{N : Numerics} (s : G3.results) : Prop := {
  g3_rate : family_inv ["p"; "T_reactor"] (G3.rate_dicts s);
  g3_ea : family_inv ["p"] (G3.ea_dicts s);
  g3_ro : family_inv ["T_reactor"] (G3.ro_dicts s);
  g3_rate_cols : Forall (list_keys_in rate_cols) (G3.rate_dicts s);
  g3_clean : Forall (λ r, is_True (dget r "updated") = false) (G3.rate_dicts s);
  g3_fitted : Forall (λ r, G3.rate_usable r = true → well_fitted r) (G3.rate_dicts s);
  g3_ea_fed : fed_by (G3.rate_dicts s) (G3.ea_dicts s);
  g3_ro_fed : fed_by (G3.rate_dicts s) (G3.ro_dicts s)
}.

(** The invariant of the G1 results between events. *)
Record G1_inv `{N : Numerics} (s : G1.results) : Prop := {
  g1_ea : family_inv ["C_base"; "C_ester"] (G1.ea_dicts s);
  g1_ro_base : family_inv ["T_reaction"; "C_ester"] (G1.ro_base_dicts s);
  g1_ro_ester : family_inv ["T_reaction"; "C_base"] (G1.ro_ester_dicts s)
}.

(** A rate group after the membership and regression passes, against
    the one before the event. *)
Definition refitted `{N : Numerics} (r2 : dict) : Prop :=
  is_True (dget r2 "updated") = true ∧ (G3.rate_usable r2 = true → well_fitted r2).

Definition rate_step `{N : Numerics} (r0 r2 : dict) : Prop :=
  r2 !! "id" = r0 !! "id" ∧ (r2 = r0 ∨ refitted r2).

(** ** The search of [calc_init_slope] *)

(** The fit over the first [k] points is made and kept. *)
Definition fit_accepted `{N : Numerics} (x y : list Q) (min_points : nat)
    (threshold : Q) (k : nat) : Prop :=
  ∃ m e, curve_fit (take k x) (take k y) = Some (m, e)
         ∧ length (take k x) = length (take k y)
         ∧ (npfloat_ge (G1.r_sq_of (take k x) (take k y) m) threshold = true
            ∨ k = min_points).

(** The loop state after the fit over the first [n] points was kept. *)
Definition state_at `{N : Numerics} (x y : list Q) (n : nat)
    (st : G1.init_slope_state) : Prop :=
  ∃ m e, curve_fit (take n x) (take n y) = Some (m, e)
         ∧ st = {| G1.st_slope := Some m; G1.st_slope_err := Some e;
                   G1.st_r_squared := Some (G1.r_sq_of (take n x) (take n y) m);
                   G1.st_num_points := Some n |}.

(** * Concrete observations and runs *)

(** The processed record of an active experimental G3 observation. *)
Definition g3_observation (id : Z) (p T_reactor tau conversion : string) : record :=
  <["id" := SInt id]> (<["p" := SStr p]> (<["T_reactor" := SStr T_reactor]>
    (<["tau" := SStr tau]> (<["conversion" := SStr conversion]>
      (<["is_active" := SBool true]> (<["is_simulated" := SBool false]> ∅)))))).

(** Three observations under one pressure and one temperature. *)
Definition three_taus : list (record * bool) :=
  [(g3_observation 1 "1 bar" "500 K" "1 s" "2", false);
   (g3_observation 2 "1 bar" "500 K" "2 s" "4", false);
   (g3_observation 3 "1 bar" "500 K" "3 s" "6", false)].

Definition after_one_tau : G3.results :=
  default empty_g3results (G3_run (N:=exact_numerics) (take 1 three_taus)).

Definition after_two_taus : G3.results :=
  default empty_g3results (G3_run (N:=exact_numerics) (take 2 three_taus)).

Definition after_three_taus : G3.results :=
  default empty_g3results (G3_run (N:=exact_numerics) three_taus).

(** The rate family between the membership pass and the regression
    pass of the first event, and of the second. *)
Definition one_tau_groups : list dict :=
  default [] (G3.upd_rate_dicts (g3_observation 1 "1 bar" "500 K" "1 s" "2") [] false).

Definition two_tau_groups : list dict :=
  default [] (G3.upd_rate_dicts (g3_observation 2 "1 bar" "500 K" "2 s" "4")
                (G3.rate_dicts after_one_tau) false).

Definition two_tau_group : dict := default ∅ (two_tau_groups !! 0%nat).

(** The Ea family between its membership pass and its regression pass
    in the third event. *)
Definition one_T_ea_groups : list dict :=
  default []
    (rate ← G3.upd_rate_dicts (g3_observation 3 "1 bar" "500 K" "3 s" "6")
              (G3.rate_dicts after_two_taus) false;
     rate ← G3.upd_rates (N:=exact_numerics) rate;
     G3.upd_ea_dicts rate (G3.ea_dicts after_two_taus)).

(** An active observation under a pressure no group has. *)
Definition second_pressure : record := g3_observation 2 "2 bar" "500 K" "1 s" "2".

(** The results after the only observation was deleted again. *)
Definition after_emptied : G3.results :=
  default empty_g3results
    (G3_run (N:=exact_numerics)
       [(g3_observation 1 "1 bar" "500 K" "1 s" "2", false);
        (g3_observation 1 "1 bar" "500 K" "1 s" "2", true)]).

(** An observation whose conversion could not be derived. *)
Definition null_conversion : record :=
  <["conversion" := SNone]> (g3_observation 1 "1 bar" "500 K" "1 s" "2").

(** An observation whose partial pressure could not be derived. *)
Definition null_pressure : record :=
  <["p" := SNone]> (g3_observation 1 "1 bar" "500 K" "1 s" "2").

(** An observation without [is_active] in its processed record. *)
Definition no_is_active : record :=
  delete "is_active" (g3_observation 1 "1 bar" "500 K" "1 s" "2").

(** The groups of the two families above, as single groups. *)
Definition one_tau_group : dict := default ∅ (one_tau_groups !! 0%nat).

Definition one_T_ea_group : dict := default ∅ (one_T_ea_groups !! 0%nat).

(** A flagged Ea group of two members, at the temperatures [T] and
    500 K. *)
Definition ea_group_at (T : string) : dict :=
  <["updated" := VTrue]>
    (<["T_reactor" := VList [SStr T; SStr "500 K"]]>
       (<["rate" := VList [SStr "2 mol/(kg*s)"; SStr "3 mol/(kg*s)"]]> ∅)).

(** Three observations at a reactor temperature of zero and three at
    500 K, under one pressure: with the sixth the Ea group of that
    pressure has two members. *)
Definition zero_kelvin : list (record * bool) :=
  [(g3_observation 1 "1 bar" "0 K" "1 s" "2", false);
   (g3_observation 2 "1 bar" "0 K" "2 s" "4", false);
   (g3_observation 3 "1 bar" "0 K" "3 s" "6", false);
   (g3_observation 4 "1 bar" "500 K" "1 s" "2", false);
   (g3_observation 5 "1 bar" "500 K" "2 s" "4", false);
   (g3_observation 6 "1 bar" "500 K" "3 s" "6", false)].

(** Two observations under two pressures; then the first is saved
    again, under the pressure of the second. *)
Definition key_change : list (record * bool) :=
  [(g3_observation 1 "1 bar" "500 K" "1 s" "2", false);
   (g3_observation 2 "2 bar" "500 K" "2 s" "4", false);
   (g3_observation 1 "2 bar" "500 K" "1 s" "2", false)].

Definition after_key_change : G3.results :=
  default empty_g3results (G3_run (N:=exact_numerics) key_change).

(** Three observations under three pressures, and the deletion of the
    second. *)
Definition three_pressures : list (record * bool) :=
  [(g3_observation 1 "1 bar" "500 K" "1 s" "2", false);
   (g3_observation 2 "2 bar" "500 K" "1 s" "2", false);
   (g3_observation 3 "3 bar" "500 K" "1 s" "2", false);
   (g3_observation 2 "2 bar" "500 K" "1 s" "2", true)].

Definition after_three_pressures : G3.results :=
  default empty_g3results (G3_run (N:=exact_numerics) three_pressures).

(** A processed observation of G1. *)
Definition g1_observation (id : Z) (C_base C_ester T_reaction rate : string) : record :=
  <["id" := SInt id]> (<["C_base" := SStr C_base]> (<["C_ester" := SStr C_ester]>
    (<["T_reaction" := SStr T_reaction]> (<["rate" := SStr rate]>
      (<["is_active" := SBool true]> ∅))))).

(** The Ea family of G1 after two observations at two base
    concentrations. *)
Definition two_base_groups : list dict :=
  default []
    (dicts ← G1.upd_ea_dicts
               (g1_observation 1 "1 mol/L" "1 mol/L" "300 K" "2 mol/(L*s)") [] false;
     G1.upd_ea_dicts (g1_observation 2 "2 mol/L" "1 mol/L" "300 K" "3 mol/(L*s)")
       dicts false).

(** The data set of the simulation parameters after the save of one
    observation on the empty dict, and after the save of a second. *)
Definition simul_one : dict :=
  default ∅ (G3.upd_simul_dict
               (delete "id" (g3_observation 1 "1 bar" "500 K" "1 s" "2")) (SInt 1) ∅ false).

Definition simul_two : dict :=
  default ∅ (G3.upd_simul_dict
               (delete "id" (g3_observation 2 "2 bar" "500 K" "2 s" "4")) (SInt 2)
               simul_one false).

(** * More of the code *)

(** ** [G3/analysis.py]: the processed values of an observation *)

(** [calc_conv]: [min(A_product / A_reactant, 1.0)]; a missing area or
    a zero reactant area raises inside the [try], which gives [None]. *)
Definition calc_conv (A_reactant A_product : option Q) : option Q :=
  a ← A_reactant; b ← A_product;
  if Qeq_bool a 0 then None else Some (if Qle_bool (b / a) 1 then b / a else 1)%Q.

(** [calc_tau]: the space time [M / ((p / (R T)) V)]; a missing input
    or a division by zero raises inside the [try], which gives [None]. *)
Definition calc_tau (M_catalyst V_flow p T_bath : option Q) : option Q :=
  p ← p; T ← T_bath;
  if Qeq_bool (R_magnitude * T) 0 then None
  else
    let C_substance := (p / (R_magnitude * T))%Q in
    V ← V_flow;
    let n_substance := (C_substance * V)%Q in
    M ← M_catalyst;
    if Qeq_bool n_substance 0 then None else Some (M / n_substance)%Q.

(** ** [G1/analysis.py]: the conversion trace of [calc_proc_data] *)




(** ** [G3/utils.py]: [group_dicts_by_keys] *)

(** [tuple(d[key] for key in keys if key in d)] *)
Definition key_tuple (keys : list string) (d : record) : list scalar :=
  omap (λ key, d !! key) keys.

(** [a == b] on tuples of scalars, which is also when two keys of a
    Python dict are the same key. *)
Fixpoint tuple_eq (a b : list scalar) : bool :=
  match a, b with
  | [], [] => true
  | x :: a', y :: b' => py_eq x y && tuple_eq a' b'
  | _, _ => false
  end.

(** [if key_tuple in grouped: grouped[key_tuple].append(d)
    else: grouped[key_tuple] = [d]], on a dict in insertion order. *)
Fixpoint grouped_add (key_tuple : list scalar) (d : record)
    (grouped : list (list scalar * list record)) : list (list scalar * list record) :=
  match grouped with
  | [] => [(key_tuple, [d])]
  | (k, v) :: grouped' =>
      if tuple_eq key_tuple k then (k, v ++ [d]) :: grouped'
      else (k, v) :: grouped_add key_tuple d grouped'
  end.

(** [group_dicts_by_keys], on flat records. *)
Definition group_dicts_by_keys (dicts : list record) (keys : list string)
    (min_points : Z) : list (list scalar * list record) :=
  let grouped :=
    foldl (λ grouped d, grouped_add (key_tuple keys d) d grouped) [] dicts in
  List.filter (λ kv : list scalar * list record,
                 bool_decide (min_points ≤ Z.of_nat (length kv.2))%Z)
              grouped.

(** What the loop of [group_dicts_by_keys] has built from the records
    [seen]. *)
Record grouping (keys : list string) (seen : list record)
    (grouped : list (list scalar * list record)) : Prop := {
  grouping_distinct :
    ∀ i j kv1 kv2, grouped !! i = Some kv1 → grouped !! j = Some kv2 →
                   tuple_eq kv1.1 kv2.1 = true → i = j;
  grouping_members :
    ∀ kv, kv ∈ grouped →
          kv.2 = List.filter (λ d, tuple_eq (key_tuple keys d) kv.1) seen ∧ kv.2 ≠ [];
  grouping_covers :
    ∀ d, d ∈ seen → ∃ kv, kv ∈ grouped ∧ tuple_eq (key_tuple keys d) kv.1 = true
}.

(** ** More properties of the groups *)

(** The ids of the groups of a family, in list order, are 1, 2, ..., n. *)
Definition ids_sequential (dicts : list dict) : Prop :=
  mapM dict_id dicts = Some (map Z.of_nat (seq 1 (length dicts))).

(** The points of a rate group whose [is_simulated] flag equals [flag],
    from position [i] on. *)
Definition points_flagged (flag : scalar) (flags : list scalar) (tau conversion : list Q)
    (i : nat) : list (Q * Q) :=
  (List.filter (λ fp : scalar * (Q * Q), py_eq fp.1 flag)
     (zip flags (drop i (zip tau conversion)))).*2.

(** The dict of the simulation parameters is empty, or it has no
    ["id"] entry and every list in it has the length of its member
    list. *)
Definition simul_aligned (simul_dicts : dict) : Prop :=
  simul_dicts = ∅
  ∨ (simul_dicts !! "id" = None
     ∧ ∃ ids, simul_dicts !! "ref_ids" = Some (VList ids)
         ∧ ∀ k l, simul_dicts !! k = Some (VList l) → length l = length ids).

(** The observation [proc_data] is the last row of the group [d]: its
    id closes the member list, in which it does not occur before, and
    its values close every other column. *)
Definition last_row (proc_data : record) (d : dict) : Prop :=
  (∃ ids, ref_ids_of d = ids ++ [pget proc_data "id"]
          ∧ py_in (pget proc_data "id") ids = false)
  ∧ ∀ k l, k ≠ "ref_ids" → d !! k = Some (VList l) →
           ∃ l0, l = l0 ++ [pget proc_data k].

(** * Tactics *)

Ltac not_in_list :=
  let H := fresh in
  intros H; repeat (apply elem_of_cons in H as [H|H]; [done|]); by apply elem_of_nil in H.

Ltac disjoint_lists :=
  let k := fresh "k" in let H := fresh in
  intros k H; repeat (apply elem_of_cons in H as [->|H]; [not_in_list|]);
  by apply elem_of_nil in H.

Ltac new_group_lookup :=
  unfold new_group; simpl;
  repeat (rewrite lookup_insert; case_decide; simplify_eq; try done).

Ltac new_group_aligned x :=
  unfold new_group; simpl; exists [x]; split;
  [ repeat (rewrite lookup_insert_ne by done); by rewrite ?lookup_insert_eq
  | let k := fresh "k" in let l := fresh "l" in
    intros k l;
    repeat (rewrite lookup_insert; case_decide;
            [ subst k; intros ?; simplify_eq; (split; [not_in_list|done]) | ]);
    by rewrite lookup_empty ].

Ltac new_group_keys :=
  unfold new_group, dget; simpl;
  repeat (constructor; [simpl; by repeat (rewrite lookup_insert_ne by done);
                                rewrite ?lookup_insert_eq|]);
  by constructor.

Ltac new_group_ref_ids :=
  unfold new_group, ref_ids_of; simpl;
  repeat (rewrite lookup_insert_ne by done); by rewrite lookup_insert_eq.

(** Closes an equation between closed terms by evaluation. *)
Ltac vm_refl :=
  lazymatch goal with |- ?l = ?r => exact (@eq_refl _ r <: l = r) end.

(** Closes [only_stores] goals over a chain of inserts, from the
    reflexivity and insertion lemmas. *)
Ltac solve_only_stores_with refl ins :=
  repeat first
    [ apply refl
    | apply ins;
      [ | set_solver | first [done | by repeat case_match] ] ].

(** * Proofs *)

(** ** Sums of squares *)

Lemma np_sum_squares_nonneg (f : Q → Q) (l : list Q) :
  (0 <= np_sum (map (λ a, f a * f a) l))%Q.
Proof.
  induction l as [|a l IH]; simpl; [lra|].
  assert (0 <= f a * f a)%Q by nra. lra.
Qed.

Lemma np_sum_squares_pos (f : Q → Q) (l : list Q) (a : Q) :
  a ∈ l → ¬ (f a == 0)%Q → (0 < np_sum (map (λ a, f a * f a) l))%Q.
Proof.
  intros Hin Hne. induction Hin as [a l|a b l Hin IH]; simpl.
  - pose proof (np_sum_squares_nonneg f l).
    assert (0 < f a * f a)%Q by nra. lra.
  - specialize (IH Hne). assert (0 <= f b * f b)%Q by nra. lra.
Qed.

Lemma sxy_of_line (c : Q) (l : list Q) :
  (np_sum (zip_with Qmult l (map (Qmult c) l)) == c * np_sum (map (λ a, a * a) l))%Q.
Proof.
  induction l as [|a l IH]; simpl; [lra|]. rewrite IH. ring.
Qed.

Lemma ss_res_of_line (c m : Q) (l : list Q) :
  (m == c)%Q →
  (np_sum (zip_with (λ a b, (a - b) * (a - b)) (map (Qmult c) l)
             (map (λ xi, G1.lin_func xi m) l)) == 0)%Q.
Proof.
  intros Hm. induction l as [|a l IH]; simpl; [lra|].
  rewrite IH. unfold G1.lin_func. rewrite Hm. ring.
Qed.

(** ** [calc_init_slope] on exactly linear data *)

Section linear_data.
Variables (c x0 x1 : Q) (t : list Q).
Hypothesis c_nonzero : ¬ (c == 0)%Q.
Hypothesis x_distinct : ¬ (x0 == x1)%Q.

Lemma exact_fit_of_line (l : list Q) :
  ∃ m, exact_curve_fit (x0 :: x1 :: l) (map (Qmult c) (x0 :: x1 :: l)) = Some (m, 0%Q)
       ∧ (m == c)%Q.
Proof.
  unfold exact_curve_fit. rewrite length_map, bool_decide_eq_true_2 by done.
  set (sxx := np_sum (map (λ a, (a * a)%Q) (x0 :: x1 :: l))).
  assert (0 < sxx)%Q as Hpos.
  { destruct (Qeq_dec x0 0) as [H0|H0].
    - apply (np_sum_squares_pos (λ a, a) _ x1); [set_solver|].
      intros H1. apply x_distinct. rewrite H0, H1. reflexivity.
    - apply (np_sum_squares_pos (λ a, a) _ x0); [set_solver|done]. }
  destruct (Qeq_bool sxx 0) eqn:E.
  { apply Qeq_bool_iff in E. lra. }
  eexists. split; [reflexivity|].
  rewrite sxy_of_line. fold sxx. field. lra.
Qed.

Lemma r_sq_of_line (l : list Q) (m : Q) :
  (m == c)%Q →
  ∃ r, G1.r_sq_of (x0 :: x1 :: l) (map (Qmult c) (x0 :: x1 :: l)) m = Fin r ∧ (r == 1)%Q.
Proof.
  intros Hm. unfold G1.r_sq_of.
  set (ys := map (Qmult c) (x0 :: x1 :: l)).
  set (ss_res := np_sum (zip_with _ ys _)).
  set (ss_tot := np_sum (map _ ys)).
  assert (ss_res == 0)%Q as Hres by (by apply ss_res_of_line).
  assert (0 < ss_tot)%Q as Htot.
  { destruct (Qeq_dec (c * x0) (np_mean ys)) as [H0|H0].
    - apply (np_sum_squares_pos (λ a, a - np_mean ys)%Q _ (c * x1)%Q).
      + subst ys. simpl. set_solver.
      + intros H1. apply x_distinct.
        assert (c * x0 == c * x1)%Q as Hc by lra.
        apply Qmult_inj_l in Hc; done.
    - apply (np_sum_squares_pos (λ a, a - np_mean ys)%Q _ (c * x0)%Q).
      + subst ys. simpl. set_solver.
      + lra. }
  unfold r_squared_of. destruct (Qeq_bool ss_tot 0) eqn:E.
  { apply Qeq_bool_iff in E. lra. }
  eexists. split; [reflexivity|]. rewrite Hres. field. lra.
Qed.

End linear_data.

Lemma init_slope_loop_linear (x0 x1 : Q) (t : list Q) (threshold : Q) :
  ¬ (x0 == x1)%Q → (threshold <= 1)%Q →
  let x := x0 :: x1 :: t in
  ∀ j i st, (2 ≤ i)%nat → (i + j = length x + 1)%nat → (0 < j)%nat →
  ∃ m r,
    G1.init_slope_loop (N := exact_numerics) x (map (Qmult 3) x) 2 threshold (seq i j) st
    = ({| G1.st_slope := Some m; G1.st_slope_err := Some 0%Q;
          G1.st_r_squared := Some (Fin r); G1.st_num_points := Some (length x) |}, false)
    ∧ (m == 3)%Q ∧ (r == 1)%Q.
Proof.
  intros Hx Hthr x j. induction j as [|j IH]; intros i st Hi Hij Hj; [lia|].
  destruct i as [|[|i]]; [lia..|].
  cbn [seq G1.init_slope_loop].
  assert (take (S (S i)) (map (Qmult 3) x) = map (Qmult 3) (x0 :: x1 :: take i t)) as Hy.
  { subst x. rewrite firstn_map. reflexivity. }
  assert (take (S (S i)) x = x0 :: x1 :: take i t) as Hxs by reflexivity.
  rewrite Hy, Hxs.
  destruct (exact_fit_of_line 3 x0 x1 ltac:(lra) Hx (take i t)) as (m & Hfit & Hm).
  change (curve_fit (x0 :: x1 :: take i t) (map (Qmult 3) (x0 :: x1 :: take i t)))
    with (exact_curve_fit (x0 :: x1 :: take i t) (map (Qmult 3) (x0 :: x1 :: take i t))).
  rewrite Hfit.
  rewrite bool_decide_eq_true_2 by (by rewrite length_map).
  destruct (r_sq_of_line 3 x0 x1 ltac:(lra) Hx (take i t) m Hm) as (r & Hr & Hr1).
  rewrite Hr.
  assert (npfloat_ge (Fin r) threshold = true) as ->.
  { simpl. apply Qle_bool_iff. lra. }
  cbn [orb].
  destruct j as [|j].
  - cbn [seq G1.init_slope_loop]. exists m, r. split; [|done].
    do 3 f_equal. lia.
  - apply IH; lia.
Qed.

(** C8: on exactly linear data [y = 3 x] without noise (at least two
    points, the first two at different [x]) and with [min_points = 2],
    [calc_init_slope] returns slope 3 with R-squared 1 and reports
    all the points as used, for every threshold up to 1.  Floats are
    exact rationals here, so "approximately" is equality. *)
Theorem calc_init_slope_linear_data (x0 x1 : Q) (t : list Q) (threshold : Q) :
  ¬ (x0 == x1)%Q → (threshold <= 1)%Q →
  let x := x0 :: x1 :: t in
  ∃ u r,
    G1.calc_init_slope (N := exact_numerics) x (map (Qmult 3) x) 2 threshold
    = (Some (G1.slope_ufloat u), Some (Fin r), Some (length x))
    ∧ (nominal_value u == 3)%Q ∧ (r == 1)%Q.
Proof.
  intros Hx Hthr x. unfold G1.calc_init_slope.
  destruct (init_slope_loop_linear x0 x1 t threshold Hx Hthr
              (length x + 1 - 2) 2
              {| G1.st_slope := None; G1.st_slope_err := None;
                 G1.st_r_squared := None; G1.st_num_points := None |})
    as (m & r & Hloop & Hm & Hr); [lia|subst x; simpl; lia..|].
  fold x in Hloop. rewrite Hloop. simpl.
  eexists _, r. split; [reflexivity|]. done.
Qed.

Lemma calc_init_slope_linear_data_witness :
  ∃ u r,
    G1.calc_init_slope (N := exact_numerics) [1; 2; 3; 4]%Q (map (Qmult 3) [1; 2; 3; 4]%Q)
      2 (99 # 100)
    = (Some (G1.slope_ufloat u), Some (Fin r), Some 4%nat)
    ∧ (nominal_value u == 3)%Q ∧ (r == 1)%Q.
Proof.
  apply (calc_init_slope_linear_data 1 2 [3; 4]%Q (99 # 100)).
  - intros E. vm_compute in E. discriminate.
  - vm_compute. discriminate.
Defined.

(** ** [calc_init_slope] in general *)

Section init_slope.
Context `{N : Numerics}.
Variables (x y : list Q) (min_points : nat) (threshold : Q).

Lemma init_slope_loop_spec (j : nat) :
  ∀ i st, (i + j = length x + 1)%nat → (min_points < i)%nat →
  state_at x y (i - 1) st →
  (∀ k, (min_points ≤ k < i)%nat → fit_accepted x y min_points threshold k) →
  ∃ n st' raised,
    G1.init_slope_loop x y min_points threshold (seq i j) st = (st', raised)
    ∧ (i - 1 ≤ n ≤ length x)%nat
    ∧ state_at x y n st'
    ∧ (∀ k, (min_points ≤ k ≤ n)%nat → fit_accepted x y min_points threshold k)
    ∧ (n = length x ∨ ¬ fit_accepted x y min_points threshold (S n)).
Proof.
  induction j as [|j IH]; intros i st Hij Hi Hst Hacc.
  - exists (i - 1)%nat, st, false. simpl. repeat split; [lia..|done| |left; lia].
    intros k Hk. apply Hacc. lia.
  - cbn [seq G1.init_slope_loop].
    assert (∀ k, (min_points ≤ k ≤ i - 1)%nat → fit_accepted x y min_points threshold k) as Hacc'.
    { intros k Hk. apply Hacc. lia. }
    assert (S (i - 1) = i) as Hi1 by lia.
    destruct (curve_fit (take i x) (take i y)) as [[popt perr]|] eqn:Hfit.
    2:{ exists (i - 1)%nat, st, true. repeat split; [lia..|done|done|].
        right. rewrite Hi1. intros (m & e & Hm & _). congruence. }
    case_bool_decide as Hlen.
    2:{ exists (i - 1)%nat, st, true. repeat split; [lia..|done|done|].
        right. rewrite Hi1. intros (m & e & _ & Hl & _). congruence. }
    destruct (npfloat_ge _ threshold) eqn:Hge; cbn [orb].
    + destruct (IH (S i) {| G1.st_slope := Some popt; G1.st_slope_err := Some perr;
                          G1.st_r_squared := Some (G1.r_sq_of (take i x) (take i y) popt);
                          G1.st_num_points := Some i |})
        as (n & st' & raised & Hloop & Hn & Hst' & Hall & Hlast); [lia|lia| | |].
      * replace (S i - 1)%nat with i by lia. by exists popt, perr.
      * intros k Hk. destruct (decide (k = i)) as [->|]; [|apply Hacc; lia].
        exists popt, perr. eauto.
      * exists n, st', raised. repeat split; [done|lia..|done|done|done].
    + rewrite bool_decide_eq_false_2 by lia.
      exists (i - 1)%nat, st, false. repeat split; [lia..|done|done|].
      right. rewrite Hi1. intros (m & e & Hm & _ & [Hge'|]); [|lia].
      congruence.
Qed.

End init_slope.

(** C3, as the code has it: when the two lists have the same length,
    there are at least [min_points] points and the fit over the first
    [min_points] points does not raise, [calc_init_slope] returns a
    slope, an R-squared and a number of points [n], none of them null.
    The fit over the first [k] points was kept for every [k] from
    [min_points] to [n] (the first one whatever its R-squared, the
    later ones because their R-squared reached the threshold), and
    the search stopped at [n] because the points were exhausted or the
    fit over [n + 1] points was not kept.  What is returned is the fit
    over the first [n] points: the last one kept, not the last one
    attempted. *)
Theorem calc_init_slope_keeps_last_accepted `{N : Numerics}
    (x y : list Q) (min_points : nat) (threshold : Q) :
  length x = length y →
  (min_points ≤ length x)%nat →
  is_Some (curve_fit (take min_points x) (take min_points y)) →
  ∃ s r n,
    G1.calc_init_slope x y min_points threshold = (Some s, Some r, Some n)
    ∧ (min_points ≤ n ≤ length x)%nat
    ∧ (∀ k, (min_points ≤ k ≤ n)%nat → fit_accepted x y min_points threshold k)
    ∧ (n = length x ∨ ¬ fit_accepted x y min_points threshold (S n))
    ∧ (∃ e, curve_fit (take n x) (take n y) = Some (G1.slope_value s, e))
    ∧ r = G1.r_sq_of (take n x) (take n y) (G1.slope_value s).
Proof.
  intros Hlen Hmp [[m0 e0] Hfit0].
  assert (∀ k, length (take k x) = length (take k y)) as Hlens.
  { intros k. rewrite !length_take. lia. }
  assert (fit_accepted x y min_points threshold min_points) as Hacc0.
  { exists m0, e0. eauto. }
  unfold G1.calc_init_slope.
  replace (length x + 1 - min_points)%nat with (S (length x - min_points)) by lia.
  cbn [seq G1.init_slope_loop]. rewrite Hfit0.
  rewrite (bool_decide_eq_true_2 _ (Hlens min_points)).
  rewrite (bool_decide_eq_true_2 (min_points = min_points)) by done.
  rewrite orb_true_r.
  destruct (init_slope_loop_spec x y min_points threshold (length x - min_points)
              (S min_points)
              {| G1.st_slope := Some m0; G1.st_slope_err := Some e0;
                 G1.st_r_squared :=
                   Some (G1.r_sq_of (take min_points x) (take min_points y) m0);
                 G1.st_num_points := Some min_points |})
    as (n & st' & raised & Hloop & Hn & (m & e & Hfit & ->) & Hall & Hlast).
  - lia.
  - lia.
  - replace (S min_points - 1)%nat with min_points by lia. by exists m0, e0.
  - intros k Hk. by replace k with min_points by lia.
  - rewrite Hloop. cbn.
    exists (if raised then G1.slope_float m
            else G1.slope_ufloat {| nominal_value := m; std_dev := e |}),
           (G1.r_sq_of (take n x) (take n y) m), n.
    assert (G1.slope_value
              (if raised then G1.slope_float m
               else G1.slope_ufloat {| nominal_value := m; std_dev := e |}) = m) as ->
      by (by destruct raised).
    split; [by destruct raised|].
    split; [lia|]. split; [done|]. split; [done|]. split; [by exists e|done].
Qed.

(** ** Python equality *)

Lemma py_eq_refl a : py_eq a a = true.
Proof. destruct a; simpl; by rewrite ?bool_decide_eq_true_2. Qed.

Lemma py_eq_sym a b : py_eq a b = py_eq b a.
Proof.
  destruct a, b; simpl; try done; apply bool_decide_ext; split; congruence.
Qed.

Lemma py_eq_trans a b c : py_eq a b = true → py_eq b c = true → py_eq a c = true.
Proof.
  destruct a, b, c; simpl; try done;
    rewrite ?bool_decide_eq_true; congruence.
Qed.

Lemma py_eq_compat a b c : py_eq a b = true → py_eq a c = py_eq b c.
Proof.
  intros Hab. destruct (py_eq b c) eqn:Hbc.
  - by eapply py_eq_trans.
  - destruct (py_eq a c) eqn:Hac; [|done].
    rewrite py_eq_sym in Hab. by rewrite (py_eq_trans _ _ _ Hab Hac) in Hbc.
Qed.

Lemma py_in_spec x l : py_in x l = true ↔ ∃ y, y ∈ l ∧ py_eq x y = true.
Proof.
  unfold py_in. rewrite existsb_exists. setoid_rewrite list_elem_of_In. done.
Qed.

Lemma py_count_0 x l : py_count x l = 0%nat ↔ py_in x l = false.
Proof.
  unfold py_in. induction l as [|y l IH]; simpl; [done|].
  destruct (py_eq x y); simpl; [|exact IH]. split; [lia|done].
Qed.

Lemma py_count_pos x l : (0 < py_count x l)%nat ↔ py_in x l = true.
Proof.
  pose proof (py_count_0 x l) as H0. destruct (py_in x l).
  - split; [done|]. intros _. destruct (py_count x l); [|lia].
    by destruct H0 as [H0 _]; specialize (H0 eq_refl).
  - split; [|done]. destruct H0 as [_ H0]. rewrite H0 by done. lia.
Qed.

Lemma py_count_compat x z l : py_eq z x = true → py_count z l = py_count x l.
Proof.
  intros Hzx. induction l as [|y l IH]; simpl; [done|].
  by rewrite (py_eq_compat _ _ y Hzx), IH.
Qed.

Lemma py_count_app x l1 l2 : py_count x (l1 ++ l2) = (py_count x l1 + py_count x l2)%nat.
Proof. induction l1 as [|y l1 IH]; simpl; [done|]. rewrite IH. lia. Qed.

Lemma py_index_lt x l i : py_index x l = Some i → (i < length l)%nat.
Proof.
  revert i. induction l as [|y l IH]; intros i; simpl; [done|].
  destruct (py_eq y x); [intros [= <-]; lia|].
  destruct (py_index x l) as [i'|]; simpl; [|done].
  intros [= <-]. specialize (IH i' eq_refl). lia.
Qed.

Lemma py_index_in x l : py_in x l = true ↔ is_Some (py_index x l).
Proof.
  unfold py_in. induction l as [|y l IH]; simpl.
  - split; [done|]. by intros [? ?].
  - rewrite (py_eq_sym y x). destruct (py_eq x y); simpl; [by eauto|].
    rewrite IH. destruct (py_index x l); simpl; split; eauto; by intros [? ?].
Qed.

(** Deleting the first occurrence. *)
Lemma py_count_delete x l i z :
  py_index x l = Some i →
  py_count z (delete i l) = (py_count z l - (if py_eq z x then 1 else 0))%nat.
Proof.
  revert i. induction l as [|y l IH]; intros i; simpl; [done|].
  destruct (py_eq y x) eqn:Hyx.
  - intros [= <-]. simpl.
    rewrite (py_eq_sym z y), (py_eq_compat y x z Hyx), (py_eq_sym x z).
    destruct (py_eq z x); lia.
  - destruct (py_index x l) as [i'|] eqn:Hidx; simpl; [|done].
    intros [= <-]. simpl. rewrite (IH i' eq_refl).
    destruct (py_eq z x) eqn:Hzx; [|lia].
    rewrite (py_eq_compat z x y Hzx), (py_eq_sym x y), Hyx. simpl.
    assert (0 < py_count z l)%nat; [|lia].
    rewrite (py_count_compat x z l Hzx). apply py_count_pos, py_index_in. eauto.
Qed.

(** ** The removal pass *)

Lemma as_list_dget d k l : as_list (dget d k) = Some l ↔ d !! k = Some (VList l).
Proof.
  unfold dget. destruct (d !! k) as [[]|]; simpl; naive_solver.
Qed.

Lemma ref_ids_of_lookup d ids : d !! "ref_ids" = Some (VList ids) → ref_ids_of d = ids.
Proof. unfold ref_ids_of. by intros ->. Qed.

Section removal.
Variable keep : list string.
Hypothesis keep_updated : "updated" ∉ keep.

Lemma pop_ok_aligned pos d ids :
  aligned keep d → d !! "ref_ids" = Some (VList ids) → (pos < length ids)%nat →
  pop_ok keep pos d = true.
Proof.
  intros (ids' & Hids & Hal) Hids' Hpos. simplify_eq.
  unfold pop_ok. apply forallb_forall. intros [k v] Hin.
  apply list_elem_of_In, elem_of_map_to_list in Hin. simpl.
  destruct v as [| l | |]; rewrite ?orb_true_r; try done.
  destruct (Hal k l Hin) as [_ Hlen].
  rewrite (bool_decide_eq_true_2 (pos < length l)%nat) by lia. apply orb_true_r.
Qed.

Lemma remove_ref_inv x d d' :
  remove_ref keep x d = Some d' →
  ∃ ids, d !! "ref_ids" = Some (VList ids) ∧
    ((py_in x ids = false ∧ d' = d) ∨
     (∃ pos, py_index x ids = Some pos ∧ pop_ok keep pos d = true ∧
             d' = <["updated" := VTrue]> (map_imap (pop_entry keep pos) d))).
Proof.
  unfold remove_ref. intros Hrem.
  destruct (as_list (dget d "ref_ids")) as [ids|] eqn:Hids; simpl in Hrem; [|done].
  apply as_list_dget in Hids. exists ids. split; [done|].
  destruct (py_in x ids) eqn:Hin; [|left; by simplify_eq].
  destruct (py_index x ids) as [pos|] eqn:Hidx; simpl in Hrem; [|done].
  destruct (pop_ok keep pos d) eqn:Hok; [|done].
  right. exists pos. by simplify_eq.
Qed.

Lemma remove_ref_is_Some x d : aligned keep d → is_Some (remove_ref keep x d).
Proof.
  intros Hal. pose proof Hal as (ids & Hids & _).
  unfold remove_ref. rewrite (proj2 (as_list_dget d "ref_ids" ids) Hids). simpl.
  destruct (py_in x ids) eqn:Hin; [|eauto].
  apply py_index_in in Hin as [pos Hpos]. rewrite Hpos. simpl.
  rewrite (pop_ok_aligned pos d ids Hal Hids (py_index_lt _ _ _ Hpos)). eauto.
Qed.

Lemma lookup_popped pos d k :
  (<["updated" := VTrue]> (map_imap (pop_entry keep pos) d)) !! k =
  if decide (k = "updated") then Some VTrue
  else if decide (k ∈ keep) then d !! k
  else match d !! k with
       | Some (VList l) => Some (VList (delete pos l))
       | Some _ => Some VNone
       | None => None
       end.
Proof.
  destruct (decide (k = "updated")) as [->|Hk].
  { by rewrite lookup_insert_eq. }
  rewrite lookup_insert_ne by done. rewrite map_lookup_imap.
  destruct (d !! k) as [v|]; simpl; [|by case_decide].
  unfold pop_entry. case_bool_decide; case_decide; try done. by destruct v.
Qed.

Lemma popped_aligned pos d ids :
  aligned keep d → d !! "ref_ids" = Some (VList ids) → (pos < length ids)%nat →
  aligned keep (<["updated" := VTrue]> (map_imap (pop_entry keep pos) d)).
Proof.
  intros (ids' & Hids' & Hal) Hids Hpos. simplify_eq.
  destruct (Hal _ _ Hids') as [Hk _].
  exists (delete pos ids'). split.
  - rewrite lookup_popped. rewrite decide_False by done.
    rewrite decide_False by done. by rewrite Hids'.
  - intros k l. rewrite lookup_popped.
    case_decide; [done|]. case_decide as Hkeep.
    { intros Hl. by destruct (Hal _ _ Hl). }
    destruct (d !! k) as [[| l' | |]|] eqn:Hl'; try done.
    intros [= <-]. destruct (Hal _ _ Hl') as [_ Hlen].
    split; [done|]. rewrite !length_delete; [lia|..].
    + by apply lookup_lt_is_Some_2.
    + apply lookup_lt_is_Some_2. lia.
Qed.

Lemma remove_ref_aligned x d d' :
  aligned keep d → remove_ref keep x d = Some d' → aligned keep d'.
Proof.
  intros Hal Hrem.
  apply remove_ref_inv in Hrem as (ids & Hids & [[_ ->]|(pos & Hpos & _ & ->)]); [done|].
  eapply popped_aligned; eauto using py_index_lt.
Qed.

Lemma remove_ref_keep x d d' k :
  remove_ref keep x d = Some d' → k ∈ keep → d' !! k = d !! k.
Proof.
  intros Hrem Hk.
  apply remove_ref_inv in Hrem as (ids & Hids & [[_ ->]|(pos & Hpos & _ & ->)]); [done|].
  rewrite lookup_popped. rewrite decide_False by (intros ->; done).
  by rewrite decide_True.
Qed.

Lemma remove_ref_ref_ids x d d' :
  "ref_ids" ∉ keep →
  remove_ref keep x d = Some d' →
  ∃ ids, d !! "ref_ids" = Some (VList ids) ∧
    ((py_in x ids = false ∧ d' = d) ∨
     (∃ pos, py_index x ids = Some pos ∧ d' !! "ref_ids" = Some (VList (delete pos ids))
             ∧ d' !! "updated" = Some VTrue)).
Proof.
  intros Hk Hrem.
  apply remove_ref_inv in Hrem as (ids & Hids & [[? ->]|(pos & Hpos & _ & ->)]);
    exists ids; (split; [done|]); [by left|right].
  exists pos. split; [done|]. rewrite !lookup_popped.
  rewrite decide_False by done. rewrite decide_False by done.
  rewrite Hids. split; [done|]. by rewrite decide_True.
Qed.

End removal.

(** ** Steps that only store results *)

Lemma frame_refl keep d : frame keep d d.
Proof. done. Qed.

Lemma frame_trans keep d1 d2 d3 : frame keep d1 d2 → frame keep d2 d3 → frame keep d1 d3.
Proof.
  intros (Hr1 & Hk1 & Ha1) (Hr2 & Hk2 & Ha2). split; [congruence|]. split; [|by auto].
  intros k Hk. rewrite Hk2, Hk1; done.
Qed.

Lemma frame_insert keep d k v :
  k ≠ "ref_ids" → k ∉ keep → as_list v = None → frame keep d (<[k := v]> d).
Proof.
  intros Hk Hkeep Hv. split; [by rewrite lookup_insert_ne|]. split.
  - intros k' Hk'. rewrite lookup_insert_ne; [done|]. by intros ->.
  - intros (ids & Hids & Hal). exists ids. split; [by rewrite lookup_insert_ne|].
    intros k' l. destruct (decide (k = k')) as [<-|Hne].
    + rewrite lookup_insert_eq. intros [= ->]. done.
    + rewrite lookup_insert_ne by done. apply Hal.
Qed.

Lemma frame_ref_ids_of keep d d' : frame keep d d' → ref_ids_of d' = ref_ids_of d.
Proof. intros (Hr & _). unfold ref_ids_of. by rewrite Hr. Qed.

Lemma frame_key_match keep kv d d' :
  (∀ p, p ∈ kv → p.1 ∈ keep) → frame keep d d' → key_match kv d' = key_match kv d.
Proof.
  intros Hkv (_ & Hk & _). unfold key_match.
  induction kv as [|p kv IH]; simpl; [done|].
  rewrite IH by (intros; apply Hkv; set_solver).
  unfold dget. rewrite (Hk p.1) by (apply Hkv; set_solver). done.
Qed.

(** ** The insertion pass *)

Section insertion.
Variable keep : list string.
Variable kv : list (string * scalar).
Variable src : string → option scalar.
Variable extra : dict → dict.
Variable new_dict : Z → option dict.
Hypothesis keep_updated : "updated" ∉ keep.
Hypothesis keep_ref_ids : "ref_ids" ∉ keep.
Hypothesis extra_frame : ∀ d, frame keep d (extra d).

Lemma lookup_appended d k :
  (<["updated" := VTrue]> (map_imap (append_entry keep src) d)) !! k =
  if decide (k = "updated") then Some VTrue
  else if decide (k ∈ keep ++ ["ref_ids"]) then d !! k
  else match d !! k with
       | Some (VList l) => Some (VList (l ++ [default SNone (src k)]))
       | Some _ => Some VNone
       | None => None
       end.
Proof.
  destruct (decide (k = "updated")) as [->|Hk].
  { by rewrite lookup_insert_eq. }
  rewrite lookup_insert_ne by done. rewrite map_lookup_imap.
  destruct (d !! k) as [v|]; simpl; [|by case_decide].
  unfold append_entry. case_bool_decide; case_decide; try done. by destruct v.
Qed.

Lemma append_ref_inv x d d' :
  append_ref keep src extra x d = Some d' →
  ∃ ids, d !! "ref_ids" = Some (VList ids) ∧
    d' = extra (<["updated" := VTrue]>
                  (map_imap (append_entry keep src) (<["ref_ids" := VList (ids ++ [x])]> d))).
Proof.
  unfold append_ref. intros Happ.
  destruct (d !! "ref_ids") as [[| ids | |]|] eqn:Hids; simpl in Happ; try done.
  exists ids. split; [done|]. case_match; by simplify_eq.
Qed.

Lemma appended_aligned x d ids :
  aligned keep d → d !! "ref_ids" = Some (VList ids) →
  aligned keep (<["updated" := VTrue]>
                  (map_imap (append_entry keep src) (<["ref_ids" := VList (ids ++ [x])]> d))).
Proof.
  intros (ids' & Hids' & Hal) Hids. simplify_eq.
  exists (ids' ++ [x]). split.
  - rewrite lookup_appended. rewrite decide_False by done.
    rewrite decide_True by set_solver. by rewrite lookup_insert_eq.
  - intros k l. rewrite lookup_appended.
    case_decide; [done|].
    destruct (decide (k = "ref_ids")) as [->|Hne].
    { rewrite decide_True by set_solver. rewrite lookup_insert_eq. by intros [= <-]. }
    rewrite lookup_insert_ne by done.
    case_decide as Hkeep.
    { intros Hl. destruct (Hal _ _ Hl) as [Hk _]. set_solver. }
    destruct (d !! k) as [[| l' | |]|] eqn:Hl'; try done.
    intros [= <-]. destruct (Hal _ _ Hl') as [Hk Hlen].
    split; [done|]. rewrite !length_app. simpl. lia.
Qed.

Lemma append_ref_aligned x d d' :
  aligned keep d → append_ref keep src extra x d = Some d' → aligned keep d'.
Proof.
  intros Hal Happ. apply append_ref_inv in Happ as (ids & Hids & ->).
  apply extra_frame. by apply appended_aligned.
Qed.

Lemma append_ref_keep x d d' k :
  append_ref keep src extra x d = Some d' → k ∈ keep → d' !! k = d !! k.
Proof.
  intros Happ Hk. apply append_ref_inv in Happ as (ids & Hids & ->).
  destruct (extra_frame (<["updated" := VTrue]>
                  (map_imap (append_entry keep src) (<["ref_ids" := VList (ids ++ [x])]> d))))
    as (_ & Hkeep & _).
  rewrite Hkeep by done. rewrite lookup_appended.
  rewrite decide_False by (by intros ->). rewrite decide_True by set_solver.
  rewrite lookup_insert_ne; [done|]. by intros <-.
Qed.

Lemma append_ref_ref_ids x d d' :
  append_ref keep src extra x d = Some d' →
  ref_ids_of d' = ref_ids_of d ++ [x].
Proof.
  intros Happ. apply append_ref_inv in Happ as (ids & Hids & ->).
  rewrite (frame_ref_ids_of keep _ _ (extra_frame _)).
  unfold ref_ids_of. rewrite lookup_appended, Hids.
  rewrite decide_False by done. rewrite decide_True by set_solver.
  by rewrite lookup_insert_eq.
Qed.

End insertion.

(** ** Counting members over a family *)

Lemma total_count_app z l1 l2 :
  total_count z (l1 ++ l2) = (total_count z l1 + total_count z l2)%nat.
Proof.
  unfold total_count. induction l1 as [|d l1 IH]; simpl; [done|]. rewrite IH. lia.
Qed.

Lemma total_count_cons z d l :
  total_count z (d :: l) = (py_count z (ref_ids_of d) + total_count z l)%nat.
Proof. done. Qed.

Lemma total_count_compat x z l : py_eq z x = true → total_count z l = total_count x l.
Proof.
  intros Hzx. induction l as [|d l IH]; [done|].
  by rewrite !total_count_cons, IH, (py_count_compat x z).
Qed.

Lemma total_count_elem z d l :
  d ∈ l → (py_count z (ref_ids_of d) ≤ total_count z l)%nat.
Proof.
  induction 1 as [d l|d d' l _ IH]; rewrite total_count_cons; lia.
Qed.

(** An id that is a member of two groups counts twice. *)
Lemma exclusive_at_most_one dicts x i j d1 d2 :
  exclusive dicts →
  dicts !! i = Some d1 → dicts !! j = Some d2 →
  py_in x (ref_ids_of d1) = true → py_in x (ref_ids_of d2) = true → i = j.
Proof.
  intros Hex Hi Hj H1 H2. specialize (Hex x).
  apply py_count_pos in H1, H2.
  destruct (decide (i = j)) as [|Hne]; [done|exfalso].
  revert i j Hi Hj Hne Hex.
  induction dicts as [|d dicts IH]; intros i j Hi Hj Hne Hex; [done|].
  rewrite total_count_cons in Hex.
  destruct i as [|i], j as [|j]; simpl in *; simplify_eq.
  - pose proof (total_count_elem x d2 dicts (list_elem_of_lookup_2 _ _ _ Hj)). lia.
  - pose proof (total_count_elem x d1 dicts (list_elem_of_lookup_2 _ _ _ Hi)). lia.
  - apply (IH i j); auto. lia.
Qed.

Lemma at_most_one_true {A} (f : A → bool) (l : list A) :
  (∀ i j a b, l !! i = Some a → l !! j = Some b → f a = true → f b = true → i = j) →
  (sum_list (map (λ a, if f a then 1 else 0) l) ≤ 1)%nat.
Proof.
  induction l as [|a l IH]; intros Huniq; simpl; [lia|].
  assert (sum_list (map (λ a, if f a then 1 else 0) l) ≤ 1)%nat as IH'.
  { apply IH. intros i j b c Hi Hj Hb Hc.
    by specialize (Huniq (S i) (S j) b c Hi Hj Hb Hc) as [= ->]. }
  destruct (f a) eqn:Hfa; [|lia].
  enough (sum_list (map (λ a, if f a then 1 else 0) l) = 0)%nat by lia.
  clear IH IH'. assert (∀ b, b ∈ l → f b = false) as Hl.
  { intros b Hb. apply list_elem_of_lookup in Hb as [j Hj].
    destruct (f b) eqn:Hfb; [|done].
    by specialize (Huniq 0%nat (S j) a b eq_refl Hj Hfa Hfb). }
  clear Huniq. induction l as [|b l IH]; simpl; [done|].
  rewrite (Hl b) by set_solver. rewrite IH; [done|]. intros; apply Hl; set_solver.
Qed.

Lemma key_stable_key_match keep kv d d' :
  (∀ p, p ∈ kv → p.1 ∈ keep) → key_stable keep d d' → key_match kv d' = key_match kv d.
Proof.
  intros Hkv Hk. unfold key_match.
  induction kv as [|p kv IH]; simpl; [done|].
  rewrite IH by (intros; apply Hkv; set_solver).
  unfold dget. rewrite (Hk p.1) by (apply Hkv; set_solver). done.
Qed.

Lemma keys_unique_stable keep keys dicts dicts' :
  keys ⊆ keep →
  Forall2 (key_stable keep) dicts dicts' →
  keys_unique keys dicts → keys_unique keys dicts'.
Proof.
  intros Hsub Hst Huniq kv i j d1' d2' Hkv Hi Hj H1 H2.
  destruct (Forall2_lookup_r _ _ _ _ _ Hst Hi) as (d1 & Hi' & Hs1).
  destruct (Forall2_lookup_r _ _ _ _ _ Hst Hj) as (d2 & Hj' & Hs2).
  assert (∀ p, p ∈ kv → p.1 ∈ keep) as Hin.
  { intros p Hp. apply Hsub. rewrite <- Hkv. by apply list_elem_of_fmap_2. }
  rewrite (key_stable_key_match keep kv d1 d1') in H1 by done.
  rewrite (key_stable_key_match keep kv d2 d2') in H2 by done.
  eauto.
Qed.

Section removal_pass.
Variable keep : list string.
Hypothesis keep_updated : "updated" ∉ keep.
Hypothesis keep_ref_ids : "ref_ids" ∉ keep.

Lemma remove_pass_aligned x dicts dicts' :
  Forall (aligned keep) dicts → remove_pass keep x dicts = Some dicts' →
  Forall (aligned keep) dicts'.
Proof.
  intros Hal Hrem. apply mapM_Some in Hrem.
  induction Hrem as [|d d' l l' Hd _ IH]; [done|].
  inversion_clear Hal. constructor; [|by auto].
  by eapply remove_ref_aligned.
Qed.

Lemma remove_pass_key_stable x dicts dicts' :
  remove_pass keep x dicts = Some dicts' → Forall2 (key_stable keep) dicts dicts'.
Proof.
  intros Hrem. apply mapM_Some in Hrem.
  eapply Forall2_impl; [|exact Hrem]. intros d d' Hd. simpl in Hd.
  intros k Hk. by eapply remove_ref_keep.
Qed.

Lemma remove_ref_count x d d' z :
  remove_ref keep x d = Some d' →
  py_count z (ref_ids_of d') =
  (py_count z (ref_ids_of d)
   - (if py_eq z x && py_in x (ref_ids_of d) then 1 else 0))%nat.
Proof.
  intros Hrem.
  apply remove_ref_ref_ids in Hrem as (ids & Hids & [[Hin ->]|(pos & Hpos & Hids' & _)]);
    [| |done..].
  - rewrite (ref_ids_of_lookup d ids Hids), Hin, andb_false_r. lia.
  - rewrite (ref_ids_of_lookup d ids Hids), (ref_ids_of_lookup d' _ Hids').
    rewrite (py_count_delete x ids pos z Hpos).
    assert (py_in x ids = true) as -> by (apply py_index_in; eauto).
    by rewrite andb_true_r.
Qed.

Lemma remove_pass_count_le x dicts dicts' z :
  remove_pass keep x dicts = Some dicts' →
  (total_count z dicts' ≤ total_count z dicts)%nat.
Proof.
  intros Hrem. apply mapM_Some in Hrem.
  induction Hrem as [|d d' l l' Hd _ IH]; [done|].
  rewrite !total_count_cons, (remove_ref_count x d d' z Hd). lia.
Qed.

Lemma remove_pass_count_0 x dicts dicts' :
  exclusive dicts → remove_pass keep x dicts = Some dicts' →
  total_count x dicts' = 0%nat.
Proof.
  intros Hex Hrem. specialize (Hex x). apply mapM_Some in Hrem.
  induction Hrem as [|d d' l l' Hd _ IH]; [done|].
  rewrite total_count_cons in Hex.
  rewrite !total_count_cons, (remove_ref_count x d d' x Hd), py_eq_refl. simpl.
  rewrite IH by lia.
  destruct (py_in x (ref_ids_of d)) eqn:Hin; [lia|].
  apply py_count_0 in Hin. lia.
Qed.

Lemma remove_pass_exclusive x dicts dicts' :
  exclusive dicts → remove_pass keep x dicts = Some dicts' → exclusive dicts'.
Proof.
  intros Hex Hrem z. pose proof (remove_pass_count_le x dicts dicts' z Hrem).
  specialize (Hex z). lia.
Qed.

Lemma remove_pass_is_Some x dicts :
  Forall (aligned keep) dicts → is_Some (remove_pass keep x dicts).
Proof.
  intros Hal. apply mapM_is_Some.
  induction Hal; constructor; [by apply remove_ref_is_Some|done].
Qed.

Lemma remove_pass_length x dicts dicts' :
  remove_pass keep x dicts = Some dicts' → length dicts' = length dicts.
Proof. intros Hrem. symmetry. by eapply length_mapM. Qed.

End removal_pass.

Lemma key_match_new (kv kv' : list (string * scalar)) dn d :
  kv'.*1 = kv.*1 →
  Forall (λ p, dget dn p.1 = VScalar p.2) kv →
  key_match kv' dn = true → key_match kv' d = true → key_match kv d = true.
Proof.
  unfold key_match. revert kv'.
  induction kv as [|[k v] kv IH]; intros [|[k' v'] kv'] Hnames Hnew; simpl in *; try done.
  simplify_eq. inversion_clear Hnew as [|? ? Hk Hrest]. simpl in Hk.
  rewrite !andb_true_iff. intros [Hv1 Hm1] [Hv2 Hm2]. split.
  - rewrite Hk in Hv1. simpl in Hv1. unfold val_eq in *.
    destruct (dget d k); try done.
    rewrite py_eq_sym in Hv1. by eapply py_eq_trans.
  - eapply IH; eauto.
Qed.

Section insertion_pass.
Variable keep : list string.
Variable kv : list (string * scalar).
Variable src : string → option scalar.
Variable extra : dict → dict.
Variable new_dict : Z → option dict.
Variable x : scalar.
Hypothesis keep_updated : "updated" ∉ keep.
Hypothesis keep_ref_ids : "ref_ids" ∉ keep.
Hypothesis extra_frame : ∀ d, frame keep d (extra d).
Hypothesis kv_keep : ∀ p, p ∈ kv → p.1 ∈ keep.
Hypothesis new_aligned : ∀ m d, new_dict m = Some d → aligned keep d.
Hypothesis new_ref_ids : ∀ m d, new_dict m = Some d → ref_ids_of d = [x].
Hypothesis new_key :
  ∀ m d, new_dict m = Some d → Forall (λ p, dget d p.1 = VScalar p.2) kv.

Lemma insert_pass_inv dicts dicts' :
  insert_pass keep kv src extra new_dict x dicts = Some dicts' →
  ∃ dicts1, Forall2 (appended keep kv src extra x) dicts dicts1 ∧
    ((existsb (key_match kv) dicts = true ∧ dicts' = dicts1) ∨
     (existsb (key_match kv) dicts = false ∧ dicts1 = dicts ∧
      ∃ ids dn, mapM dict_id dicts = Some ids ∧ new_dict (max_id ids) = Some dn
                ∧ dicts' = dicts ++ [dn])).
Proof.
  unfold insert_pass. intros Hins.
  destruct (mapM (λ d, if key_match kv d then append_ref keep src extra x d else Some d)
              dicts) as [dicts1|] eqn:Hmap; simpl in Hins; [|done].
  apply mapM_Some in Hmap. exists dicts1.
  assert (Forall2 (appended keep kv src extra x) dicts dicts1) as Happ.
  { eapply Forall2_impl; [|exact Hmap]. intros d d1 Hd. unfold appended.
    simpl in Hd. destruct (key_match kv d); congruence. }
  split; [done|].
  destruct (existsb (key_match kv) dicts) eqn:Hex.
  { left. split; [done|]. congruence. }
  right.
  assert (dicts1 = dicts) as ->.
  { clear Hins. induction Happ as [|d d1 l l1 Hd _ IH]; [done|].
    simpl in Hex. apply orb_false_elim in Hex as [Hd' Hl].
    unfold appended in Hd. rewrite Hd' in Hd. subst d1. f_equal.
    apply IH; [|done]. by inversion Hmap. }
  split; [done|]. split; [done|].
  destruct (mapM dict_id dicts) as [ids|]; simpl in Hins; [|done].
  destruct (new_dict (max_id ids)) as [dn|] eqn:Hnew; simpl in Hins; [|done].
  exists ids, dn. by simplify_eq.
Qed.

Lemma appended_aligned_family dicts dicts1 :
  Forall (aligned keep) dicts → Forall2 (appended keep kv src extra x) dicts dicts1 →
  Forall (aligned keep) dicts1.
Proof.
  intros Hal Happ. induction Happ as [|d d1 l l1 Hd _ IH]; [done|].
  inversion_clear Hal. constructor; [|by auto].
  unfold appended in Hd. destruct (key_match kv d); [|by subst].
  by eapply append_ref_aligned.
Qed.

Lemma appended_key_stable dicts dicts1 :
  Forall2 (appended keep kv src extra x) dicts dicts1 → Forall2 (key_stable keep) dicts dicts1.
Proof.
  intros Happ. eapply Forall2_impl; [|exact Happ].
  intros d d1 Hd k Hk. unfold appended in Hd.
  destruct (key_match kv d); [|by subst]. by eapply append_ref_keep.
Qed.

Lemma appended_count dicts dicts1 z :
  Forall2 (appended keep kv src extra x) dicts dicts1 →
  total_count z dicts1 =
  (total_count z dicts
   + sum_list (map (λ d, if key_match kv d then 1 else 0) dicts)
     * (if py_eq z x then 1 else 0))%nat.
Proof.
  intros Happ. induction Happ as [|d d1 l l1 Hd _ IH]; [done|].
  rewrite !total_count_cons, IH. simpl. unfold appended in Hd.
  destruct (key_match kv d); [|subst; lia].
  assert (ref_ids_of d1 = ref_ids_of d ++ [x]) as ->
    by (eapply append_ref_ref_ids; eauto).
  rewrite py_count_app. simpl. lia.
Qed.

Lemma existsb_sum_pos {A} (f : A → bool) (l : list A) :
  existsb f l = true → (1 ≤ sum_list (map (λ a, if f a then 1 else 0) l))%nat.
Proof.
  induction l as [|a l IH]; simpl; [done|].
  destruct (f a); simpl; [lia|]. intros Hl. specialize (IH Hl). lia.
Qed.

Lemma insert_pass_aligned dicts dicts' :
  Forall (aligned keep) dicts →
  insert_pass keep kv src extra new_dict x dicts = Some dicts' →
  Forall (aligned keep) dicts'.
Proof.
  intros Hal Hins.
  apply insert_pass_inv in Hins
    as (dicts1 & Happ & [[_ ->]|(_ & -> & ids & dn & _ & Hnew & ->)]).
  - by eapply appended_aligned_family.
  - apply Forall_app. split; [done|]. constructor; [|done]. by eapply new_aligned.
Qed.

Lemma insert_pass_count dicts dicts' z :
  keys_unique (kv.*1) dicts →
  insert_pass keep kv src extra new_dict x dicts = Some dicts' →
  total_count z dicts' = (total_count z dicts + (if py_eq z x then 1 else 0))%nat.
Proof.
  intros Huniq Hins.
  apply insert_pass_inv in Hins
    as (dicts1 & Happ & [[Hex ->]|(_ & -> & ids & dn & _ & Hnew & ->)]).
  - rewrite (appended_count dicts dicts1 z Happ).
    pose proof (existsb_sum_pos _ _ Hex) as Hge.
    assert (sum_list (map (λ d, if key_match kv d then 1 else 0) dicts) ≤ 1)%nat as Hle.
    { apply at_most_one_true. intros i j a b Hi Hj Ha Hb. by eapply (Huniq kv i j a b). }
    replace (sum_list (map (λ d, if key_match kv d then 1 else 0) dicts)) with 1%nat by lia.
    lia.
  - rewrite total_count_app, total_count_cons, (new_ref_ids _ _ Hnew). simpl.
    unfold total_count. simpl. lia.
Qed.

Lemma insert_pass_keys_unique dicts dicts' :
  keys_unique (kv.*1) dicts →
  insert_pass keep kv src extra new_dict x dicts = Some dicts' →
  keys_unique (kv.*1) dicts'.
Proof.
  intros Huniq Hins.
  assert (kv.*1 ⊆ keep) as Hsub.
  { intros k Hk. apply list_elem_of_fmap in Hk as (p & -> & Hp). by apply kv_keep. }
  apply insert_pass_inv in Hins
    as (dicts1 & Happ & [[_ ->]|(Hex & -> & ids & dn & _ & Hnew & ->)]).
  - eapply keys_unique_stable; eauto using appended_key_stable.
  - intros kv' i j d1 d2 Hkv' Hi Hj H1 H2.
    assert (∀ i d, dicts !! i = Some d → key_match kv' dn = true →
                   key_match kv' d = true → False) as Hno.
    { intros i' d Hd Hn Hm.
      pose proof (key_match_new kv kv' dn d Hkv' (new_key _ _ Hnew) Hn Hm) as Hkm.
      assert (existsb (key_match kv) dicts = true); [|congruence].
      apply existsb_exists. exists d. split; [|done].
      apply list_elem_of_In. by eapply list_elem_of_lookup_2. }
    apply lookup_app_Some in Hi as [Hi|[Hi Hi']], Hj as [Hj|[Hj Hj']].
    + by eapply (Huniq kv' i j d1 d2).
    + apply list_lookup_singleton_Some in Hj' as [_ <-]. by destruct (Hno i d1).
    + apply list_lookup_singleton_Some in Hi' as [_ <-]. by destruct (Hno j d2).
    + apply list_lookup_singleton_Some in Hi' as [? _], Hj' as [? _]. lia.
Qed.

Lemma insert_pass_exclusive dicts dicts' :
  keys_unique (kv.*1) dicts → exclusive dicts → total_count x dicts = 0%nat →
  insert_pass keep kv src extra new_dict x dicts = Some dicts' →
  exclusive dicts'.
Proof.
  intros Huniq Hex H0 Hins z.
  rewrite (insert_pass_count dicts dicts' z Huniq Hins).
  destruct (py_eq z x) eqn:Hzx; [|specialize (Hex z); lia].
  rewrite (total_count_compat x z dicts Hzx). lia.
Qed.

End insertion_pass.

Lemma only_stores_refl W d : only_stores W d d.
Proof. done. Qed.

Lemma only_stores_trans W d1 d2 d3 :
  only_stores W d1 d2 → only_stores W d2 d3 → only_stores W d1 d3.
Proof.
  intros [H1 L1] [H2 L2]. split.
  - intros k Hk. by rewrite H2, H1.
  - eauto.
Qed.

Lemma only_stores_insert W d d' k v :
  only_stores W d d' → k ∈ W → as_list v = None → only_stores W d (<[k := v]> d').
Proof.
  intros [H1 L1] Hk Hv. split.
  - intros k' Hk'. rewrite lookup_insert_ne; [by apply H1|]. by intros ->.
  - intros k' l. destruct (decide (k = k')) as [<-|Hne].
    + rewrite lookup_insert_eq. by intros [= ->].
    + rewrite lookup_insert_ne by done. apply L1.
Qed.

Lemma only_stores_mono W W' d d' : W ⊆ W' → only_stores W d d' → only_stores W' d d'.
Proof. intros Hsub [H1 L1]. split; [|done]. intros k Hk. apply H1. set_solver. Qed.

Lemma only_stores_frame W keep d d' :
  "ref_ids" ∉ W → (∀ k, k ∈ W → k ∉ keep) →
  only_stores W d d' → frame keep d d'.
Proof.
  intros Hr Hk [H1 L1]. split; [by apply H1|]. split.
  - intros k Hin. apply H1. intros HW. by apply (Hk k).
  - intros (ids & Hids & Hal). exists ids. split; [by rewrite H1|].
    intros k l Hl. apply Hal. by apply L1.
Qed.

Lemma frame_key_stable keep d d' : frame keep d d' → key_stable keep d d'.
Proof. by intros (_ & Hk & _). Qed.

Lemma family_inv_frame keys dicts dicts' :
  Forall2 (frame ("id" :: keys)) dicts dicts' →
  family_inv keys dicts → family_inv keys dicts'.
Proof.
  intros Hfr [Hal Huniq Hex]. split.
  - clear Huniq Hex. induction Hfr as [|d d' l l' (_ & _ & Hd) _ IH]; [done|].
    inversion_clear Hal. constructor; auto.
  - eapply (keys_unique_stable ("id" :: keys)); [set_solver| |done].
    eapply Forall2_impl; [|exact Hfr]. apply frame_key_stable.
  - intros z. specialize (Hex z).
    enough (total_count z dicts' = total_count z dicts) as -> by done.
    clear -Hfr. induction Hfr as [|d d' l l' Hd _ IH]; [done|].
    by rewrite !total_count_cons, IH, (frame_ref_ids_of _ _ _ Hd).
Qed.

Lemma mapM_Forall2 {A B} (f : A → option B) (R : A → B → Prop) l l' :
  (∀ a b, f a = Some b → R a b) → mapM f l = Some l' → Forall2 R l l'.
Proof.
  intros HR Hm. apply mapM_Some in Hm. eapply Forall2_impl; [|exact Hm]. done.
Qed.

Lemma remove_pass_family_inv keys x dicts dicts' :
  "updated" ∉ "id" :: keys → "ref_ids" ∉ "id" :: keys →
  family_inv keys dicts → remove_pass ("id" :: keys) x dicts = Some dicts' →
  family_inv keys dicts' ∧ total_count x dicts' = 0%nat.
Proof.
  intros Hu Hr [Hal Huniq Hex] Hrem. split; [split|].
  - eapply (remove_pass_aligned ("id" :: keys)); eauto.
  - eapply (keys_unique_stable ("id" :: keys)); [set_solver| |done].
    eapply (remove_pass_key_stable ("id" :: keys)); eauto.
  - eapply (remove_pass_exclusive ("id" :: keys)); eauto.
  - eapply (remove_pass_count_0 ("id" :: keys)); eauto.
Qed.

(** A family after the removal pass and after the whole update. *)
Section upsert.
Variable keys : list string.
Variable kv : list (string * scalar).
Variable src : string → option scalar.
Variable extra : dict → dict.
Variable new_dict : Z → option dict.
Variable x : scalar.
Local Abbreviation keep := ("id" :: keys).
Hypothesis kv_keys : kv.*1 = keys.
Hypothesis keys_updated : "updated" ∉ keep.
Hypothesis keys_ref_ids : "ref_ids" ∉ keep.
Hypothesis extra_frame : ∀ d, frame keep d (extra d).
Hypothesis new_aligned : ∀ m d, new_dict m = Some d → aligned keep d.
Hypothesis new_ref_ids : ∀ m d, new_dict m = Some d → ref_ids_of d = [x].
Hypothesis new_key :
  ∀ m d, new_dict m = Some d → Forall (λ p, dget d p.1 = VScalar p.2) kv.

Lemma insert_pass_family_inv dicts dicts' :
  family_inv keys dicts → total_count x dicts = 0%nat →
  insert_pass keep kv src extra new_dict x dicts = Some dicts' →
  family_inv keys dicts'.
Proof.
  intros [Hal Huniq Hex] H0 Hins.
  assert (∀ p, p ∈ kv → p.1 ∈ keep) as Hkv.
  { intros p Hp. rewrite <- kv_keys. apply elem_of_cons. right.
    by apply list_elem_of_fmap_2. }
  split.
  - eapply (insert_pass_aligned keep); eauto.
  - rewrite <- kv_keys in Huniq |- *. eapply (insert_pass_keys_unique keep); eauto.
  - rewrite <- kv_keys in Huniq. eapply (insert_pass_exclusive keep); eauto.
Qed.

End upsert.

(** ** The regression pass stores results only *)

Section regression_stores.
Context `{N : Numerics}.

Lemma store_linear_fit_stores d1 xs ys slope intercept unique msg_one msg_two :
  only_stores ["plotdata"; "fitdata"; "error"] d1
    (store_linear_fit d1 xs ys slope intercept unique msg_one msg_two).
Proof.
  unfold store_linear_fit. repeat case_match; solve_only_stores_with only_stores_refl only_stores_insert.
Qed.

Lemma perform_ea_analysis_on_stores T_key d d' :
  perform_ea_analysis_on T_key d = Some d' →
  only_stores ["Ea"; "A_app"; "r_squared"; "plotdata"; "fitdata"; "error"] d d'.
Proof.
  unfold perform_ea_analysis_on. intros Hp.
  repeat (match type of Hp with
          | (?o ≫= _) = Some _ => destruct o eqn:?; simpl in Hp; [|done]
          end).
  simplify_eq. repeat case_match; [|solve_only_stores_with only_stores_refl only_stores_insert].
  eapply only_stores_trans; [|eapply only_stores_mono; [|apply store_linear_fit_stores]].
  - solve_only_stores_with only_stores_refl only_stores_insert.
  - set_solver.
Qed.

Lemma perform_ro_analysis_on_stores C_key out_key d d' :
  perform_ro_analysis_on C_key out_key d = Some d' →
  only_stores [out_key; "r_squared"; "plotdata"; "fitdata"; "error"] d d'.
Proof.
  unfold perform_ro_analysis_on. intros Hp.
  repeat (match type of Hp with
          | (?o ≫= _) = Some _ => destruct o eqn:?; simpl in Hp; [|done]
          end).
  simplify_eq. repeat case_match; [|solve_only_stores_with only_stores_refl only_stores_insert].
  eapply only_stores_trans; [|eapply only_stores_mono; [|apply store_linear_fit_stores]].
  - solve_only_stores_with only_stores_refl only_stores_insert.
  - set_solver.
Qed.

Lemma foldl_null_stores (outs W : list string) d :
  outs ⊆ W → only_stores W d (foldl (λ d k, <[k := VNone]> d) d outs).
Proof.
  revert d. induction outs as [|k outs IH]; intros d Hsub; simpl; [done|].
  eapply only_stores_trans; [|apply IH; set_solver].
  apply only_stores_insert; [done|set_solver|done].
Qed.

Lemma upd_fit_step_stores x_key outs perform W d d' :
  (∀ d d', perform d = Some d' → only_stores W d d') →
  upd_fit_step x_key outs perform d = Some d' →
  only_stores ("updated" :: outs ++ W) d d'.
Proof.
  intros Hperf. unfold upd_fit_step. intros Hp.
  destruct (is_True (dget d "updated")); [|by simplify_eq].
  destruct (as_list (dget d x_key)) as [xs|]; simpl in Hp; [|done].
  case_bool_decide.
  - destruct (perform d) as [d1|] eqn:Hd1; simpl in Hp; [|done]. simplify_eq.
    apply only_stores_insert; [|set_solver|done].
    eapply only_stores_mono; [|by apply Hperf]. set_solver.
  - simpl in Hp. simplify_eq.
    apply only_stores_insert; [|set_solver|done].
    apply foldl_null_stores. set_solver.
Qed.

Lemma perform_rate_analysis_stores d d' :
  G3.perform_rate_analysis d = Some d' →
  only_stores ["rate"; "r_squared"; "plotdata"; "fitdata"; "simuldata"; "error"] d d'.
Proof.
  unfold G3.perform_rate_analysis. intros Hp.
  repeat (match type of Hp with
          | (?o ≫= _) = Some _ => destruct o eqn:?; simpl in Hp; [|done]
          end).
  simplify_eq. repeat case_match; solve_only_stores_with only_stores_refl only_stores_insert.
Qed.

Lemma upd_rates_step_stores d d' :
  G3.upd_rates_step d = Some d' →
  only_stores ["rate"; "r_squared"; "plotdata"; "fitdata"; "simuldata"; "error"] d d'.
Proof.
  unfold G3.upd_rates_step. intros Hp.
  destruct (is_True (dget d "updated")); [|by simplify_eq].
  destruct (as_list (dget d "tau")) as [tau|]; simpl in Hp; [|done].
  case_bool_decide; [by apply perform_rate_analysis_stores|].
  simplify_eq. solve_only_stores_with only_stores_refl only_stores_insert.
Qed.

End regression_stores.

(** ** New groups *)

(** ** The membership functions keep the family invariant *)

Section membership_inv.
Context `{N : Numerics}.

Lemma upd_rate_dicts_family_inv proc_data rate_dicts deleted rate_dicts' :
  family_inv ["p"; "T_reactor"] rate_dicts →
  G3.upd_rate_dicts proc_data rate_dicts deleted = Some rate_dicts' →
  family_inv ["p"; "T_reactor"] rate_dicts'.
Proof.
  intros Hinv. unfold G3.upd_rate_dicts. intros Hupd.
  destruct (remove_pass _ _ rate_dicts) as [dicts1|] eqn:Hrem; simpl in Hupd; [|done].
  assert ("updated" ∉ ["id"; "p"; "T_reactor"]) as Hu by not_in_list.
  assert ("ref_ids" ∉ ["id"; "p"; "T_reactor"]) as Hr by not_in_list.
  destruct (remove_pass_family_inv ["p"; "T_reactor"] _ _ _ Hu Hr Hinv Hrem) as [Hinv1 H0].
  destruct deleted; [by simplify_eq|].
  destruct (is_False _); [by simplify_eq|].
  eapply (insert_pass_family_inv ["p"; "T_reactor"]); [..|exact Hupd]; try done.
  - intros m d [= <-]. new_group_aligned (pget proc_data "id").
  - intros m d [= <-]. new_group_ref_ids.
  - intros m d [= <-]. new_group_keys.
Qed.

Lemma G1_upd_dicts_by_family_inv keys cols proc_data dicts deleted dicts' :
  "updated" ∉ "id" :: keys → "ref_ids" ∉ "id" :: keys →
  (∀ m x, aligned ("id" :: keys)
            (new_group m x (map (λ k, (k, pget proc_data k)) keys)
               (map (λ k, (k, pget proc_data k)) cols))) →
  (∀ m x, ref_ids_of (new_group m x (map (λ k, (k, pget proc_data k)) keys)
                        (map (λ k, (k, pget proc_data k)) cols)) = [x]) →
  (∀ m x, Forall (λ p, dget (new_group m x (map (λ k, (k, pget proc_data k)) keys)
                               (map (λ k, (k, pget proc_data k)) cols)) p.1
                       = VScalar p.2)
            (map (λ k, (k, pget proc_data k)) keys)) →
  family_inv keys dicts →
  G1.upd_dicts_by keys cols proc_data dicts deleted = Some dicts' →
  family_inv keys dicts'.
Proof.
  intros Hu Hr Hal Hids Hkeys Hinv. unfold G1.upd_dicts_by. intros Hupd.
  destruct (remove_pass _ _ dicts) as [dicts1|] eqn:Hrem; simpl in Hupd; [|done].
  destruct (remove_pass_family_inv keys _ _ _ Hu Hr Hinv Hrem) as [Hinv1 H0].
  destruct deleted; [by simplify_eq|].
  destruct (is_False _); [by simplify_eq|].
  destruct (negb _); [|by simplify_eq].
  eapply (insert_pass_family_inv keys); [..|exact Hupd]; try done.
  - rewrite <- list_fmap_compose. by rewrite list_fmap_id.
  - intros m d [= <-]. apply Hal.
  - intros m d [= <-]. apply Hids.
  - intros m d [= <-]. apply Hkeys.
Qed.

Lemma G1_upd_ea_dicts_family_inv proc_data dicts deleted dicts' :
  family_inv ["C_base"; "C_ester"] dicts →
  G1.upd_ea_dicts proc_data dicts deleted = Some dicts' →
  family_inv ["C_base"; "C_ester"] dicts'.
Proof.
  apply G1_upd_dicts_by_family_inv; [not_in_list..| | |]; intros m x.
  - new_group_aligned x.
  - new_group_ref_ids.
  - new_group_keys.
Qed.

Lemma G1_upd_ro_base_dicts_family_inv proc_data dicts deleted dicts' :
  family_inv ["T_reaction"; "C_ester"] dicts →
  G1.upd_ro_base_dicts proc_data dicts deleted = Some dicts' →
  family_inv ["T_reaction"; "C_ester"] dicts'.
Proof.
  apply G1_upd_dicts_by_family_inv; [not_in_list..| | |]; intros m x.
  - new_group_aligned x.
  - new_group_ref_ids.
  - new_group_keys.
Qed.

Lemma G1_upd_ro_ester_dicts_family_inv proc_data dicts deleted dicts' :
  family_inv ["T_reaction"; "C_base"] dicts →
  G1.upd_ro_ester_dicts proc_data dicts deleted = Some dicts' →
  family_inv ["T_reaction"; "C_base"] dicts'.
Proof.
  apply G1_upd_dicts_by_family_inv; [not_in_list..| | |]; intros m x.
  - new_group_aligned x.
  - new_group_ref_ids.
  - new_group_keys.
Qed.

End membership_inv.

Section downstream_inv.
Context `{N : Numerics}.

Lemma upd_from_rate_p_family_inv r dicts dicts' :
  family_inv ["p"] dicts →
  G3.upd_from_rate "p" "T_reactor" r dicts = Some dicts' →
  family_inv ["p"] dicts'.
Proof.
  intros Hinv. unfold G3.upd_from_rate. intros Hupd.
  destruct (as_scalar (dget r "id")) as [ref_id|]; simpl in Hupd; [|done].
  destruct (as_scalar (dget r "p")) as [key_value|]; simpl in Hupd; [|done].
  destruct (remove_pass _ _ dicts) as [dicts1|] eqn:Hrem; simpl in Hupd; [|done].
  assert ("updated" ∉ ["id"; "p"]) as Hu by not_in_list.
  assert ("ref_ids" ∉ ["id"; "p"]) as Hr by not_in_list.
  destruct (remove_pass_family_inv ["p"] _ _ _ Hu Hr Hinv Hrem) as [Hinv1 H0].
  destruct (G3.rate_usable r); [|by simplify_eq].
  destruct (as_list (dget r "is_simulated")) as [is_simulated|]; simpl in Hupd; [|done].
  assert (∀ (b : bool) d, frame ["id"; "p"] d (<["is_simulated" := VScalar (SBool b)]> d))
    as Hextra.
  { intros b d. apply frame_insert; [done|not_in_list|done]. }
  eapply (insert_pass_family_inv ["p"]); [..|exact Hupd]; try done.
  - intros m d Hd.
    destruct (as_scalar (dget r "T_reactor")) as [c|]; simpl in Hd; [|done].
    destruct (as_scalar (dget r "rate")) as [rate|]; simpl in Hd; [|done].
    simplify_eq. apply Hextra. new_group_aligned ref_id.
  - intros m d Hd.
    destruct (as_scalar (dget r "T_reactor")) as [c|]; simpl in Hd; [|done].
    destruct (as_scalar (dget r "rate")) as [rate|]; simpl in Hd; [|done].
    simplify_eq. rewrite (frame_ref_ids_of _ _ _ (Hextra _ _)). new_group_ref_ids.
  - intros m d Hd.
    destruct (as_scalar (dget r "T_reactor")) as [c|]; simpl in Hd; [|done].
    destruct (as_scalar (dget r "rate")) as [rate|]; simpl in Hd; [|done].
    simplify_eq. constructor; [|done]. simpl. unfold dget.
    rewrite lookup_insert_ne by done. by new_group_lookup.
Qed.

Lemma upd_from_rate_T_family_inv r dicts dicts' :
  family_inv ["T_reactor"] dicts →
  G3.upd_from_rate "T_reactor" "p" r dicts = Some dicts' →
  family_inv ["T_reactor"] dicts'.
Proof.
  intros Hinv. unfold G3.upd_from_rate. intros Hupd.
  destruct (as_scalar (dget r "id")) as [ref_id|]; simpl in Hupd; [|done].
  destruct (as_scalar (dget r "T_reactor")) as [key_value|]; simpl in Hupd; [|done].
  destruct (remove_pass _ _ dicts) as [dicts1|] eqn:Hrem; simpl in Hupd; [|done].
  assert ("updated" ∉ ["id"; "T_reactor"]) as Hu by not_in_list.
  assert ("ref_ids" ∉ ["id"; "T_reactor"]) as Hr by not_in_list.
  destruct (remove_pass_family_inv ["T_reactor"] _ _ _ Hu Hr Hinv Hrem) as [Hinv1 H0].
  destruct (G3.rate_usable r); [|by simplify_eq].
  destruct (as_list (dget r "is_simulated")) as [is_simulated|]; simpl in Hupd; [|done].
  assert (∀ (b : bool) d,
            frame ["id"; "T_reactor"] d (<["is_simulated" := VScalar (SBool b)]> d))
    as Hextra.
  { intros b d. apply frame_insert; [done|not_in_list|done]. }
  eapply (insert_pass_family_inv ["T_reactor"]); [..|exact Hupd]; try done.
  - intros m d Hd.
    destruct (as_scalar (dget r "p")) as [c|]; simpl in Hd; [|done].
    destruct (as_scalar (dget r "rate")) as [rate|]; simpl in Hd; [|done].
    simplify_eq. apply Hextra. new_group_aligned ref_id.
  - intros m d Hd.
    destruct (as_scalar (dget r "p")) as [c|]; simpl in Hd; [|done].
    destruct (as_scalar (dget r "rate")) as [rate|]; simpl in Hd; [|done].
    simplify_eq. rewrite (frame_ref_ids_of _ _ _ (Hextra _ _)). new_group_ref_ids.
  - intros m d Hd.
    destruct (as_scalar (dget r "p")) as [c|]; simpl in Hd; [|done].
    destruct (as_scalar (dget r "rate")) as [rate|]; simpl in Hd; [|done].
    simplify_eq. constructor; [|done]. simpl. unfold dget.
    rewrite lookup_insert_ne by done. by new_group_lookup.
Qed.

Lemma foldlM_inv {A B} (f : B → A → option B) (P : B → Prop) l b b' :
  (∀ b a b', P b → f b a = Some b' → P b') →
  P b → foldlM f b l = Some b' → P b'.
Proof.
  intros Hf. revert b. induction l as [|a l IH]; intros b Hb; simpl.
  - by intros [= <-].
  - destruct (f b a) as [b1|] eqn:Hb1; simpl; [|done]. eauto.
Qed.

Lemma upd_ea_dicts_family_inv rate_dicts ea_dicts ea_dicts' :
  family_inv ["p"] ea_dicts →
  G3.upd_ea_dicts rate_dicts ea_dicts = Some ea_dicts' →
  family_inv ["p"] ea_dicts'.
Proof.
  intros Hinv. apply foldlM_inv; [|done].
  intros ea r ea' Hea. case_match; [|by intros [= <-]].
  by apply upd_from_rate_p_family_inv.
Qed.

Lemma upd_ro_dicts_family_inv rate_dicts ro_dicts rate_dicts' ro_dicts' :
  family_inv ["p"; "T_reactor"] rate_dicts →
  family_inv ["T_reactor"] ro_dicts →
  G3.upd_ro_dicts rate_dicts ro_dicts = Some (rate_dicts', ro_dicts') →
  family_inv ["p"; "T_reactor"] rate_dicts' ∧ family_inv ["T_reactor"] ro_dicts'.
Proof.
  intros Hrate Hro. unfold G3.upd_ro_dicts. intros Hupd.
  destruct (foldlM _ ro_dicts rate_dicts) as [ro1|] eqn:Hfold; simpl in Hupd; [|done].
  simplify_eq. split.
  - eapply family_inv_frame; [|done].
    clear. induction rate_dicts as [|r l IH]; simpl; constructor; [|done].
    case_match; [|done]. apply frame_insert; [done|not_in_list|done].
  - revert Hfold. apply foldlM_inv; [|done].
    intros ro r ro' Hr. case_match; [|by intros [= <-]].
    by apply upd_from_rate_T_family_inv.
Qed.

Lemma mapM_stores_family_inv keys W (f : dict → option dict) dicts dicts' :
  "ref_ids" ∉ W → (∀ k, k ∈ W → k ∉ "id" :: keys) →
  (∀ d d', f d = Some d' → only_stores W d d') →
  family_inv keys dicts → mapM f dicts = Some dicts' → family_inv keys dicts'.
Proof.
  intros Hr Hk Hf Hinv Hm. eapply family_inv_frame; [|done].
  eapply mapM_Forall2; [|done]. intros d d' Hd.
  eapply only_stores_frame; eauto.
Qed.

Lemma upd_rates_family_inv dicts dicts' :
  family_inv ["p"; "T_reactor"] dicts → G3.upd_rates dicts = Some dicts' →
  family_inv ["p"; "T_reactor"] dicts'.
Proof.
  apply (mapM_stores_family_inv _ ["rate"; "r_squared"; "plotdata"; "fitdata"; "simuldata"; "error"]);
    [simpl; not_in_list|simpl; disjoint_lists|].
  apply upd_rates_step_stores.
Qed.

Lemma G3_upd_ea_family_inv dicts dicts' :
  family_inv ["p"] dicts → G3.upd_ea dicts = Some dicts' → family_inv ["p"] dicts'.
Proof.
  apply (mapM_stores_family_inv _ ("updated" :: ["Ea"; "A_app"] ++ ["Ea"; "A_app"; "r_squared"; "plotdata"; "fitdata"; "error"]));
    [simpl; not_in_list|simpl; disjoint_lists|].
  intros d d'. apply upd_fit_step_stores, perform_ea_analysis_on_stores.
Qed.

Lemma G3_upd_ro_family_inv dicts dicts' :
  family_inv ["T_reactor"] dicts → G3.upd_ro dicts = Some dicts' →
  family_inv ["T_reactor"] dicts'.
Proof.
  apply (mapM_stores_family_inv _ ("updated" :: ["r_order"] ++ ["r_order"; "r_squared"; "plotdata"; "fitdata"; "error"]));
    [simpl; not_in_list|simpl; disjoint_lists|].
  intros d d'. apply upd_fit_step_stores, perform_ro_analysis_on_stores.
Qed.

Lemma G1_upd_ea_family_inv dicts dicts' :
  family_inv ["C_base"; "C_ester"] dicts → G1.upd_ea dicts = Some dicts' →
  family_inv ["C_base"; "C_ester"] dicts'.
Proof.
  apply (mapM_stores_family_inv _ ("updated" :: ["Ea"; "A_app"] ++ ["Ea"; "A_app"; "r_squared"; "plotdata"; "fitdata"; "error"]));
    [simpl; not_in_list|simpl; disjoint_lists|].
  intros d d'. apply upd_fit_step_stores, perform_ea_analysis_on_stores.
Qed.

Lemma G1_upd_ro_base_family_inv dicts dicts' :
  family_inv ["T_reaction"; "C_ester"] dicts → G1.upd_ro_base dicts = Some dicts' →
  family_inv ["T_reaction"; "C_ester"] dicts'.
Proof.
  apply (mapM_stores_family_inv _ ("updated" :: ["ro_base"] ++ ["ro_base"; "r_squared"; "plotdata"; "fitdata"; "error"]));
    [simpl; not_in_list|simpl; disjoint_lists|].
  intros d d'. apply upd_fit_step_stores, perform_ro_analysis_on_stores.
Qed.

Lemma G1_upd_ro_ester_family_inv dicts dicts' :
  family_inv ["T_reaction"; "C_base"] dicts → G1.upd_ro_ester dicts = Some dicts' →
  family_inv ["T_reaction"; "C_base"] dicts'.
Proof.
  apply (mapM_stores_family_inv _ ("updated" :: ["ro_ester"] ++ ["ro_ester"; "r_squared"; "plotdata"; "fitdata"; "error"]));
    [simpl; not_in_list|simpl; disjoint_lists|].
  intros d d'. apply upd_fit_step_stores, perform_ro_analysis_on_stores.
Qed.

End downstream_inv.

Section rate_analysis.
Context `{N : Numerics}.

Lemma split_simulated_is_Some flags tau conv i :
  (i + length flags ≤ length tau)%nat → (i + length flags ≤ length conv)%nat →
  is_Some (G3.split_simulated flags tau conv i).
Proof.
  revert i. induction flags as [|f flags IH]; intros i Ht Hc; simpl in *; [eauto|].
  destruct (IH (S i)) as [[s e] Hse]; [lia..|].
  destruct (lookup_lt_is_Some_2 tau i) as [t Hti]; [lia|].
  destruct (lookup_lt_is_Some_2 conv i) as [c Hci]; [lia|].
  rewrite Hti, Hci, Hse. simpl. repeat case_match; eauto.
Qed.

Lemma py_min_is_Some l : l ≠ [] → is_Some (py_min l).
Proof. destruct l; [done|]. simpl. eauto. Qed.

Lemma py_max_is_Some l : l ≠ [] → is_Some (py_max l).
Proof. destruct l; [done|]. simpl. eauto. Qed.

(** What [perform_rate_analysis] stores when the fit succeeds. *)
Lemma perform_rate_analysis_fit d tau conv flags ms cs rate r2 :
  d !! "tau" = Some (VList tau) → d !! "conversion" = Some (VList conv) →
  d !! "is_simulated" = Some (VList flags) →
  mapM Q_magnitude tau = Some ms → mapM Q_magnitude conv = Some cs →
  length flags = length tau → length conv = length tau →
  G3.calc_rate (ms ++ [0%Q]) (cs ++ [0%Q]) = Some (rate, r2) →
  ufloat_truthy rate = true →
  ∃ d', G3.perform_rate_analysis d = Some d'
        ∧ d' !! "rate" = Some (VScalar (SStr (format_quantity rate "mol/(kg*s)")))
        ∧ d' !! "error"
          = tier_error G3.rate_msg_one G3.rate_msg_two (len_float_set ms) (d !! "error").
Proof.
  intros Htau Hconv Hflags Hms Hcs Hlf Hlc Hfit Htruthy.
  unfold G3.perform_rate_analysis, dget. rewrite Htau, Hconv, Hflags. simpl.
  rewrite Hms, Hcs. simpl. rewrite Hfit, Htruthy.
  pose proof (length_mapM _ _ _ Hms) as Hlms.
  pose proof (length_mapM _ _ _ Hcs) as Hlcs.
  destruct (py_min_is_Some (ms ++ [0%Q])) as [lo ->]; [by destruct ms|].
  destruct (py_max_is_Some (ms ++ [0%Q])) as [hi ->]; [by destruct ms|].
  destruct (split_simulated_is_Some (flags ++ [SBool false]) (ms ++ [0%Q]) (cs ++ [0%Q]) 0)
    as [[simul exp] ->]; [rewrite !length_app; simpl; lia..|].
  eexists. split; [reflexivity|]. unfold tier_error.
  repeat case_bool_decide; simplify_map_eq; done.
Qed.

End rate_analysis.

Section rate_touch.
Context `{N : Numerics}.

Local Abbreviation keep := ["id"; "p"; "T_reactor"].

Lemma popped_dirtied pos d :
  list_keys_in rate_cols d →
  dirtied (<["updated" := VTrue]> (map_imap (pop_entry keep pos) d)).
Proof.
  intros Hl. unfold dirtied, dget. rewrite !(lookup_popped keep). simpl.
  split; [done|].
  split.
  - destruct (d !! "rate") as [[| l | |]|] eqn:E; try done.
    exfalso. specialize (Hl _ _ E). revert Hl. not_in_list.
  - destruct (d !! "error") as [[| l | |]|] eqn:E; try done.
    exfalso. specialize (Hl _ _ E). revert Hl. not_in_list.
Qed.

Lemma popped_list_keys cols pos d :
  list_keys_in cols d →
  list_keys_in cols (<["updated" := VTrue]> (map_imap (pop_entry keep pos) d)).
Proof.
  intros Hl k l. rewrite (lookup_popped keep).
  case_decide; [done|]. case_decide; [apply Hl|].
  destruct (d !! k) as [[| l' | |]|] eqn:E; try done. intros _. by eapply Hl.
Qed.

Lemma appended_dirtied src d :
  list_keys_in rate_cols d →
  dirtied (<["updated" := VTrue]> (map_imap (append_entry keep src) d)).
Proof.
  intros Hl. unfold dirtied, dget. rewrite !(lookup_appended keep). simpl.
  split; [done|].
  split.
  - destruct (d !! "rate") as [[| l | |]|] eqn:E; try done.
    exfalso. specialize (Hl _ _ E). revert Hl. not_in_list.
  - destruct (d !! "error") as [[| l | |]|] eqn:E; try done.
    exfalso. specialize (Hl _ _ E). revert Hl. not_in_list.
Qed.

Lemma appended_list_keys cols src d :
  list_keys_in cols d →
  list_keys_in cols (<["updated" := VTrue]> (map_imap (append_entry keep src) d)).
Proof.
  intros Hl k l. rewrite (lookup_appended keep).
  case_decide; [done|]. case_decide; [apply Hl|].
  destruct (d !! k) as [[| l' | |]|] eqn:E; try done. intros _. by eapply Hl.
Qed.

Lemma list_keys_in_insert_list cols d k l :
  k ∈ cols → list_keys_in cols d → list_keys_in cols (<[k := VList l]> d).
Proof.
  intros Hk Hl k' l'. destruct (decide (k = k')) as [<-|Hne].
  - by rewrite lookup_insert_eq.
  - rewrite lookup_insert_ne by done. apply Hl.
Qed.

Lemma remove_ref_touch x d d' :
  list_keys_in rate_cols d → remove_ref keep x d = Some d' →
  touched_or_same d d' ∧ list_keys_in rate_cols d'.
Proof.
  intros Hl Hrem.
  assert (d' !! "id" = d !! "id") as Hid.
  { eapply (remove_ref_keep keep); [not_in_list|done|set_solver]. }
  apply remove_ref_inv in Hrem as (ids & Hids & [[_ ->]|(pos & _ & _ & ->)]).
  - split; [|done]. split; [done|by left].
  - split; [|by apply popped_list_keys]. split; [done|right].
    by apply popped_dirtied.
Qed.

Lemma append_ref_touch src x d d' :
  list_keys_in rate_cols d → append_ref keep src id x d = Some d' →
  touched_or_same d d' ∧ list_keys_in rate_cols d'.
Proof.
  intros Hl Happ.
  assert (d' !! "id" = d !! "id") as Hid.
  { eapply (append_ref_keep keep); [not_in_list|not_in_list|done|done|set_solver]. }
  apply append_ref_inv in Happ as (ids & Hids & ->). simpl.
  assert (list_keys_in rate_cols (<["ref_ids" := VList (ids ++ [x])]> d)) as Hl1.
  { apply list_keys_in_insert_list; [set_solver|done]. }
  split; [|by apply appended_list_keys]. split; [done|right].
  by apply appended_dirtied.
Qed.

Lemma touched_or_same_trans d0 d1 d2 :
  touched_or_same d0 d1 → touched_or_same d1 d2 → touched_or_same d0 d2.
Proof.
  intros [Hid1 H1] [Hid2 H2]. split; [congruence|].
  destruct H2 as [->|]; [done|by right].
Qed.

Lemma upd_rate_dicts_touch proc_data dicts deleted dicts' :
  Forall (list_keys_in rate_cols) dicts →
  G3.upd_rate_dicts proc_data dicts deleted = Some dicts' →
  ∃ olds news, dicts' = olds ++ news
    ∧ Forall2 touched_or_same dicts olds
    ∧ Forall dirtied news
    ∧ Forall (list_keys_in rate_cols) dicts'.
Proof.
  intros Hl. unfold G3.upd_rate_dicts. intros Hupd.
  destruct (remove_pass keep _ dicts) as [dicts1|] eqn:Hrem; simpl in Hupd; [|done].
  assert (Forall2 touched_or_same dicts dicts1 ∧ Forall (list_keys_in rate_cols) dicts1)
    as [Ht1 Hl1].
  { apply mapM_Some in Hrem. clear Hupd.
    induction Hrem as [|d d1 l l1 Hd _ IH]; [done|].
    inversion_clear Hl as [|? ? Hd0 Hl0].
    destruct (remove_ref_touch _ _ _ Hd0 Hd). destruct (IH Hl0).
    split; by constructor. }
  assert (∃ olds news, dicts1 = olds ++ news ∧ Forall2 touched_or_same dicts olds
            ∧ Forall dirtied news ∧ Forall (list_keys_in rate_cols) dicts1) as Hskip.
  { exists dicts1, []. rewrite app_nil_r. done. }
  destruct deleted; [by simplify_eq|].
  destruct (is_False _); [by simplify_eq|]. clear Hskip.
  eapply insert_pass_inv in Hupd
    as (dicts2 & Happ & [[_ ->]|(_ & -> & ids & dn & _ & Hnew & ->)]).
  - assert (Forall2 touched_or_same dicts1 dicts2 ∧ Forall (list_keys_in rate_cols) dicts2)
      as [Ht2 Hl2].
    { clear Hrem Ht1. induction Happ as [|d d2 l l2 Hd _ IH]; [done|].
      inversion_clear Hl1 as [|? ? Hd1 Hl1'].
      destruct (IH Hl1').
      unfold appended in Hd. destruct (key_match _ d).
      + destruct (append_ref_touch _ _ _ _ Hd1 Hd). split; by constructor.
      + subst d2. split; constructor; try done. split; [done|by left]. }
    exists dicts2, []. rewrite app_nil_r. split; [done|]. split; [|done].
    clear -Ht1 Ht2. revert dicts2 Ht2.
    induction Ht1 as [|d d1 l l1 Hd _ IH]; intros dicts2 Ht2; inversion_clear Ht2;
      constructor; eauto using touched_or_same_trans.
  - simplify_eq. exists dicts1, [new_group (max_id ids) (pget proc_data "id")
               [("p", pget proc_data "p"); ("T_reactor", pget proc_data "T_reactor")]
               [("tau", pget proc_data "tau");
                ("conversion", pget proc_data "conversion");
                ("is_active", pget proc_data "is_active");
                ("is_simulated", pget proc_data "is_simulated")]].
    split; [done|]. split; [done|]. split.
    + constructor; [|done]. unfold dirtied, dget, new_group. simpl.
      by simplify_map_eq.
    + apply Forall_app. split; [done|]. constructor; [|done].
      intros k l. unfold new_group. simpl.
      repeat (rewrite lookup_insert; case_decide;
              [subst k; intros ?; simplify_eq; try set_solver|]).
      by rewrite lookup_empty.
Qed.

End rate_touch.

Section rate_fit.
Context `{N : Numerics}.

Lemma len_float_set_pos l : l ≠ [] → (1 ≤ len_float_set l)%nat.
Proof.
  unfold len_float_set. induction l as [|x l IH]; [done|]. intros _. simpl.
  destruct (existsb (Qeq_bool x) l) eqn:E; simpl; [|lia].
  apply IH. by destruct l.
Qed.

Lemma upd_rates_step_clean d :
  is_True (dget d "updated") = false → G3.upd_rates_step d = Some d.
Proof. unfold G3.upd_rates_step. by intros ->. Qed.

Lemma rate_usable_insert_other d k v :
  k ≠ "rate" → k ≠ "error" → G3.rate_usable (<[k := v]> d) = G3.rate_usable d.
Proof.
  intros. unfold G3.rate_usable, dget. by rewrite !lookup_insert_ne.
Qed.

Lemma upd_rates_step_dirty d d' :
  dirtied d → aligned ["id"; "p"; "T_reactor"] d →
  G3.upd_rates_step d = Some d' →
  G3.rate_usable d' = true → well_fitted d'.
Proof.
  intros (Hupd & Hrate & Herr) (ids & Hids & Hal) Hstep Husable.
  assert (G3.rate_usable d = false) as Hno.
  { unfold G3.rate_usable. by rewrite Hrate. }
  unfold G3.upd_rates_step in Hstep. rewrite Hupd in Hstep. simpl in Hstep.
  destruct (as_list (dget d "tau")) as [tau|] eqn:Htau; simpl in Hstep; [|done].
  case_bool_decide as Hne.
  2:{ simplify_eq. unfold G3.rate_usable, dget in Husable.
      by rewrite lookup_insert_eq in Husable. }
  pose proof (perform_rate_analysis_stores d d' Hstep) as [Hsame _].
  pose proof Hstep as Hstep0.
  unfold G3.perform_rate_analysis in Hstep. rewrite Htau in Hstep. simpl in Hstep.
  destruct (as_list (dget d "conversion")) as [conv|] eqn:Hconv; simpl in Hstep; [|done].
  destruct (as_list (dget d "is_simulated")) as [flags|] eqn:Hflags; simpl in Hstep; [|done].
  destruct (mapM Q_magnitude tau) as [ms|] eqn:Hms; simpl in Hstep; [|done].
  destruct (mapM Q_magnitude conv) as [cs|] eqn:Hcs; simpl in Hstep; [|done].
  apply as_list_dget in Htau, Hconv, Hflags.
  destruct (Hal _ _ Htau) as [_ Hlt], (Hal _ _ Hconv) as [_ Hlc],
    (Hal _ _ Hflags) as [_ Hlf].
  destruct (G3.calc_rate (ms ++ [0%Q]) (cs ++ [0%Q])) as [[rate r2]|] eqn:Hfit.
  2:{ simplify_eq. congruence. }
  destruct (ufloat_truthy rate) eqn:Htruthy.
  2:{ simplify_eq. unfold G3.rate_usable, dget in Husable.
      rewrite lookup_insert_ne, lookup_insert_eq in Husable; done. }
  clear Hstep.
  destruct (perform_rate_analysis_fit d tau conv flags ms cs rate r2)
    as (d'' & Hstep' & _ & Herr'); try done; try lia.
  rewrite Hstep0 in Hstep'. simplify_eq.
  assert (tau ≠ []) as Htne.
  { intros ->. simpl in Hne. unfold len_set in Hne. simpl in Hne. lia. }
  assert (ms ≠ []) as Hmne.
  { intros ->. apply length_mapM in Hms. by destruct tau. }
  pose proof (len_float_set_pos ms Hmne) as Hpos.
  exists (len_float_set ms). split.
  - unfold distinct_taus, dget. rewrite Hsame by not_in_list. rewrite Htau. simpl.
    by rewrite Hms.
  - unfold G3.rate_usable, dget in Husable. rewrite Herr' in Husable.
    unfold tier_error in Husable. repeat case_bool_decide; simpl in *; try done; try lia.
Qed.

End rate_fit.

Section downstream_members.
Context `{N : Numerics}.

Lemma upd_from_rate_members key col r dicts dicts' ρ :
  (key, col) ∈ [("p", "T_reactor"); ("T_reactor", "p")] →
  family_inv [key] dicts →
  G3.upd_from_rate key col r dicts = Some dicts' →
  (0 < total_count ρ dicts')%nat →
  (has_id ρ r ∧ G3.rate_usable r = true)
  ∨ ((0 < total_count ρ dicts)%nat ∧ ¬ has_id ρ r).
Proof.
  intros Hkc Hinv. unfold G3.upd_from_rate, has_id. intros Hupd Hpos.
  destruct (dget r "id") as [ref_id| | |] eqn:Hid; simpl in Hupd; try done.
  destruct (as_scalar (dget r key)) as [key_value|]; simpl in Hupd; [|done].
  destruct (remove_pass _ _ dicts) as [dicts1|] eqn:Hrem; simpl in Hupd; [|done].
  assert (("updated" ∉ ["id"; key]) ∧ ("ref_ids" ∉ ["id"; key])) as [Hu Hr].
  { apply elem_of_cons in Hkc as [[= -> ->]|Hkc];
      [|apply elem_of_cons in Hkc as [[= -> ->]|Hkc]; [|by apply elem_of_nil in Hkc]];
      split; not_in_list. }
  destruct (remove_pass_family_inv [key] _ _ _ Hu Hr Hinv Hrem) as [Hinv1 H0].
  pose proof (remove_pass_count_le ["id"; key] Hr _ _ _ ρ Hrem) as Hle.
  assert (py_eq ρ ref_id = true → total_count ρ dicts1 = 0%nat) as Hz.
  { intros Heq. by rewrite (total_count_compat ref_id ρ). }
  simpl. destruct (py_eq ρ ref_id) eqn:Heq.
  - destruct (G3.rate_usable r); [by left|]. simplify_eq.
    rewrite Hz in Hpos by done. lia.
  - right. split; [|done].
    destruct (G3.rate_usable r); [|simplify_eq; lia].
    destruct (as_list (dget r "is_simulated")) as [flags|]; simpl in Hupd; [|done].
    enough (total_count ρ dicts' = total_count ρ dicts1) by lia.
    assert (∀ (b : bool) d, frame ["id"; key] d (<["is_simulated" := VScalar (SBool b)]> d))
      as Hextra.
    { intros b d. apply frame_insert; [done| |done].
      apply elem_of_cons in Hkc as [[= -> ->]|Hkc];
        [|apply elem_of_cons in Hkc as [[= -> ->]|Hkc]; [|by apply elem_of_nil in Hkc]];
        not_in_list. }
    assert (total_count ρ dicts'
            = (total_count ρ dicts1 + (if py_eq ρ ref_id then 1 else 0))%nat) as Hc.
    { eapply (insert_pass_count ["id"; key] [(key, key_value)]); [..|exact Hupd];
        try exact Hu; try exact Hr; try apply Hextra; try apply Hinv1.
      intros m d Hd.
      destruct (as_scalar (dget r col)) as [c|]; simpl in Hd; [|done].
      destruct (as_scalar (dget r "rate")) as [rate|]; simpl in Hd; [|done].
      simplify_eq. rewrite (frame_ref_ids_of _ _ _ (Hextra _ _)).
      apply elem_of_cons in Hkc as [[= -> ->]|Hkc];
        [|apply elem_of_cons in Hkc as [[= -> ->]|Hkc]; [|by apply elem_of_nil in Hkc]];
        new_group_ref_ids. }
    rewrite Hc, Heq. lia.
Qed.

End downstream_members.

Section feed.
Context `{N : Numerics}.

Lemma upd_from_rate_family_inv key col r dicts dicts' :
  (key, col) ∈ [("p", "T_reactor"); ("T_reactor", "p")] →
  family_inv [key] dicts →
  G3.upd_from_rate key col r dicts = Some dicts' →
  family_inv [key] dicts'.
Proof.
  intros Hkc.
  apply elem_of_cons in Hkc as [[= -> ->]|Hkc];
    [|apply elem_of_cons in Hkc as [[= -> ->]|Hkc]; [|by apply elem_of_nil in Hkc]].
  - apply upd_from_rate_p_family_inv.
  - apply upd_from_rate_T_family_inv.
Qed.

Lemma feed_loop_members key col rs dicts dicts' :
  (key, col) ∈ [("p", "T_reactor"); ("T_reactor", "p")] →
  family_inv [key] dicts →
  feed_loop key col rs dicts = Some dicts' →
  family_inv [key] dicts'
  ∧ ∀ ρ, (0 < total_count ρ dicts')%nat →
      (∃ r, r ∈ rs ∧ is_True (dget r "updated") = true ∧ has_id ρ r
            ∧ G3.rate_usable r = true)
      ∨ ((0 < total_count ρ dicts)%nat
         ∧ ∀ r, r ∈ rs → is_True (dget r "updated") = true → ¬ has_id ρ r).
Proof.
  intros Hkc. unfold feed_loop. revert dicts.
  induction rs as [|r rs IH]; intros dicts Hinv; simpl.
  - intros [= <-]. split; [done|]. intros ρ Hpos. right. split; [done|].
    intros r Hr. by apply elem_of_nil in Hr.
  - destruct (is_True (dget r "updated")) eqn:Hdirty.
    + destruct (G3.upd_from_rate key col r dicts) as [dicts1|] eqn:Hstep; simpl; [|done].
      intros Hrest.
      pose proof (upd_from_rate_family_inv _ _ _ _ _ Hkc Hinv Hstep) as Hinv1.
      destruct (IH dicts1 Hinv1 Hrest) as [Hinv' Hmem]. split; [done|].
      intros ρ Hpos. destruct (Hmem ρ Hpos) as [(r' & Hr' & ?)|[Hpos1 Hno]].
      { left. exists r'. split; [set_solver|done]. }
      destruct (upd_from_rate_members _ _ _ _ _ ρ Hkc Hinv Hstep Hpos1)
        as [[Hid Hus]|[Hpos0 Hnid]].
      { left. exists r. split; [set_solver|done]. }
      right. split; [done|]. intros r' Hr' Hd'.
      apply elem_of_cons in Hr' as [->|Hr']; [done|by apply Hno].
    + simpl. intros Hrest. destruct (IH dicts Hinv Hrest) as [Hinv' Hmem].
      split; [done|]. intros ρ Hpos.
      destruct (Hmem ρ Hpos) as [(r' & Hr' & ?)|[Hpos1 Hno]].
      { left. exists r'. split; [set_solver|done]. }
      right. split; [done|]. intros r' Hr' Hd'.
      apply elem_of_cons in Hr' as [->|Hr']; [congruence|by apply Hno].
Qed.

End feed.

Section pipeline.
Context `{N : Numerics}.

Lemma dirtied_dirty d : dirtied d → is_True (dget d "updated") = true.
Proof. by intros (-> & _). Qed.

Lemma upd_rates_step_rel d1 d2 :
  aligned ["id"; "p"; "T_reactor"] d1 →
  G3.upd_rates_step d1 = Some d2 →
  d2 !! "id" = d1 !! "id"
  ∧ (is_True (dget d1 "updated") = false → d2 = d1)
  ∧ (dirtied d1 → refitted d2)
  ∧ (list_keys_in rate_cols d1 → list_keys_in rate_cols d2).
Proof.
  intros Hal Hstep. pose proof (upd_rates_step_stores _ _ Hstep) as [Hsame Hlists].
  split; [by apply Hsame; not_in_list|]. split; [|split].
  - intros Hclean. rewrite upd_rates_step_clean in Hstep by done. congruence.
  - intros Hd. split.
    + unfold dget. rewrite Hsame by not_in_list. by apply dirtied_dirty.
    + by eapply upd_rates_step_dirty.
  - intros Hl k l Hk. by eapply Hl, Hlists.
Qed.

Lemma rates_after_fit proc_data deleted rate0 rate1 rate2 :
  family_inv ["p"; "T_reactor"] rate0 →
  Forall (list_keys_in rate_cols) rate0 →
  Forall (λ r, is_True (dget r "updated") = false) rate0 →
  G3.upd_rate_dicts proc_data rate0 deleted = Some rate1 →
  G3.upd_rates rate1 = Some rate2 →
  ∃ olds news, rate2 = olds ++ news
    ∧ Forall2 rate_step rate0 olds
    ∧ Forall refitted news
    ∧ Forall (list_keys_in rate_cols) rate2.
Proof.
  intros Hinv Hcols Hclean Hupd Hfit.
  pose proof (upd_rate_dicts_family_inv _ _ _ _ Hinv Hupd) as [Hal1 _ _].
  destruct (upd_rate_dicts_touch _ _ _ _ Hcols Hupd)
    as (olds1 & news1 & -> & Hold1 & Hnew1 & Hcols1).
  apply mapM_Some in Hfit. apply Forall2_app_inv_l in Hfit
    as (olds & news & Holds & Hnews & ->).
  apply Forall_app in Hal1 as [Hal_o Hal_n].
  apply Forall_app in Hcols1 as [Hc_o Hc_n].
  exists olds, news. split; [done|]. split; [|split].
  - clear Hnews Hnew1 Hal_n Hc_n Hupd Hinv Hcols.
    revert olds Holds.
    induction Hold1 as [|r0 r1 l0 l1 [Hid Hr] _ IH]; intros olds Holds;
      inversion Holds as [|? r2 ? l2 Hstep Hrest]; subst; [done|].
    inversion_clear Hclean. inversion_clear Hal_o. inversion_clear Hc_o.
    constructor; [|by apply IH].
    destruct (upd_rates_step_rel r1 r2) as (Hid2 & Hsame & Hdirty & _); [done..|].
    split; [congruence|]. destruct Hr as [->|Hd].
    + left. by apply Hsame.
    + right. by apply Hdirty.
  - clear Holds Hold1 Hupd. revert news Hnews.
    induction Hnew1 as [|r1 l1 Hd _ IH]; intros news Hnews;
      inversion Hnews as [|? r2 ? l2 Hstep Hrest]; subst; [done|].
    inversion_clear Hal_n. inversion_clear Hc_n.
    constructor; [|by apply IH].
    destruct (upd_rates_step_rel r1 r2) as (_ & _ & Hdirty & _); [done..|].
    by apply Hdirty.
  - apply Forall_app. split.
    + clear -Holds Hal_o Hc_o.
      induction Holds as [|r1 r2 l1 l2 Hstep _ IH]; [done|].
      inversion_clear Hal_o. inversion_clear Hc_o. constructor; [|by apply IH].
      destruct (upd_rates_step_rel r1 r2) as (_ & _ & _ & Hl); [done..|]. by apply Hl.
    + clear -Hnews Hal_n Hc_n.
      induction Hnews as [|r1 r2 l1 l2 Hstep _ IH]; [done|].
      inversion_clear Hal_n. inversion_clear Hc_n. constructor; [|by apply IH].
      destruct (upd_rates_step_rel r1 r2) as (_ & _ & _ & Hl); [done..|]. by apply Hl.
Qed.

Lemma frame_total_count keep l l' z :
  Forall2 (frame keep) l l' → total_count z l' = total_count z l.
Proof.
  intros Hfr. induction Hfr as [|d d' l l' Hd _ IH]; [done|].
  by rewrite !total_count_cons, IH, (frame_ref_ids_of _ _ _ Hd).
Qed.

Lemma mapM_stores_total_count W (f : dict → option dict) dicts dicts' z :
  "ref_ids" ∉ W →
  (∀ d d', f d = Some d' → only_stores W d d') →
  mapM f dicts = Some dicts' → total_count z dicts' = total_count z dicts.
Proof.
  intros Hr Hf Hm. apply (frame_total_count []).
  eapply mapM_Forall2; [|done]. intros d d' Hd.
  eapply only_stores_frame; eauto. intros k _ Hk. by apply elem_of_nil in Hk.
Qed.

Lemma clear_updated_clean r : is_True (dget (clear_updated r) "updated") = false.
Proof.
  unfold clear_updated. destruct (is_True (dget r "updated")) eqn:E; [|done].
  unfold dget. by rewrite lookup_insert_eq.
Qed.

Lemma clear_updated_lookup r k : k ≠ "updated" → clear_updated r !! k = r !! k.
Proof.
  intros Hk. unfold clear_updated. case_match; [|done]. by rewrite lookup_insert_ne.
Qed.

Lemma clear_updated_usable r : G3.rate_usable (clear_updated r) = G3.rate_usable r.
Proof. unfold G3.rate_usable, dget. by rewrite !clear_updated_lookup. Qed.

Lemma clear_updated_has_id ρ r : has_id ρ (clear_updated r) ↔ has_id ρ r.
Proof. unfold has_id, dget. by rewrite clear_updated_lookup. Qed.

Lemma clear_updated_well_fitted r : well_fitted (clear_updated r) ↔ well_fitted r.
Proof. unfold well_fitted, distinct_taus, dget. by rewrite clear_updated_lookup. Qed.

Lemma clear_updated_list_keys cols r :
  list_keys_in cols r → list_keys_in cols (clear_updated r).
Proof.
  intros Hl k l. unfold clear_updated. case_match; [|apply Hl].
  destruct (decide (k = "updated")) as [->|Hne].
  - by rewrite lookup_insert_eq.
  - rewrite lookup_insert_ne by done. apply Hl.
Qed.

Lemma rate_step_has_id ρ r0 r2 : rate_step r0 r2 → has_id ρ r0 → has_id ρ r2.
Proof. intros [Hid _]. unfold has_id, dget. by rewrite Hid. Qed.

Lemma fed_after rate0 olds news dicts0 dicts1 :
  Forall2 rate_step rate0 olds →
  fed_by rate0 dicts0 →
  (∀ ρ, (0 < total_count ρ dicts1)%nat →
     (∃ r, r ∈ olds ++ news ∧ is_True (dget r "updated") = true ∧ has_id ρ r
           ∧ G3.rate_usable r = true)
     ∨ ((0 < total_count ρ dicts0)%nat
        ∧ ∀ r, r ∈ olds ++ news → is_True (dget r "updated") = true → ¬ has_id ρ r)) →
  fed_by (map clear_updated (olds ++ news)) dicts1.
Proof.
  intros Hstep Hfed Hmem ρ Hpos.
  destruct (Hmem ρ Hpos) as [(r & Hr & _ & Hid & Hus)|[Hpos0 Hno]].
  - exists (clear_updated r). split; [by apply list_elem_of_fmap_2|].
    split; [by apply clear_updated_has_id|by rewrite clear_updated_usable].
  - destruct (Hfed ρ Hpos0) as (r0 & Hr0 & Hid0 & Hus0).
    apply list_elem_of_lookup in Hr0 as [i Hi].
    destruct (Forall2_lookup_l _ _ _ _ _ Hstep Hi) as (r2 & Hi2 & Hrs).
    assert (r2 ∈ olds ++ news) as Hin.
    { apply elem_of_app. left. by eapply list_elem_of_lookup_2. }
    pose proof (rate_step_has_id ρ _ _ Hrs Hid0) as Hid2.
    exists (clear_updated r2). split; [by apply list_elem_of_fmap_2|].
    split; [by apply clear_updated_has_id|]. rewrite clear_updated_usable.
    destruct Hrs as [_ [->|[Hdirty _]]]; [done|].
    by destruct (Hno r2 Hin Hdirty).
Qed.

Lemma upd_g3results_inv proc_data deleted s s' :
  G3_inv s → G3.upd_g3results proc_data deleted s = Some s' → G3_inv s'.
Proof.
  intros [Hrate Hea Hro Hcols Hclean Hfitted Hea_fed Hro_fed].
  unfold G3.upd_g3results. intros Hupd.
  destruct (G3.upd_rate_dicts _ _ _) as [rate1|] eqn:Hrate1; simpl in Hupd; [|done].
  destruct (G3.upd_rates rate1) as [rate2|] eqn:Hrate2; simpl in Hupd; [|done].
  destruct (G3.upd_ea_dicts rate2 _) as [ea1|] eqn:Hea1; simpl in Hupd; [|done].
  destruct (G3.upd_ea ea1) as [ea2|] eqn:Hea2; simpl in Hupd; [|done].
  destruct (G3.upd_ro_dicts rate2 _) as [[rate3 ro1]|] eqn:Hro1; simpl in Hupd; [|done].
  destruct (G3.upd_ro ro1) as [ro2|] eqn:Hro2; simpl in Hupd; [|done].
  simplify_eq.
  pose proof (upd_rate_dicts_family_inv _ _ _ _ Hrate Hrate1) as Hinv1.
  pose proof (upd_rates_family_inv _ _ Hinv1 Hrate2) as Hinv2.
  destruct (upd_ro_dicts_family_inv _ _ _ _ Hinv2 Hro Hro1) as [Hinv3 Hro_inv1].
  destruct (rates_after_fit _ _ _ _ _ Hrate Hcols Hclean Hrate1 Hrate2)
    as (olds & news & -> & Hstep & Hnew & Hcols2).
  destruct (feed_loop_members "p" "T_reactor" _ _ _ ltac:(set_solver) Hea Hea1)
    as [Hea_inv1 Hea_mem].
  unfold G3.upd_ro_dicts in Hro1.
  destruct (foldlM _ (G3.ro_dicts s) (olds ++ news)) as [ro1'|] eqn:Hro1';
    simpl in Hro1; [|done].
  simplify_eq.
  destruct (feed_loop_members "T_reactor" "p" _ _ _ ltac:(set_solver) Hro Hro1')
    as [_ Hro_mem].
  change (G3_inv (G3.Build_results (map clear_updated (olds ++ news)) ea2 ro2)).
  split; simpl.
  - done.
  - by eapply G3_upd_ea_family_inv.
  - by eapply G3_upd_ro_family_inv.
  - apply Forall_fmap. eapply Forall_impl; [|exact Hcols2].
    intros r. apply clear_updated_list_keys.
  - apply Forall_fmap, Forall_forall. intros r _. apply clear_updated_clean.
  - apply Forall_fmap, Forall_app. split.
    + clear -Hstep Hfitted.
      induction Hstep as [|r0 r2 l0 l2 [_ Hr] _ IH]; [done|].
      inversion_clear Hfitted as [|? ? Hf0 Hfl]. constructor; [|by apply IH].
      simpl. rewrite clear_updated_usable, clear_updated_well_fitted.
      destruct Hr as [->|[_ Hf]]; done.
    + eapply Forall_impl; [|exact Hnew]. intros r [_ Hf]. simpl.
      by rewrite clear_updated_usable, clear_updated_well_fitted.
  - apply (fed_after (G3.rate_dicts s) olds news (G3.ea_dicts s)); [done..|].
    intros ρ Hpos. apply Hea_mem.
    erewrite <- mapM_stores_total_count; [done| |
      intros d d'; apply upd_fit_step_stores, perform_ea_analysis_on_stores|exact Hea2].
    simpl. not_in_list.
  - apply (fed_after (G3.rate_dicts s) olds news (G3.ro_dicts s)); [done..|].
    intros ρ Hpos. apply Hro_mem.
    erewrite <- mapM_stores_total_count; [done| |
      intros d d'; apply upd_fit_step_stores, perform_ro_analysis_on_stores|exact Hro2].
    simpl. not_in_list.
Qed.

End pipeline.

Section reachable.
Context `{N : Numerics}.

Lemma family_inv_nil keys : family_inv keys [].
Proof.
  split; [constructor| |].
  - intros kv i j d1 d2 _ Hi. by rewrite lookup_nil in Hi.
  - intros x. unfold total_count. simpl. lia.
Qed.

Lemma upd_g1results_inv proc_data deleted s s' :
  G1_inv s → G1.upd_g1results proc_data deleted s = Some s' → G1_inv s'.
Proof.
  intros [Hea Hrb Hre]. unfold G1.upd_g1results. intros Hupd.
  destruct (G1.upd_ea_dicts _ _ _) as [ea1|] eqn:Hea1; simpl in Hupd; [|done].
  destruct (G1.upd_ea ea1) as [ea2|] eqn:Hea2; simpl in Hupd; [|done].
  destruct (G1.upd_ro_base_dicts _ _ _) as [rb1|] eqn:Hrb1; simpl in Hupd; [|done].
  destruct (G1.upd_ro_ester_dicts _ _ _) as [re1|] eqn:Hre1; simpl in Hupd; [|done].
  destruct (G1.upd_ro_base rb1) as [rb2|] eqn:Hrb2; simpl in Hupd; [|done].
  destruct (G1.upd_ro_ester re1) as [re2|] eqn:Hre2; simpl in Hupd; [|done].
  simplify_eq. split; simpl.
  - apply (G1_upd_ea_family_inv ea1); [|done].
    exact (G1_upd_ea_dicts_family_inv _ _ _ _ Hea Hea1).
  - apply (G1_upd_ro_base_family_inv rb1); [|done].
    exact (G1_upd_ro_base_dicts_family_inv _ _ _ _ Hrb Hrb1).
  - apply (G1_upd_ro_ester_family_inv re1); [|done].
    exact (G1_upd_ro_ester_dicts_family_inv _ _ _ _ Hre Hre1).
Qed.

Lemma G3_run_inv events s : G3_run events = Some s → G3_inv s.
Proof.
  apply (foldlM_inv _ G3_inv).
  - intros b [pd del] b' Hb Hstep. by eapply upd_g3results_inv.
  - split; simpl; try apply family_inv_nil; try constructor;
      intros ρ Hpos; unfold total_count in Hpos; simpl in Hpos; lia.
Qed.

Lemma G1_run_inv events s : G1_run events = Some s → G1_inv s.
Proof.
  apply (foldlM_inv _ G1_inv).
  - intros b [pd del] b' Hb Hstep. by eapply upd_g1results_inv.
  - split; simpl; apply family_inv_nil.
Qed.

Lemma result_family_inv dicts :
  result_family dicts → ∃ keys, family_inv keys dicts.
Proof.
  intros [events s Hrun|events s Hrun|events s Hrun
         |events s Hrun|events s Hrun|events s Hrun].
  1-3: apply G3_run_inv in Hrun as []; eauto.
  all: apply G1_run_inv in Hrun as []; eauto.
Qed.


(** C5: in every family, after any sequence of save and delete events,
    an id occurs at most once over all member lists of the family; in
    particular two groups that both hold it are one group. *)
Theorem member_of_at_most_one_group dicts x :
  result_family dicts →
  (total_count x dicts ≤ 1)%nat
  ∧ ∀ i j d1 d2, dicts !! i = Some d1 → dicts !! j = Some d2 →
      py_in x (ref_ids_of d1) = true → py_in x (ref_ids_of d2) = true → i = j.
Proof.
  intros Hfam. destruct (result_family_inv _ Hfam) as [keys [_ _ Hex]].
  split; [apply Hex|]. intros i j d1 d2. by apply exclusive_at_most_one.
Qed.

(** C9: after any sequence of save and delete events, every member of
    an Ea group or of a reaction-order group is the id of a rate
    group whose rate is not null, whose error is null, and whose tau
    column has at least three distinct magnitudes.  A rate fitted on
    one or two distinct tau values is in no downstream group. *)
Theorem downstream_members_are_full_fits events s d ρ :
  G3_run events = Some s →
  d ∈ G3.ea_dicts s ++ G3.ro_dicts s →
  py_in ρ (ref_ids_of d) = true →
  ∃ r n, r ∈ G3.rate_dicts s
    ∧ val_eq ρ (dget r "id") = true
    ∧ is_null (dget r "rate") = false
    ∧ is_null (dget r "error") = true
    ∧ distinct_taus r = Some n ∧ (3 ≤ n)%nat.
Proof.
  intros Hrun Hd Hin. apply G3_run_inv in Hrun as [_ _ _ _ _ Hfit Hea Hro].
  apply py_count_pos in Hin.
  assert (∃ r, r ∈ G3.rate_dicts s ∧ has_id ρ r ∧ G3.rate_usable r = true)
    as (r & Hr & Hid & Hus).
  { apply elem_of_app in Hd as [Hd|Hd]; [apply Hea|apply Hro];
      pose proof (total_count_elem ρ _ _ Hd); lia. }
  rewrite list.Forall_forall in Hfit. destruct (Hfit r Hr Hus) as (n & Hn & Hle).
  exists r, n. unfold G3.rate_usable in Hus.
  apply andb_true_iff in Hus as [Hrate Herr]. apply negb_true_iff in Hrate.
  done.
Qed.

End reachable.


Lemma downstream_members_are_full_fits_witness :
  ∃ r n, r ∈ G3.rate_dicts after_three_taus
    ∧ val_eq (SInt 1) (dget r "id") = true
    ∧ is_null (dget r "rate") = false
    ∧ is_null (dget r "error") = true
    ∧ distinct_taus (N:=exact_numerics) r = Some n ∧ (3 ≤ n)%nat.
Proof.
  apply (downstream_members_are_full_fits (N:=exact_numerics) three_taus after_three_taus
           (default ∅ (G3.ea_dicts after_three_taus !! 0%nat)) (SInt 1)).
  - vm_refl.
  - apply elem_of_app. left. apply (list_elem_of_lookup_2 _ 0%nat).
    vm_refl.
  - vm_refl.
Defined.

Section tiers.
Context `{N : Numerics}.

Lemma len_set_pos l : l ≠ [] → (1 ≤ len_set l)%nat.
Proof.
  unfold len_set. induction l as [|a l IH]; [done|]. intros _. simpl.
  destruct (py_in a l) eqn:Hin; simpl; [|lia].
  apply IH. intros ->. done.
Qed.

Lemma upd_rates_step_tiers d tau conv flags ms cs rate r2 :
  is_True (dget d "updated") = true →
  d !! "tau" = Some (VList tau) → d !! "conversion" = Some (VList conv) →
  d !! "is_simulated" = Some (VList flags) →
  mapM Q_magnitude tau = Some ms → mapM Q_magnitude conv = Some cs →
  length flags = length tau → length conv = length tau → tau ≠ [] →
  G3.calc_rate (ms ++ [0%Q]) (cs ++ [0%Q]) = Some (rate, r2) →
  ufloat_truthy rate = true →
  ∃ d', G3.upd_rates_step d = Some d'
    ∧ d' !! "rate" = Some (VScalar (SStr (format_quantity rate "mol/(kg*s)")))
    ∧ d' !! "error"
      = tier_error G3.rate_msg_one G3.rate_msg_two (len_float_set ms) (d !! "error").
Proof.
  intros Hupd Htau Hconv Hflags Hms Hcs Hlf Hlc Hne Hfit Htruthy.
  unfold G3.upd_rates_step. rewrite Hupd. unfold dget at 1. rewrite Htau. simpl.
  rewrite bool_decide_eq_true_2 by by apply len_set_pos.
  by eapply perform_rate_analysis_fit.
Qed.

Lemma store_linear_fit_lookup d1 xs ys slope intercept unique msg_one msg_two :
  xs ≠ [] →
  store_linear_fit d1 xs ys slope intercept unique msg_one msg_two !! "error"
    = tier_error msg_one msg_two unique (d1 !! "error")
  ∧ ∀ k, k ∉ ["plotdata"; "fitdata"; "error"] →
      store_linear_fit d1 xs ys slope intercept unique msg_one msg_two !! k = d1 !! k.
Proof.
  intros Hne. unfold store_linear_fit, tier_error.
  destruct xs as [|x xs]; [done|]. simpl.
  split.
  - repeat case_bool_decide; by simplify_map_eq.
  - intros k Hk.
    assert (k ≠ "plotdata" ∧ k ≠ "fitdata" ∧ k ≠ "error") as (? & ? & ?).
    { repeat split; intros ->; apply Hk; set_solver. }
    repeat case_bool_decide; by simplify_map_eq.
Qed.

Lemma mapM_nil_inv {A B} (f : A → option B) l : mapM f l = Some [] → l = [].
Proof. intros H. apply length_mapM in H. by destruct l. Qed.

Lemma perform_ea_analysis_on_tiers T_key d rate T ln_r T_inv slope intercept r2 :
  d !! "rate" = Some (VList rate) → d !! T_key = Some (VList T) →
  mapM (λ x, np_log <$> Q_nominal_value x) rate = Some ln_r →
  mapM inverse_magnitude T = Some T_inv → T ≠ [] →
  calc_slope T_inv ln_r = Some (slope, intercept, r2) →
  ∃ d', perform_ea_analysis_on T_key d = Some d'
    ∧ d' !! "Ea" = Some (VScalar (SStr (format_quantity
                          (ufloat_scale (- R_magnitude)%Q slope) "J/mol")))
    ∧ d' !! "A_app" = Some (VScalar (SStr (format_quantity intercept "dimensionless")))
    ∧ d' !! "error" = tier_error ea_msg_one ea_msg_two (len_set T) (d !! "error").
Proof.
  intros Hrate HT Hln Hinv Hne Hfit.
  unfold perform_ea_analysis_on, dget. rewrite Hrate, HT. simpl.
  rewrite Hln, Hinv. simpl. rewrite Hfit.
  assert (T_inv ≠ []) as Hne'.
  { intros ->. by apply mapM_nil_inv in Hinv. }
  eexists. split; [reflexivity|].
  destruct (store_linear_fit_lookup
              (<["r_squared" := VFloat (Fin r2)]>
                 (<["A_app" := VScalar (SStr (format_quantity intercept "dimensionless"))]>
                    (<["Ea" := VScalar (SStr (format_quantity
                                  (ufloat_scale (- R_magnitude)%Q slope) "J/mol"))]> d)))
              T_inv ln_r slope intercept (len_set T) ea_msg_one ea_msg_two Hne')
    as [Herr Hother].
  rewrite Herr, !Hother by not_in_list. by simplify_map_eq.
Qed.

Lemma perform_ro_analysis_on_tiers C_key out_key d rate C log_r log_C slope intercept r2 :
  out_key ∉ ["r_squared"; "plotdata"; "fitdata"; "error"] →
  d !! "rate" = Some (VList rate) → d !! C_key = Some (VList C) →
  mapM (λ x, np_log10 <$> Q_nominal_value x) rate = Some log_r →
  mapM (λ x, m ← Q_magnitude x; Some (np_log10 (m / 100000))%Q) C = Some log_C →
  C ≠ [] →
  calc_slope log_C log_r = Some (slope, intercept, r2) →
  ∃ d', perform_ro_analysis_on C_key out_key d = Some d'
    ∧ d' !! out_key = Some (VScalar (SStr (format_quantity slope "dimensionless")))
    ∧ d' !! "error" = tier_error ro_msg_one ro_msg_two (len_set C) (d !! "error").
Proof.
  intros Hout Hrate HC Hlr HlC Hne Hfit.
  assert (out_key ≠ "r_squared" ∧ out_key ≠ "error"
          ∧ out_key ∉ ["plotdata"; "fitdata"; "error"]) as (? & ? & ?).
  { repeat split; [intros ->; apply Hout; set_solver..|].
    intros Hin. apply Hout. by right. }
  unfold perform_ro_analysis_on, dget. rewrite Hrate, HC. simpl.
  rewrite Hlr, HlC. simpl. rewrite Hfit.
  assert (log_C ≠ []) as Hne'.
  { intros ->. by apply mapM_nil_inv in HlC. }
  eexists. split; [reflexivity|].
  destruct (store_linear_fit_lookup
              (<["r_squared" := VFloat (Fin r2)]>
                 (<[out_key := VScalar (SStr (format_quantity slope "dimensionless"))]> d))
              log_C log_r slope intercept (len_set C) ro_msg_one ro_msg_two Hne')
    as [Herr Hother].
  rewrite Herr, !Hother by done. by simplify_map_eq.
Qed.

Lemma foldl_null_lookup (outs : list string) (d : dict) k :
  foldl (λ d k, <[k := VNone]> d) d outs !! k
  = if decide (k ∈ outs) then Some VNone else d !! k.
Proof.
  revert d. induction outs as [|o outs IH]; intros d; simpl.
  - destruct (decide (k ∈ [])) as [Hin|]; [by apply elem_of_nil in Hin|done].
  - rewrite IH. destruct (decide (k ∈ outs)) as [Hin|Hnin].
    + destruct (decide (k ∈ o :: outs)) as [|Hn]; [done|]. destruct Hn. by right.
    + destruct (decide (k = o)) as [->|Hne].
      * rewrite lookup_insert_eq.
        destruct (decide (o ∈ o :: outs)) as [|Hn]; [done|]. destruct Hn. left.
      * rewrite lookup_insert_ne by done.
        destruct (decide (k ∈ o :: outs)) as [[?|?]%elem_of_cons|]; done.
Qed.

Lemma upd_fit_step_below_two x_key outs perform d xs :
  is_True (dget d "updated") = true → d !! x_key = Some (VList xs) →
  (len_set xs < 2)%nat → "updated" ∉ outs →
  ∃ d', upd_fit_step x_key outs perform d = Some d'
    ∧ (∀ k, k ∈ outs → d' !! k = Some VNone).
Proof.
  intros Hupd Hx Hlt Hu. unfold upd_fit_step. rewrite Hupd.
  unfold dget at 1. rewrite Hx. simpl.
  rewrite bool_decide_eq_false_2 by lia. simpl.
  eexists. split; [reflexivity|].
  intros k Hk. rewrite lookup_insert_ne by (by intros <-).
  rewrite foldl_null_lookup. by destruct (decide (k ∈ outs)).
Qed.

Lemma upd_fit_step_from_two x_key outs perform d d1 xs :
  is_True (dget d "updated") = true → d !! x_key = Some (VList xs) →
  (2 ≤ len_set xs)%nat → perform d = Some d1 →
  upd_fit_step x_key outs perform d = Some (<["updated" := VFalse]> d1).
Proof.
  intros Hupd Hx Hle Hp. unfold upd_fit_step. rewrite Hupd.
  unfold dget at 1. rewrite Hx. simpl.
  rewrite bool_decide_eq_true_2 by done. by rewrite Hp.
Qed.

Lemma tier_error_two m1 m2 old : tier_error m1 m2 2 old = Some (VScalar (SStr m2)).
Proof. done. Qed.

Lemma tier_error_three m1 m2 n old : (3 ≤ n)%nat → tier_error m1 m2 n old = Some VNone.
Proof.
  intros Hn. unfold tier_error.
  rewrite !bool_decide_eq_false_2 by lia. by rewrite bool_decide_eq_true_2.
Qed.

End tiers.

Section claims.
Context `{N : Numerics}.

(** C1, as the code has it.  For a dirty group:
    - a rate group with at least one observation is fitted whatever
      the number of distinct tau values; when the fit succeeds the rate
      is stored, and the error is the one-value message for 1 distinct
      tau, the two-value message for 2, and null from 3 on;
    - an Ea or reaction-order group with fewer than 2 distinct values
      gets its outputs set to null;
    - with 2 or more distinct values and a successful regression the
      outputs are stored, and the error is the two-value message for
      exactly 2 and null from 3 on;
    - the rate messages and the two-value messages mention that the
      value is an estimate. *)
Theorem regression_tiers_as_coded :
  (∀ d tau conv flags ms cs rate r2,
     is_True (dget d "updated") = true →
     d !! "tau" = Some (VList tau) → d !! "conversion" = Some (VList conv) →
     d !! "is_simulated" = Some (VList flags) →
     mapM Q_magnitude tau = Some ms → mapM Q_magnitude conv = Some cs →
     length flags = length tau → length conv = length tau → tau ≠ [] →
     G3.calc_rate (ms ++ [0%Q]) (cs ++ [0%Q]) = Some (rate, r2) →
     ufloat_truthy rate = true →
     ∃ d', G3.upd_rates_step d = Some d'
       ∧ d' !! "rate" = Some (VScalar (SStr (format_quantity rate "mol/(kg*s)")))
       ∧ (len_float_set ms = 1%nat →
          d' !! "error" = Some (VScalar (SStr G3.rate_msg_one)))
       ∧ (len_float_set ms = 2%nat →
          d' !! "error" = Some (VScalar (SStr G3.rate_msg_two)))
       ∧ ((3 ≤ len_float_set ms)%nat → d' !! "error" = Some VNone))
  ∧ (∀ x_key outs perform d xs,
       is_True (dget d "updated") = true → d !! x_key = Some (VList xs) →
       (len_set xs < 2)%nat → "updated" ∉ outs →
       ∃ d', upd_fit_step x_key outs perform d = Some d'
         ∧ (∀ k, k ∈ outs → d' !! k = Some VNone))
  ∧ (∀ T_key d rate T ln_r T_inv slope intercept r2,
       is_True (dget d "updated") = true →
       d !! "rate" = Some (VList rate) → d !! T_key = Some (VList T) →
       mapM (λ x, np_log <$> Q_nominal_value x) rate = Some ln_r →
       mapM inverse_magnitude T = Some T_inv →
       (2 ≤ len_set T)%nat →
       calc_slope T_inv ln_r = Some (slope, intercept, r2) →
       ∃ d', upd_fit_step T_key ["Ea"; "A_app"] (perform_ea_analysis_on T_key) d = Some d'
         ∧ d' !! "Ea" = Some (VScalar (SStr (format_quantity
                               (ufloat_scale (- R_magnitude)%Q slope) "J/mol")))
         ∧ d' !! "A_app"
           = Some (VScalar (SStr (format_quantity intercept "dimensionless")))
         ∧ (len_set T = 2%nat → d' !! "error" = Some (VScalar (SStr ea_msg_two)))
         ∧ ((3 ≤ len_set T)%nat → d' !! "error" = Some VNone))
  ∧ (∀ C_key out_key d rate C log_r log_C slope intercept r2,
       out_key ∉ ["updated"; "r_squared"; "plotdata"; "fitdata"; "error"] →
       is_True (dget d "updated") = true →
       d !! "rate" = Some (VList rate) → d !! C_key = Some (VList C) →
       mapM (λ x, np_log10 <$> Q_nominal_value x) rate = Some log_r →
       mapM (λ x, m ← Q_magnitude x; Some (np_log10 (m / 100000))%Q) C = Some log_C →
       (2 ≤ len_set C)%nat →
       calc_slope log_C log_r = Some (slope, intercept, r2) →
       ∃ d', upd_fit_step C_key [out_key] (perform_ro_analysis_on C_key out_key) d
             = Some d'
         ∧ d' !! out_key = Some (VScalar (SStr (format_quantity slope "dimensionless")))
         ∧ (len_set C = 2%nat → d' !! "error" = Some (VScalar (SStr ro_msg_two)))
         ∧ ((3 ≤ len_set C)%nat → d' !! "error" = Some VNone))
  ∧ mentions "estimate" G3.rate_msg_one = true
  ∧ mentions "estimate" G3.rate_msg_two = true
  ∧ mentions "estimate" ea_msg_two = true
  ∧ mentions "estimate" ro_msg_two = true.
Proof.
  split; [|split; [|split; [|split; [|by vm_compute]]]].
  - intros d tau conv flags ms cs rate r2 Hupd Htau Hconv Hflags Hms Hcs Hlf Hlc Hne
      Hfit Htruthy.
    destruct (upd_rates_step_tiers d tau conv flags ms cs rate r2)
      as (d' & Hd' & Hrate & Herr); [done..|].
    exists d'. split; [done|]. split; [done|]. rewrite Herr.
    split; [|split].
    + by intros ->.
    + by intros ->.
    + apply tier_error_three.
  - intros x_key outs perform d xs. apply upd_fit_step_below_two.
  - intros T_key d rate T ln_r T_inv slope intercept r2 Hupd Hrate HT Hln Hinv Hle Hfit.
    assert (T ≠ []) as Hne.
    { intros ->. unfold len_set in Hle. simpl in Hle. lia. }
    destruct (perform_ea_analysis_on_tiers T_key d rate T ln_r T_inv slope intercept r2)
      as (d1 & Hd1 & HEa & HA & Herr); [done..|].
    eexists. split; [by eapply upd_fit_step_from_two|].
    rewrite !lookup_insert_ne by done. rewrite Herr.
    split; [done|]. split; [done|]. split.
    + by intros ->.
    + apply tier_error_three.
  - intros C_key out_key d rate C log_r log_C slope intercept r2 Hout Hupd Hrate HC
      Hlr HlC Hle Hfit.
    assert (C ≠ []) as Hne.
    { intros ->. unfold len_set in Hle. simpl in Hle. lia. }
    assert (out_key ≠ "updated") as Hu.
    { intros ->. apply Hout. left. }
    destruct (perform_ro_analysis_on_tiers C_key out_key d rate C log_r log_C
                slope intercept r2)
      as (d1 & Hd1 & Hout1 & Herr); [|done..|].
    { intros Hin. apply Hout. by right. }
    eexists. split; [by eapply upd_fit_step_from_two|].
    rewrite !lookup_insert_ne by done. rewrite Herr.
    split; [done|]. split.
    + by intros ->.
    + apply tier_error_three.
Qed.

End claims.

Lemma regression_tiers_as_coded_witness :
  (∃ d', G3.upd_rates_step (N:=exact_numerics) one_tau_group = Some d'
     ∧ d' !! "rate" = Some (VScalar (SStr "2 mol/(kg*s)"))
     ∧ (len_float_set [1%Q] = 1%nat →
        d' !! "error" = Some (VScalar (SStr G3.rate_msg_one)))
     ∧ (len_float_set [1%Q] = 2%nat →
        d' !! "error" = Some (VScalar (SStr G3.rate_msg_two)))
     ∧ ((3 ≤ len_float_set [1%Q])%nat → d' !! "error" = Some VNone))
  ∧ (∃ d', upd_fit_step "T_reactor" ["Ea"; "A_app"]
             (perform_ea_analysis_on (N:=exact_numerics) "T_reactor") one_T_ea_group
           = Some d'
       ∧ ∀ k, k ∈ ["Ea"; "A_app"] → d' !! k = Some VNone)
  ∧ (∃ d', upd_fit_step "T_reactor" ["Ea"; "A_app"]
             (perform_ea_analysis_on (N:=exact_numerics) "T_reactor")
             (ea_group_at "300 K")
           = Some d'
       ∧ d' !! "Ea" = Some (VScalar (SStr "6235 J/mol"))
       ∧ d' !! "A_app" = Some (VScalar (SStr "4 dimensionless"))
       ∧ (len_set [SStr "300 K"; SStr "500 K"] = 2%nat →
          d' !! "error" = Some (VScalar (SStr ea_msg_two)))
       ∧ ((3 ≤ len_set [SStr "300 K"; SStr "500 K"])%nat →
          d' !! "error" = Some VNone)).
Proof.
  destruct (regression_tiers_as_coded (N:=exact_numerics))
    as (Hrate & Hbelow & Hea & _).
  pose (fit := default ({| nominal_value := 0; std_dev := 0 |}, NaN)
                 (G3.calc_rate (N:=exact_numerics) [1; 0]%Q [2; 0]%Q)).
  pose (line := default ({| nominal_value := 0; std_dev := 0 |},
                         {| nominal_value := 0; std_dev := 0 |}, 0%Q)
                  (calc_slope (N:=exact_numerics) [1 / 300; 1 / 500]%Q [2; 3]%Q)).
  split; [|split].
  - lazymatch goal with
    | |- ?G =>
        exact (Hrate one_tau_group [SStr "1 s"] [SStr "2"] [SBool false] [1%Q] [2%Q]
                 fit.1 fit.2
                 ltac:(vm_refl) ltac:(vm_refl) ltac:(vm_refl) ltac:(vm_refl)
                 ltac:(vm_refl) ltac:(vm_refl) eq_refl eq_refl ltac:(done)
                 ltac:(vm_refl) ltac:(vm_refl) <: G)
    end.
  - apply (Hbelow "T_reactor" ["Ea"; "A_app"] _ one_T_ea_group [SStr "500 K"]).
    + vm_refl.
    + vm_refl.
    + vm_compute. lia.
    + not_in_list.
  - lazymatch goal with
    | |- ?G =>
        exact (Hea "T_reactor" (ea_group_at "300 K")
                 [SStr "2 mol/(kg*s)"; SStr "3 mol/(kg*s)"]
                 [SStr "300 K"; SStr "500 K"] [2; 3]%Q [1 / 300; 1 / 500]%Q
                 line.1.1 line.1.2 line.2
                 ltac:(vm_refl) ltac:(vm_refl) ltac:(vm_refl) ltac:(vm_refl)
                 ltac:(vm_refl) ltac:(vm_compute; lia) ltac:(vm_refl) <: G)
    end.
Defined.

(** C1, the claim as stated fails on one distinct value: the dirty
    rate group of a first observation gets a rate, a fit output that
    is not null, beside its one-value message. *)
Lemma one_distinct_value_counterexample :
  map (λ d, (dget d "updated", dget d "tau", dget d "error")) one_tau_groups
    = [(VTrue, VList [SStr "1 s"], VNone)]
  ∧ (map (λ d, (dget d "rate", dget d "error"))
       <$> G3.upd_rates (N:=exact_numerics) one_tau_groups)
    = Some [(VScalar (SStr "2 mol/(kg*s)"), VScalar (SStr G3.rate_msg_one))].
Proof. by vm_compute. Qed.

(** In the Ea family the dirty group with one temperature gets null
    outputs and no message: [upd_ea] calls [perform_ea_analysis] from
    two distinct temperatures on, so the one-value message that
    function holds is out of reach. *)
Lemma one_temperature_sets_no_message :
  map (λ d, (dget d "updated", dget d "T_reactor", dget d "error")) one_T_ea_groups
    = [(VTrue, VList [SStr "500 K"], VNone)]
  ∧ (map (λ d, (dget d "Ea", dget d "A_app", dget d "error"))
       <$> G3.upd_ea (N:=exact_numerics) one_T_ea_groups)
    = Some [(VNone, VNone, VNone)].
Proof. by vm_compute. Qed.

(** C3, the claim as stated fails: on [y = 3 x] the search as worded
    stops at the first fit that reaches the threshold (2 points) where
    the code goes on to all 3; on data whose third point spoils the
    fit the code returns the fit over 2 points where the wording
    returns the last fit attempted (3 points). *)
Lemma progressive_slope_counterexample :
  (G1.calc_init_slope (N:=exact_numerics) [1; 2; 3]%Q [3; 6; 9]%Q 2 (99 # 100)).2
    = Some 3%nat
  ∧ snd <$> G1.progressive_slope_spec (N:=exact_numerics) [1; 2; 3]%Q [3; 6; 9]%Q
              2 (99 # 100)
    = Some 2%nat
  ∧ (G1.calc_init_slope (N:=exact_numerics) [1; 2; 3]%Q [1; 3; 2]%Q 2 (99 # 100)).2
    = Some 2%nat
  ∧ snd <$> G1.progressive_slope_spec (N:=exact_numerics) [1; 2; 3]%Q [1; 3; 2]%Q
              2 (99 # 100)
    = Some 3%nat.
Proof. by vm_compute. Qed.

Lemma key_stable_dict_ids keep dicts dicts' :
  "id" ∈ keep → Forall2 (key_stable keep) dicts dicts' →
  mapM dict_id dicts' = mapM dict_id dicts.
Proof.
  intros Hid Hst. induction Hst as [|d d' l l' Hd _ IH]; [done|].
  assert (dict_id d' = dict_id d) as Hdd.
  { unfold dict_id. by rewrite (Hd "id" Hid). }
  cbn [mapM]. by rewrite Hdd, IH.
Qed.

Lemma key_stable_existsb keep kv dicts dicts' :
  (∀ p, p ∈ kv → p.1 ∈ keep) → Forall2 (key_stable keep) dicts dicts' →
  existsb (key_match kv) dicts' = existsb (key_match kv) dicts.
Proof.
  intros Hkv Hst. induction Hst as [|d d' l l' Hd _ IH]; [done|].
  simpl. by rewrite IH, (key_stable_key_match keep kv d d').
Qed.

Lemma foldl_max_ge i ids j : (j ≤ i ∨ j ∈ ids → j ≤ foldl Z.max i ids)%Z.
Proof.
  revert i. induction ids as [|k ids IH]; intros i; simpl.
  - intros [?|Hin]; [done|by apply elem_of_nil in Hin].
  - intros [?|[->|Hin]%elem_of_cons]; apply IH; [left; lia|left; lia|by right].
Qed.

Lemma max_id_ge ids i : i ∈ ids → (i ≤ max_id ids)%Z.
Proof.
  destruct ids as [|k ids]; [by intros ?%elem_of_nil|]. simpl.
  intros [->|Hin]%elem_of_cons; apply foldl_max_ge; [left; lia|by right].
Qed.

Lemma foldl_insert_lookup_ne (g : scalar → value) (l : list (string * scalar))
    (d : dict) k :
  k ∉ l.*1 →
  foldl (λ d c, <[c.1 := g c.2]> d) d l !! k = d !! k.
Proof.
  revert d. induction l as [|c l IH]; intros d Hk; [done|].
  cbn [foldl]. rewrite IH.
  - apply lookup_insert_ne. intros <-. apply Hk. left.
  - intros Hin. apply Hk. by right.
Qed.

Lemma fst_map_pair (f : string → scalar) (l : list string) :
  (map (λ k, (k, f k)) l).*1 = l.
Proof. induction l as [|k l IH]; [done|]. simpl. f_equal. exact IH. Qed.

(** The two passes when no group has the observation's key. *)
Lemma passes_create keep kv src extra new_dict x dicts dicts1 dicts2 ids :
  "id" ∈ keep → "updated" ∉ keep → (∀ p, p ∈ kv → p.1 ∈ keep) →
  remove_pass keep x dicts = Some dicts1 →
  insert_pass keep kv src extra new_dict x dicts1 = Some dicts2 →
  existsb (key_match kv) dicts = false →
  mapM dict_id dicts = Some ids →
  ∃ g, new_dict (max_id ids) = Some g ∧ dicts2 = dicts1 ++ [g]
       ∧ mapM dict_id dicts1 = Some ids.
Proof.
  intros Hid Hu Hkv Hrem Hins Hnone Hids.
  pose proof (remove_pass_key_stable keep Hu x dicts dicts1 Hrem) as Hst.
  rewrite <- (key_stable_existsb keep kv _ _ Hkv Hst) in Hnone.
  unfold insert_pass in Hins.
  destruct (mapM (λ d, if key_match kv d then _ else _) dicts1) as [dicts1'|] eqn:Hm;
    simpl in Hins; [|done].
  rewrite <- (key_stable_dict_ids keep _ _ Hid Hst) in Hids.
  rewrite Hnone, Hids in Hins. simpl in Hins.
  destruct (new_dict (max_id ids)) as [g|] eqn:Hg; simpl in Hins; [|done].
  simplify_eq. exists g. split; [done|]. split; [|done]. f_equal.
  clear -Hm Hnone. revert dicts1' Hm.
  induction dicts1 as [|d l IH]; intros l' Hm.
  - by inversion Hm.
  - simpl in Hnone. apply orb_false_iff in Hnone as [Hd Hl].
    cbn [mapM] in Hm. rewrite Hd in Hm. simpl in Hm.
    destruct (mapM _ l) as [l0|] eqn:Hl0; simpl in Hm; [|done].
    inversion Hm. f_equal. by apply IH.
Qed.

(** The groups of a family stay, with their ids, whatever the event. *)
Lemma passes_keep_groups keep kv src extra new_dict x dicts dicts1 dicts2 ids :
  "id" ∈ keep → "updated" ∉ keep → "ref_ids" ∉ keep →
  (∀ d, frame keep d (extra d)) →
  remove_pass keep x dicts = Some dicts1 →
  insert_pass keep kv src extra new_dict x dicts1 = Some dicts2 →
  mapM dict_id dicts = Some ids →
  ∃ olds news, dicts2 = olds ++ news ∧ mapM dict_id olds = Some ids.
Proof.
  intros Hid Hu Hr Hex Hrem Hins Hids.
  pose proof (remove_pass_key_stable keep Hu x dicts dicts1 Hrem) as Hst.
  rewrite <- (key_stable_dict_ids keep _ _ Hid Hst) in Hids.
  destruct (insert_pass_inv keep kv src extra new_dict x dicts1 dicts2 Hins)
    as (dicts1' & Happ & [[_ ->]|(_ & -> & ids' & dn & _ & _ & ->)]).
  - exists dicts1', []. rewrite app_nil_r. split; [done|].
    rewrite <- Hids. apply (key_stable_dict_ids keep); [done|].
    by apply (appended_key_stable keep kv src extra x Hu Hr Hex).
  - by exists dicts1, [dn].
Qed.

Section claims.
Context `{N : Numerics}.

(** C6: when no rate group has the key of a saved active observation,
    [upd_rate_dicts] appends one group to the family; the groups that
    were there keep their ids, and the id of the new group is 1 plus
    the largest of them (1 plus 0 when there is none), so it is larger
    than every id in use, emptied groups included. *)
Theorem new_group_id_is_next proc_data rate_dicts rate_dicts' ids :
  mapM dict_id rate_dicts = Some ids →
  existsb (key_match [("p", pget proc_data "p");
                      ("T_reactor", pget proc_data "T_reactor")]) rate_dicts = false →
  is_False (pget proc_data "is_active") = false →
  G3.upd_rate_dicts proc_data rate_dicts false = Some rate_dicts' →
  ∃ olds g, rate_dicts' = olds ++ [g]
    ∧ mapM dict_id olds = Some ids
    ∧ g !! "id" = Some (VScalar (SInt (max_id ids + 1)))
    ∧ Forall (λ i, (i < max_id ids + 1)%Z) ids.
Proof.
  intros Hids Hnone Hact. unfold G3.upd_rate_dicts. intros Hupd.
  destruct (remove_pass _ _ rate_dicts) as [dicts1|] eqn:Hrem; simpl in Hupd; [|done].
  rewrite Hact in Hupd.
  destruct (passes_create ["id"; "p"; "T_reactor"]
              [("p", pget proc_data "p"); ("T_reactor", pget proc_data "T_reactor")]
              _ _ _ _ _ _ _ ids ltac:(set_solver) ltac:(not_in_list)
              ltac:(set_solver) Hrem Hupd Hnone Hids) as (g & Hg & -> & Hids1).
  exists dicts1, g. split; [done|]. split; [done|]. split.
  - simplify_eq. by new_group_lookup.
  - apply list.Forall_forall. intros i Hi. apply max_id_ge in Hi. lia.
Qed.

(** X3: the same in the G1 families: a group created by
    [upd_ea_dicts], [upd_ro_base_dicts] or [upd_ro_ester_dicts] gets
    the largest id in use plus one. *)
Theorem G1_new_group_id_is_next keys cols proc_data dicts dicts' ids :
  "id" ∉ keys → "id" ∉ cols → "updated" ∉ keys →
  mapM dict_id dicts = Some ids →
  existsb (key_match (map (λ k, (k, pget proc_data k)) keys)) dicts = false →
  is_False (pget proc_data "is_active") = false →
  is_SNone (pget proc_data "rate") = false →
  G1.upd_dicts_by keys cols proc_data dicts false = Some dicts' →
  ∃ olds g, dicts' = olds ++ [g]
    ∧ mapM dict_id olds = Some ids
    ∧ g !! "id" = Some (VScalar (SInt (max_id ids + 1)))
    ∧ Forall (λ i, (i < max_id ids + 1)%Z) ids.
Proof.
  intros Hk Hc Hu Hids Hnone Hact Hrate. unfold G1.upd_dicts_by. intros Hupd.
  destruct (remove_pass _ _ dicts) as [dicts1|] eqn:Hrem; simpl in Hupd; [|done].
  rewrite Hact, Hrate in Hupd. simpl in Hupd.
  destruct (passes_create ("id" :: keys) (map (λ k, (k, pget proc_data k)) keys)
              _ _ _ _ _ _ _ ids ltac:(set_solver)
              ltac:(intros [?|?]%elem_of_cons; done)
              ltac:(intros p [k [-> Hp]]%list_elem_of_fmap; simpl; by right)
              Hrem Hupd Hnone Hids) as (g & Hg & -> & Hids1).
  exists dicts1, g. split; [done|]. split; [done|]. split.
  - simplify_eq. unfold new_group. rewrite lookup_insert_ne by done.
    rewrite (foldl_insert_lookup_ne (λ v, VList [v])) by (by rewrite fst_map_pair).
    rewrite lookup_insert_ne by done.
    rewrite (foldl_insert_lookup_ne VScalar) by (by rewrite fst_map_pair).
    rewrite lookup_insert_ne by done.
    by rewrite lookup_insert_eq.
  - apply list.Forall_forall. intros i Hi. apply max_id_ge in Hi. lia.
Qed.

(** X2: no event drops a rate group or changes its id: the groups
    of the old family are a prefix of the new one, with the ids they
    had. *)
Theorem rate_groups_are_kept proc_data rate_dicts deleted rate_dicts' ids :
  mapM dict_id rate_dicts = Some ids →
  G3.upd_rate_dicts proc_data rate_dicts deleted = Some rate_dicts' →
  ∃ olds news, rate_dicts' = olds ++ news ∧ mapM dict_id olds = Some ids.
Proof.
  intros Hids. unfold G3.upd_rate_dicts. intros Hupd.
  destruct (remove_pass _ _ rate_dicts) as [dicts1|] eqn:Hrem; simpl in Hupd; [|done].
  pose proof (remove_pass_key_stable ["id"; "p"; "T_reactor"] ltac:(not_in_list)
                _ _ _ Hrem) as Hst.
  assert (mapM dict_id dicts1 = Some ids) as Hids1.
  { rewrite <- Hids. eapply key_stable_dict_ids; [|done]. set_solver. }
  destruct deleted; [|destruct (is_False _)].
  1,2: simplify_eq; exists rate_dicts', []; by rewrite app_nil_r.
  eapply passes_keep_groups; [..|exact Hrem|exact Hupd|exact Hids];
    [set_solver|not_in_list|not_in_list|intros d; apply frame_refl].
Qed.

End claims.

Lemma py_in_last x l : py_in x (l ++ [x]) = true.
Proof.
  apply py_in_spec. exists x. split; [|apply py_eq_refl].
  apply elem_of_app. right. left.
Qed.

Lemma is_False_spec a : is_False a = true ↔ a = SBool false.
Proof. destruct a as [|[]| |]; simpl; naive_solver. Qed.

Section claims.
Context `{N : Numerics}.

(** C10: on a save event [upd_rate_dicts] skips the insertion only
    when [is_active] is the boolean [False], and then does what a
    deletion does; for every other value of [is_active], a missing or
    null one included, the observation is a member of a group
    afterwards. *)
Theorem only_False_is_inactive proc_data rate_dicts rate_dicts' :
  G3.upd_rate_dicts proc_data rate_dicts false = Some rate_dicts' →
  if is_False (pget proc_data "is_active")
  then G3.upd_rate_dicts proc_data rate_dicts true = Some rate_dicts'
  else ∃ d, d ∈ rate_dicts' ∧ py_in (pget proc_data "id") (ref_ids_of d) = true.
Proof.
  unfold G3.upd_rate_dicts. intros Hupd.
  destruct (remove_pass _ _ rate_dicts) as [dicts1|] eqn:Hrem; simpl in Hupd; [|done].
  simpl. destruct (is_False (pget proc_data "is_active")); [done|].
  destruct (insert_pass_inv _ _ _ _ _ _ _ _ Hupd)
    as (dicts1' & Happ & [[Hex ->]|(_ & -> & ids' & dn & _ & Hdn & ->)]).
  - apply existsb_exists in Hex as (d & Hd & Hmatch).
    apply list_elem_of_In, list_elem_of_lookup in Hd as [i Hi].
    destruct (Forall2_lookup_l _ _ _ _ _ Happ Hi) as (d1 & Hi1 & Hd1).
    unfold appended in Hd1. rewrite Hmatch in Hd1.
    exists d1. split; [by eapply list_elem_of_lookup_2|].
    erewrite (append_ref_ref_ids ["id"; "p"; "T_reactor"]); [apply py_in_last|..|exact Hd1];
      [not_in_list|not_in_list|intros d0; apply frame_refl].
  - exists dn. split; [apply elem_of_app; right; left|].
    simplify_eq.
    replace (ref_ids_of _) with [pget proc_data "id"]; [|symmetry; new_group_ref_ids].
    simpl. by rewrite py_eq_refl.
Qed.

(** C7: [perform_rate_analysis] fits the magnitudes of the tau and
    conversion columns with the point (0, 0) appended to both, and
    chooses the diagnostic from the number of distinct tau magnitudes
    without that point. *)
Theorem origin_joins_fit_not_tau_count d tau conv flags ms cs :
  d !! "tau" = Some (VList tau) → d !! "conversion" = Some (VList conv) →
  d !! "is_simulated" = Some (VList flags) →
  mapM Q_magnitude tau = Some ms → mapM Q_magnitude conv = Some cs →
  length flags = length tau → length conv = length tau →
  ∃ d', G3.perform_rate_analysis d = Some d' ∧
    match G3.calc_rate (ms ++ [0%Q]) (cs ++ [0%Q]) with
    | Some (rate, r2) =>
        if ufloat_truthy rate then
          d' !! "rate" = Some (VScalar (SStr (format_quantity rate "mol/(kg*s)")))
          ∧ d' !! "error"
            = tier_error G3.rate_msg_one G3.rate_msg_two (len_float_set ms) (d !! "error")
        else d' !! "rate" = Some VNone ∧ d' !! "error" = d !! "error"
    | None => d' = d
    end.
Proof.
  intros Htau Hconv Hflags Hms Hcs Hlf Hlc.
  destruct (G3.calc_rate (ms ++ [0%Q]) (cs ++ [0%Q])) as [[rate r2]|] eqn:Hfit.
  - destruct (ufloat_truthy rate) eqn:Htruthy.
    + by eapply perform_rate_analysis_fit.
    + unfold G3.perform_rate_analysis, dget. rewrite Htau, Hconv, Hflags. simpl.
      rewrite Hms, Hcs. simpl. rewrite Hfit, Htruthy.
      eexists. split; [reflexivity|]. by simplify_map_eq.
  - unfold G3.perform_rate_analysis, dget. rewrite Htau, Hconv, Hflags. simpl.
    rewrite Hms, Hcs. simpl. rewrite Hfit. eauto.
Qed.

End claims.

(** C4 fails in the rate family: [upd_rate_dicts] has no test for
    null values.  An observation with a null conversion becomes a
    member of a new rate group whose conversion column holds the null,
    and the regression pass that follows raises on it; an observation
    with a null pressure ends up grouped under the key [None] in the
    saved results. *)
Lemma null_derived_value_is_grouped :
  map (λ d, (ref_ids_of d, dget d "conversion"))
      (default [] (G3.upd_rate_dicts null_conversion [] false))
    = [([SInt 1], VList [SNone])]
  ∧ G3.upd_g3results (N:=exact_numerics) null_conversion false empty_g3results = None
  ∧ (map (λ d, (ref_ids_of d, dget d "p")) ∘ G3.rate_dicts)
      <$> G3_run (N:=exact_numerics) [(null_pressure, false)]
    = Some [([SInt 1], VNone)].
Proof. by vm_compute. Qed.

Lemma origin_joins_fit_not_tau_count_witness :
  ∃ d', G3.perform_rate_analysis (N:=exact_numerics) two_tau_group = Some d'
    ∧ d' !! "rate" = Some (VScalar (SStr "2 mol/(kg*s)"))
    ∧ d' !! "error" = Some (VScalar (SStr G3.rate_msg_two)).
Proof.
  lazymatch goal with
  | |- ?G =>
      exact (origin_joins_fit_not_tau_count (N:=exact_numerics) two_tau_group
               [SStr "1 s"; SStr "2 s"] [SStr "2"; SStr "4"] [SBool false; SBool false]
               [1; 2]%Q [2; 4]%Q
               ltac:(vm_refl) ltac:(vm_refl) ltac:(vm_refl) ltac:(vm_refl)
               ltac:(vm_refl) eq_refl eq_refl <: G)
  end.
Defined.

Lemma only_False_is_inactive_witness :
  ∃ d, d ∈ default [] (G3.upd_rate_dicts no_is_active [] false)
    ∧ py_in (SInt 1) (ref_ids_of d) = true.
Proof.
  lazymatch goal with
  | |- ?G =>
      exact (only_False_is_inactive no_is_active []
               (default [] (G3.upd_rate_dicts no_is_active [] false))
               ltac:(vm_refl) <: G)
  end.
Defined.

Lemma new_group_id_is_next_witness :
  ∃ olds g,
    default [] (G3.upd_rate_dicts second_pressure (G3.rate_dicts after_emptied) false)
      = olds ++ [g]
    ∧ mapM dict_id olds = Some [1%Z]
    ∧ g !! "id" = Some (VScalar (SInt 2))
    ∧ Forall (λ i, (i < 2)%Z) [1%Z].
Proof.
  apply (new_group_id_is_next second_pressure (G3.rate_dicts after_emptied)
           (default [] (G3.upd_rate_dicts second_pressure (G3.rate_dicts after_emptied)
                          false)) [1%Z]).
  - vm_refl.
  - vm_refl.
  - vm_refl.
  - vm_refl.
Defined.

Lemma member_of_at_most_one_group_witness :
  map (λ d, (dget d "p", ref_ids_of d)) (G3.rate_dicts after_key_change)
    = [(VScalar (SStr "1 bar"), []); (VScalar (SStr "2 bar"), [SInt 2; SInt 1])]
  ∧ (total_count (SInt 1) (G3.rate_dicts after_key_change) ≤ 1)%nat
  ∧ ∀ i j d1 d2, G3.rate_dicts after_key_change !! i = Some d1 →
      G3.rate_dicts after_key_change !! j = Some d2 →
      py_in (SInt 1) (ref_ids_of d1) = true → py_in (SInt 1) (ref_ids_of d2) = true →
      i = j.
Proof.
  split; [vm_refl|].
  apply (member_of_at_most_one_group (N:=exact_numerics)).
  apply (rate_family key_change). vm_refl.
Defined.

Lemma calc_init_slope_keeps_last_accepted_witness :
  ∃ s r n,
    G1.calc_init_slope (N:=exact_numerics) [1; 2; 3]%Q [1; 3; 2]%Q 2 (99 # 100)
      = (Some s, Some r, Some n)
    ∧ (2 ≤ n ≤ 3)%nat
    ∧ (∀ k, (2 ≤ k ≤ n)%nat →
         fit_accepted (N:=exact_numerics) [1; 2; 3]%Q [1; 3; 2]%Q 2 (99 # 100) k)
    ∧ (n = 3%nat
       ∨ ¬ fit_accepted (N:=exact_numerics) [1; 2; 3]%Q [1; 3; 2]%Q 2 (99 # 100) (S n))
    ∧ (∃ e, curve_fit (take n [1; 2; 3]%Q) (take n [1; 3; 2]%Q)
            = Some (G1.slope_value s, e))
    ∧ r = G1.r_sq_of (take n [1; 2; 3]%Q) (take n [1; 3; 2]%Q) (G1.slope_value s).
Proof.
  apply (calc_init_slope_keeps_last_accepted (N:=exact_numerics)
           [1; 2; 3]%Q [1; 3; 2]%Q 2 (99 # 100)).
  - reflexivity.
  - simpl. lia.
  - vm_compute. eauto.
Defined.

(** ** The gates of the downstream and G1 families *)

Section gates.
Context `{N : Numerics}.

(** A rate group that is not usable (null rate, or an error that is
    not null) is only taken out of the Ea or reaction-order family:
    [upd_from_rate] runs the removal pass and nothing else. *)
Theorem unusable_rate_is_only_removed key col r dicts dicts' :
  G3.rate_usable r = false →
  G3.upd_from_rate key col r dicts = Some dicts' →
  ∃ ref_id, as_scalar (dget r "id") = Some ref_id
    ∧ remove_pass ["id"; key] ref_id dicts = Some dicts'.
Proof.
  intros Hus. unfold G3.upd_from_rate. rewrite Hus.
  destruct (as_scalar (dget r "id")) as [ref_id|]; simpl; [|done].
  destruct (as_scalar (dget r key)) as [key_value|]; simpl; [|done].
  destruct (remove_pass _ ref_id dicts) as [dicts1|] eqn:Hrem; simpl; [|done].
  intros [= <-]. eauto.
Qed.

(** In the G1 families an observation with a null rate is treated as
    a deleted one. *)
Theorem G1_null_rate_is_not_inserted keys cols proc_data dicts :
  is_SNone (pget proc_data "rate") = true →
  G1.upd_dicts_by keys cols proc_data dicts false
  = G1.upd_dicts_by keys cols proc_data dicts true.
Proof.
  intros Hrate. unfold G1.upd_dicts_by. rewrite Hrate. simpl.
  destruct (remove_pass _ _ dicts); simpl; [|done].
  by destruct (is_False _).
Qed.

End gates.

Lemma unusable_rate_is_only_removed_witness :
  ∃ ref_id,
    as_scalar (dget (default ∅ (G3.rate_dicts after_one_tau !! 0%nat)) "id") = Some ref_id
    ∧ remove_pass ["id"; "p"] ref_id [] = Some [].
Proof.
  apply (unusable_rate_is_only_removed "p" "T_reactor"
           (default ∅ (G3.rate_dicts after_one_tau !! 0%nat)) [] []).
  - vm_refl.
  - vm_refl.
Defined.

Lemma G1_null_rate_is_not_inserted_witness :
  G1.upd_dicts_by ["C_base"; "C_ester"] ["T_reaction"; "rate"]
    (<["id" := SInt 1]> ∅) [] false
  = G1.upd_dicts_by ["C_base"; "C_ester"] ["T_reaction"; "rate"]
      (<["id" := SInt 1]> ∅) [] true.
Proof.
  apply (G1_null_rate_is_not_inserted ["C_base"; "C_ester"] ["T_reaction"; "rate"]
           (<["id" := SInt 1]> ∅) []).
  vm_refl.
Defined.

Lemma rate_groups_are_kept_witness :
  ∃ olds news,
    default [] (G3.upd_rate_dicts second_pressure (G3.rate_dicts after_emptied) false)
      = olds ++ news
    ∧ mapM dict_id olds = Some [1%Z].
Proof.
  apply (rate_groups_are_kept second_pressure (G3.rate_dicts after_emptied) false).
  - vm_refl.
  - vm_refl.
Defined.

Lemma G1_new_group_id_is_next_witness :
  ∃ olds g,
    default []
      (G1.upd_dicts_by ["C_base"; "C_ester"] ["T_reaction"; "rate"]
         (g1_observation 3 "3 mol/L" "1 mol/L" "300 K" "4 mol/(L*s)")
         two_base_groups false)
      = olds ++ [g]
    ∧ mapM dict_id olds = Some [1%Z; 2%Z]
    ∧ g !! "id" = Some (VScalar (SInt 3))
    ∧ Forall (λ i, (i < 3)%Z) [1%Z; 2%Z].
Proof.
  apply (G1_new_group_id_is_next ["C_base"; "C_ester"] ["T_reaction"; "rate"]
           (g1_observation 3 "3 mol/L" "1 mol/L" "300 K" "4 mol/(L*s)")
           two_base_groups
           (default []
              (G1.upd_dicts_by ["C_base"; "C_ester"] ["T_reaction"; "rate"]
                 (g1_observation 3 "3 mol/L" "1 mol/L" "300 K" "4 mol/(L*s)")
                 two_base_groups false))
           [1%Z; 2%Z]).
  - not_in_list.
  - not_in_list.
  - not_in_list.
  - vm_refl.
  - vm_refl.
  - vm_refl.
  - vm_refl.
  - vm_refl.
Defined.

(** * More of the code: proofs *)

(** ** Group ids *)

Lemma foldl_max_seq m k :
  foldl Z.max (Z.of_nat k) (map Z.of_nat (seq (S k) m)) = Z.of_nat (k + m).
Proof.
  revert k. induction m as [|m IH]; intros k; cbn [seq map foldl].
  - f_equal. lia.
  - replace (Z.max (Z.of_nat k) (Z.of_nat (S k))) with (Z.of_nat (S k)) by lia.
    rewrite IH. f_equal. lia.
Qed.

Lemma max_id_seq n : max_id (map Z.of_nat (seq 1 n)) = Z.of_nat n.
Proof.
  destruct n as [|n]; [done|].
  change (foldl Z.max (Z.of_nat 1) (map Z.of_nat (seq 2 n)) = Z.of_nat (S n)).
  by rewrite foldl_max_seq.
Qed.

Lemma key_stable_ids_sequential keep dicts dicts' :
  "id" ∈ keep → Forall2 (key_stable keep) dicts dicts' →
  ids_sequential dicts → ids_sequential dicts'.
Proof.
  intros Hid Hst. unfold ids_sequential.
  rewrite (key_stable_dict_ids keep dicts dicts' Hid Hst).
  assert (length dicts = length dicts') as Hlen by (eapply Forall2_length; exact Hst).
  by rewrite Hlen.
Qed.

Lemma ids_sequential_snoc dicts d :
  ids_sequential dicts → dict_id d = Some (Z.of_nat (length dicts) + 1)%Z →
  ids_sequential (dicts ++ [d]).
Proof.
  unfold ids_sequential. intros Hids Hd.
  rewrite length_app. simpl. rewrite Nat.add_1_r, seq_S, map_app. simpl.
  apply mapM_Some, Forall2_app.
  - by apply mapM_Some.
  - constructor; [|constructor]. rewrite Hd. f_equal. lia.
Qed.

Lemma passes_ids_sequential keep kv src extra new_dict x dicts dicts1 dicts2 :
  "id" ∈ keep → "updated" ∉ keep → "ref_ids" ∉ keep →
  (∀ d, frame keep d (extra d)) →
  (∀ m d, new_dict m = Some d → dict_id d = Some (m + 1)%Z) →
  ids_sequential dicts →
  remove_pass keep x dicts = Some dicts1 →
  insert_pass keep kv src extra new_dict x dicts1 = Some dicts2 →
  ids_sequential dicts2.
Proof.
  intros Hid Hu Hr Hex Hnew Hids Hrem Hins.
  pose proof (remove_pass_key_stable keep Hu x dicts dicts1 Hrem) as Hst.
  pose proof (key_stable_ids_sequential keep _ _ Hid Hst Hids) as Hids1.
  destruct (insert_pass_inv keep kv src extra new_dict x dicts1 dicts2 Hins)
    as (dicts1' & Happ & [[_ ->]|(_ & -> & ids' & dn & Hids' & Hdn & ->)]).
  - apply (key_stable_ids_sequential keep dicts1); [done| |done].
    by apply (appended_key_stable keep kv src extra x Hu Hr Hex).
  - apply ids_sequential_snoc; [done|].
    rewrite (Hnew _ _ Hdn). unfold ids_sequential in Hids1.
    rewrite Hids1 in Hids'. injection Hids' as <-. by rewrite max_id_seq.
Qed.

Lemma mapM_stores_ids_sequential W (f : dict → option dict) dicts dicts' :
  "id" ∉ W →
  (∀ d d', f d = Some d' → only_stores W d d') →
  mapM f dicts = Some dicts' →
  ids_sequential dicts → ids_sequential dicts'.
Proof.
  intros HW Hf Hm. apply (key_stable_ids_sequential ["id"]); [left|].
  eapply mapM_Forall2; [|exact Hm]. intros d d' Hd k Hk.
  apply list_elem_of_singleton in Hk as ->. by apply (Hf d d' Hd).
Qed.

Lemma new_group_dict_id m x kv cols :
  "id" ∉ kv.*1 → "id" ∉ cols.*1 →
  dict_id (new_group m x kv cols) = Some (m + 1)%Z.
Proof.
  intros Hkv Hcols. unfold dict_id, new_group.
  rewrite lookup_insert_ne by done.
  rewrite (foldl_insert_lookup_ne (λ v, VList [v])) by done.
  rewrite lookup_insert_ne by done.
  rewrite (foldl_insert_lookup_ne VScalar) by done.
  rewrite lookup_insert_ne by done. by rewrite lookup_insert_eq.
Qed.

Section sequential.
Context `{N : Numerics}.

Lemma upd_rate_dicts_ids_sequential proc_data dicts deleted dicts' :
  ids_sequential dicts →
  G3.upd_rate_dicts proc_data dicts deleted = Some dicts' →
  ids_sequential dicts'.
Proof.
  intros Hids. unfold G3.upd_rate_dicts. intros Hupd.
  destruct (remove_pass _ _ dicts) as [dicts1|] eqn:Hrem; simpl in Hupd; [|done].
  assert (ids_sequential dicts1) as Hids1.
  { apply (key_stable_ids_sequential ["id"; "p"; "T_reactor"] dicts); [left| |done].
    apply (remove_pass_key_stable ["id"; "p"; "T_reactor"] ltac:(not_in_list)
             _ _ _ Hrem). }
  destruct deleted; [by simplify_eq|].
  destruct (is_False _); [by simplify_eq|].
  eapply (passes_ids_sequential ["id"; "p"; "T_reactor"]);
    [left|not_in_list|not_in_list|intros d; apply frame_refl| |exact Hids|exact Hrem|exact Hupd].
  intros m d [= <-]. apply new_group_dict_id; simpl; not_in_list.
Qed.

Lemma upd_from_rate_ids_sequential key col r dicts dicts' :
  (key, col) ∈ [("p", "T_reactor"); ("T_reactor", "p")] →
  ids_sequential dicts →
  G3.upd_from_rate key col r dicts = Some dicts' →
  ids_sequential dicts'.
Proof.
  intros Hkc Hids. unfold G3.upd_from_rate. intros Hupd.
  destruct (as_scalar (dget r "id")) as [ref_id|]; simpl in Hupd; [|done].
  destruct (as_scalar (dget r key)) as [key_value|]; simpl in Hupd; [|done].
  destruct (remove_pass _ ref_id dicts) as [dicts1|] eqn:Hrem; simpl in Hupd; [|done].
  assert (key ≠ "id" ∧ key ≠ "updated" ∧ key ≠ "ref_ids" ∧ col ≠ "id"
          ∧ key ≠ "is_simulated") as (? & ? & ? & ? & ?).
  { apply elem_of_cons in Hkc as [[= -> ->]|Hkc]; [done|].
    apply list_elem_of_singleton in Hkc as [= -> ->]. done. }
  assert ("updated" ∉ ["id"; key]) as Hu.
  { intros [?|[?|?]%elem_of_cons]%elem_of_cons;
      [done|congruence|by eapply elem_of_nil]. }
  assert ("ref_ids" ∉ ["id"; key]) as Hr.
  { intros [?|[?|?]%elem_of_cons]%elem_of_cons;
      [done|congruence|by eapply elem_of_nil]. }
  destruct (G3.rate_usable r).
  - destruct (as_list (dget r "is_simulated")) as [flags|]; simpl in Hupd; [|done].
    eapply (passes_ids_sequential ["id"; key]);
      [left|exact Hu|exact Hr| | |exact Hids|exact Hrem|exact Hupd].
    + intros d. apply frame_insert; [done| |done].
      intros [?|[?|?]%elem_of_cons]%elem_of_cons;
        [done|congruence|by eapply elem_of_nil].
    + intros m d Hd.
      destruct (as_scalar (dget r col)) as [c|]; simpl in Hd; [|done].
      destruct (as_scalar (dget r "rate")) as [rate|]; simpl in Hd; [|done].
      injection Hd as <-. unfold dict_id. rewrite lookup_insert_ne by done.
      apply new_group_dict_id; simpl.
      * intros [?|?%elem_of_nil]%elem_of_cons; [congruence|done].
      * intros [?|[?|?%elem_of_nil]%elem_of_cons]%elem_of_cons; [congruence|done|done].
  - simplify_eq.
    apply (key_stable_ids_sequential ["id"; key] dicts); [left| |done].
    apply (remove_pass_key_stable ["id"; key] Hu _ _ _ Hrem).
Qed.


Lemma feed_loop_ids_sequential key col rs dicts dicts' :
  (key, col) ∈ [("p", "T_reactor"); ("T_reactor", "p")] →
  ids_sequential dicts → feed_loop key col rs dicts = Some dicts' →
  ids_sequential dicts'.
Proof.
  intros Hkc. apply (foldlM_inv _ ids_sequential).
  intros b r b' Hb. destruct (is_True _); [|by intros [= <-]].
  by apply upd_from_rate_ids_sequential.
Qed.

Lemma fit_pass_ids_sequential x_key outs perform W dicts dicts' :
  "id" ∉ outs ++ W →
  (∀ d d', perform d = Some d' → only_stores W d d') →
  mapM (upd_fit_step x_key outs perform) dicts = Some dicts' →
  ids_sequential dicts → ids_sequential dicts'.
Proof.
  intros HW Hp. apply (mapM_stores_ids_sequential ("updated" :: outs ++ W)).
  - intros [?|?]%elem_of_cons; done.
  - intros d d'. by apply upd_fit_step_stores.
Qed.

Lemma upd_g3results_ids_sequential proc_data deleted s s' :
  ids_sequential (G3.rate_dicts s) ∧ ids_sequential (G3.ea_dicts s)
  ∧ ids_sequential (G3.ro_dicts s) →
  G3.upd_g3results proc_data deleted s = Some s' →
  ids_sequential (G3.rate_dicts s') ∧ ids_sequential (G3.ea_dicts s')
  ∧ ids_sequential (G3.ro_dicts s').
Proof.
  intros (Hrate & Hea & Hro). unfold G3.upd_g3results. intros Hupd.
  destruct (G3.upd_rate_dicts _ _ _) as [rate1|] eqn:Hrate1; simpl in Hupd; [|done].
  destruct (G3.upd_rates rate1) as [rate2|] eqn:Hrate2; simpl in Hupd; [|done].
  destruct (G3.upd_ea_dicts rate2 _) as [ea1|] eqn:Hea1; simpl in Hupd; [|done].
  destruct (G3.upd_ea ea1) as [ea2|] eqn:Hea2; simpl in Hupd; [|done].
  destruct (G3.upd_ro_dicts rate2 _) as [[rate3 ro1]|] eqn:Hro1; simpl in Hupd; [|done].
  destruct (G3.upd_ro ro1) as [ro2|] eqn:Hro2; simpl in Hupd; [|done].
  simplify_eq. simpl.
  pose proof (upd_rate_dicts_ids_sequential _ _ _ _ Hrate Hrate1) as Hs1.
  assert (ids_sequential rate2) as Hs2.
  { eapply (mapM_stores_ids_sequential
              ["rate"; "r_squared"; "plotdata"; "fitdata"; "simuldata"; "error"]);
      [not_in_list|apply upd_rates_step_stores|exact Hrate2|exact Hs1]. }
  unfold G3.upd_ro_dicts in Hro1.
  destruct (foldlM _ (G3.ro_dicts s) rate2) as [ro1'|] eqn:Hro1'; simpl in Hro1; [|done].
  simplify_eq. split; [|split].
  - apply (key_stable_ids_sequential ["id"] rate2); [left| |done].
    apply Forall2_fmap_r, Forall_Forall2_diag, list.Forall_forall.
    intros r _ k ->%list_elem_of_singleton.
    by apply (clear_updated_lookup r "id").
  - eapply fit_pass_ids_sequential;
      [|apply perform_ea_analysis_on_stores|exact Hea2|].
    + simpl. not_in_list.
    + eapply (feed_loop_ids_sequential "p" "T_reactor"); [left|exact Hea|exact Hea1].
  - eapply fit_pass_ids_sequential;
      [|apply perform_ro_analysis_on_stores|exact Hro2|].
    + simpl. not_in_list.
    + eapply (feed_loop_ids_sequential "T_reactor" "p"); [right; left|exact Hro|exact Hro1'].
Qed.

Lemma G1_upd_dicts_by_ids_sequential keys cols proc_data dicts deleted dicts' :
  "id" ∉ keys → "id" ∉ cols → "updated" ∉ keys → "ref_ids" ∉ keys →
  ids_sequential dicts →
  G1.upd_dicts_by keys cols proc_data dicts deleted = Some dicts' →
  ids_sequential dicts'.
Proof.
  intros Hk Hc Hu Hr Hids. unfold G1.upd_dicts_by. intros Hupd.
  destruct (remove_pass _ _ dicts) as [dicts1|] eqn:Hrem; simpl in Hupd; [|done].
  assert ("updated" ∉ "id" :: keys) as Hu'.
  { intros [?|?]%elem_of_cons; done. }
  assert ("ref_ids" ∉ "id" :: keys) as Hr'.
  { intros [?|?]%elem_of_cons; done. }
  assert (ids_sequential dicts1) as Hids1.
  { apply (key_stable_ids_sequential ("id" :: keys) dicts); [left| |done].
    apply (remove_pass_key_stable ("id" :: keys) Hu' _ _ _ Hrem). }
  destruct deleted; [by simplify_eq|].
  destruct (is_False _); [by simplify_eq|].
  destruct (negb _); [|by simplify_eq].
  eapply (passes_ids_sequential ("id" :: keys));
    [left|exact Hu'|exact Hr'|intros d; apply frame_refl| |exact Hids|exact Hrem|exact Hupd].
  intros m d [= <-]. apply new_group_dict_id; by rewrite fst_map_pair.
Qed.

Lemma upd_g1results_ids_sequential proc_data deleted s s' :
  ids_sequential (G1.ea_dicts s) ∧ ids_sequential (G1.ro_base_dicts s)
  ∧ ids_sequential (G1.ro_ester_dicts s) →
  G1.upd_g1results proc_data deleted s = Some s' →
  ids_sequential (G1.ea_dicts s') ∧ ids_sequential (G1.ro_base_dicts s')
  ∧ ids_sequential (G1.ro_ester_dicts s').
Proof.
  intros (Hea & Hrb & Hre). unfold G1.upd_g1results. intros Hupd.
  destruct (G1.upd_ea_dicts _ _ _) as [ea1|] eqn:Hea1; simpl in Hupd; [|done].
  destruct (G1.upd_ea ea1) as [ea2|] eqn:Hea2; simpl in Hupd; [|done].
  destruct (G1.upd_ro_base_dicts _ _ _) as [rb1|] eqn:Hrb1; simpl in Hupd; [|done].
  destruct (G1.upd_ro_ester_dicts _ _ _) as [re1|] eqn:Hre1; simpl in Hupd; [|done].
  destruct (G1.upd_ro_base rb1) as [rb2|] eqn:Hrb2; simpl in Hupd; [|done].
  destruct (G1.upd_ro_ester re1) as [re2|] eqn:Hre2; simpl in Hupd; [|done].
  simplify_eq. simpl. split; [|split].
  - eapply fit_pass_ids_sequential;
      [|apply perform_ea_analysis_on_stores|exact Hea2|].
    + simpl. not_in_list.
    + eapply G1_upd_dicts_by_ids_sequential; [..|exact Hea|exact Hea1]; not_in_list.
  - eapply fit_pass_ids_sequential;
      [|apply perform_ro_analysis_on_stores|exact Hrb2|].
    + simpl. not_in_list.
    + eapply G1_upd_dicts_by_ids_sequential; [..|exact Hrb|exact Hrb1]; not_in_list.
  - eapply fit_pass_ids_sequential;
      [|apply perform_ro_analysis_on_stores|exact Hre2|].
    + simpl. not_in_list.
    + eapply G1_upd_dicts_by_ids_sequential; [..|exact Hre|exact Hre1]; not_in_list.
Qed.

Lemma G3_run_ids_sequential events s :
  G3_run events = Some s →
  ids_sequential (G3.rate_dicts s) ∧ ids_sequential (G3.ea_dicts s)
  ∧ ids_sequential (G3.ro_dicts s).
Proof.
  apply (foldlM_inv _ (λ s, ids_sequential (G3.rate_dicts s)
                            ∧ ids_sequential (G3.ea_dicts s)
                            ∧ ids_sequential (G3.ro_dicts s))).
  - intros b [pd del] b' Hb. by apply upd_g3results_ids_sequential.
  - done.
Qed.

Lemma G1_run_ids_sequential events s :
  G1_run events = Some s →
  ids_sequential (G1.ea_dicts s) ∧ ids_sequential (G1.ro_base_dicts s)
  ∧ ids_sequential (G1.ro_ester_dicts s).
Proof.
  apply (foldlM_inv _ (λ s, ids_sequential (G1.ea_dicts s)
                            ∧ ids_sequential (G1.ro_base_dicts s)
                            ∧ ids_sequential (G1.ro_ester_dicts s))).
  - intros b [pd del] b' Hb. by apply upd_g1results_ids_sequential.
  - done.
Qed.

(** X1: in every family of result groups that a sequence of save and
    delete events produces, the ids of the groups are 1, 2, ..., n in
    list order: no id is missing, repeated or out of order. *)
Theorem group_ids_are_sequential dicts :
  result_family dicts →
  mapM dict_id dicts = Some (map Z.of_nat (seq 1 (length dicts))).
Proof.
  intros [events s Hrun|events s Hrun|events s Hrun
         |events s Hrun|events s Hrun|events s Hrun].
  1-3: by destruct (G3_run_ids_sequential _ _ Hrun) as (? & ? & ?).
  all: by destruct (G1_run_ids_sequential _ _ Hrun) as (? & ? & ?).
Qed.

(** ** The membership manager does not raise *)

Lemma append_ref_is_Some keep src extra x d :
  aligned keep d → (∀ k, is_Some (src k)) →
  is_Some (append_ref keep src extra x d).
Proof.
  intros (ids & Hids & _) Hsrc. unfold append_ref. rewrite Hids. simpl.
  replace (append_ok keep src _) with true; [eauto|].
  symmetry. apply forallb_forall. intros [k v] _. simpl.
  apply orb_true_iff. right. destruct v; try done.
  by apply bool_decide_eq_true_2.
Qed.

Lemma insert_pass_is_Some keep kv src extra new_dict x dicts :
  Forall (aligned keep) dicts → (∀ k, is_Some (src k)) →
  is_Some (mapM dict_id dicts) → (∀ m, is_Some (new_dict m)) →
  is_Some (insert_pass keep kv src extra new_dict x dicts).
Proof.
  intros Hal Hsrc [ids Hids] Hnew. unfold insert_pass.
  destruct (mapM (λ d, if key_match kv d then _ else _) dicts) as [dicts'|] eqn:Hm.
  - simpl. destruct (existsb _ dicts); [eauto|].
    rewrite Hids. simpl. destruct (Hnew (max_id ids)) as [d ->]. simpl. eauto.
  - apply mapM_None in Hm. apply list.Exists_exists in Hm as (d & Hd & Hnone).
    rewrite list.Forall_forall in Hal.
    destruct (key_match kv d); [|done].
    destruct (append_ref_is_Some keep src extra x d (Hal d Hd) Hsrc) as [? Hs].
    congruence.
Qed.

(** X5: on the rate groups a sequence of events has produced,
    [upd_rate_dicts] returns for every record and both values of
    [deleted]: no [pop], [index] or [append] of the membership pass
    raises. *)
Theorem upd_rate_dicts_does_not_raise events s proc_data deleted :
  G3_run events = Some s →
  is_Some (G3.upd_rate_dicts proc_data (G3.rate_dicts s) deleted).
Proof.
  intros Hrun. destruct (G3_run_inv _ _ Hrun) as [[Hal _ _] _ _ _ _ _ _ _].
  destruct (G3_run_ids_sequential _ _ Hrun) as (Hids & _ & _).
  unfold G3.upd_rate_dicts.
  destruct (remove_pass_is_Some ["id"; "p"; "T_reactor"]
              (pget proc_data "id") (G3.rate_dicts s) Hal) as [dicts1 Hrem].
  rewrite Hrem. simpl.
  destruct deleted; [eauto|]. destruct (is_False _); [eauto|].
  apply insert_pass_is_Some; [| | |eauto].
  - exact (remove_pass_aligned ["id"; "p"; "T_reactor"] _ _ _ Hal Hrem).
  - eauto.
  - assert (ids_sequential dicts1) as ->; [|eauto].
    apply (key_stable_ids_sequential ["id"; "p"; "T_reactor"] (G3.rate_dicts s));
      [left| |done].
    apply (remove_pass_key_stable ["id"; "p"; "T_reactor"] ltac:(not_in_list)
             _ _ _ Hrem).
Qed.

End sequential.

Lemma group_ids_are_sequential_witness :
  length (G3.rate_dicts after_three_pressures) = 3%nat
  ∧ mapM dict_id (G3.rate_dicts after_three_pressures)
    = Some (map Z.of_nat (seq 1 (length (G3.rate_dicts after_three_pressures)))).
Proof.
  split; [vm_refl|].
  apply (group_ids_are_sequential (N:=exact_numerics)).
  apply (rate_family three_pressures). vm_refl.
Defined.

Lemma upd_rate_dicts_does_not_raise_witness :
  is_Some (G3.upd_rate_dicts second_pressure (G3.rate_dicts after_emptied) false).
Proof.
  apply (upd_rate_dicts_does_not_raise (N:=exact_numerics)
           [(g3_observation 1 "1 bar" "500 K" "1 s" "2", false);
            (g3_observation 1 "1 bar" "500 K" "1 s" "2", true)]).
  vm_refl.
Defined.

(** ** Flags, deletions and what the regression pass writes *)

Lemma mapM_fixed {A} (f : A → option A) (l : list A) :
  Forall (λ a, f a = Some a) l → mapM f l = Some l.
Proof.
  intros Hl. apply mapM_Some. induction Hl; constructor; done.
Qed.

Lemma total_count_0 x dicts :
  total_count x dicts = 0%nat ↔ Forall (λ d, py_in x (ref_ids_of d) = false) dicts.
Proof.
  induction dicts as [|d dicts IH].
  - split; [constructor|done].
  - rewrite total_count_cons. split.
    + intros H0. constructor; [apply py_count_0; lia|apply IH; lia].
    + intros H0. inversion_clear H0 as [|? ? Hd Hl].
      apply py_count_0 in Hd. apply IH in Hl. lia.
Qed.

Lemma remove_pass_stranger keep x dicts :
  Forall (aligned keep) dicts → total_count x dicts = 0%nat →
  remove_pass keep x dicts = Some dicts.
Proof.
  intros Hal Hx. apply total_count_0 in Hx. apply mapM_fixed.
  rewrite list.Forall_forall in Hal, Hx. apply list.Forall_forall. intros d Hd.
  destruct (Hal d Hd) as (ids & Hids & _). specialize (Hx d Hd).
  unfold remove_ref, dget. rewrite Hids. simpl.
  unfold ref_ids_of in Hx. rewrite Hids in Hx. by rewrite Hx.
Qed.

Section flags.
Context `{N : Numerics}.

Lemma upd_fit_step_clean x_key outs perform d d' :
  upd_fit_step x_key outs perform d = Some d' →
  is_True (dget d' "updated") = false.
Proof.
  unfold upd_fit_step. destruct (is_True (dget d "updated")) eqn:Hupd.
  - destruct (as_list _) as [xs|]; simpl; [|done].
    destruct (if bool_decide _ then _ else _) as [d1|]; simpl; [|done].
    intros [= <-]. unfold dget. by rewrite lookup_insert_eq.
  - by intros [= <-].
Qed.

Lemma fit_pass_clean x_key outs perform dicts dicts' :
  mapM (upd_fit_step x_key outs perform) dicts = Some dicts' →
  Forall (λ d, is_True (dget d "updated") = false) dicts'.
Proof.
  intros Hm. apply mapM_Some in Hm.
  induction Hm as [|d d' l l' Hd _ IH]; constructor; [|done].
  by eapply upd_fit_step_clean.
Qed.

Lemma fit_pass_fixed x_key outs perform dicts :
  Forall (λ d, is_True (dget d "updated") = false) dicts →
  mapM (upd_fit_step x_key outs perform) dicts = Some dicts.
Proof.
  intros Hcl. apply mapM_fixed. eapply List.Forall_impl; [|exact Hcl].
  intros d Hd. unfold upd_fit_step. by rewrite Hd.
Qed.

Lemma feed_loop_fixed key col rs dicts :
  Forall (λ r, is_True (dget r "updated") = false) rs →
  feed_loop key col rs dicts = Some dicts.
Proof.
  unfold feed_loop. induction 1 as [|r rs Hr _ IH]; [done|].
  simpl. by rewrite Hr.
Qed.

Lemma clear_updated_fixed rs :
  Forall (λ r, is_True (dget r "updated") = false) rs → map clear_updated rs = rs.
Proof.
  induction 1 as [|r rs Hr _ IH]; [done|]. simpl. rewrite IH.
  unfold clear_updated. by rewrite Hr.
Qed.

Lemma upd_ea_dicts_fixed rs dicts :
  Forall (λ r, is_True (dget r "updated") = false) rs →
  G3.upd_ea_dicts rs dicts = Some dicts.
Proof. apply (feed_loop_fixed "p" "T_reactor"). Qed.

Lemma upd_ro_dicts_fixed rs dicts :
  Forall (λ r, is_True (dget r "updated") = false) rs →
  G3.upd_ro_dicts rs dicts = Some (rs, dicts).
Proof.
  intros Hcl. unfold G3.upd_ro_dicts.
  pose proof (feed_loop_fixed "T_reactor" "p" rs dicts Hcl) as Hloop.
  unfold feed_loop in Hloop. rewrite Hloop. simpl.
  pose proof (clear_updated_fixed rs Hcl) as Hmap. unfold clear_updated in Hmap.
  by rewrite Hmap.
Qed.

Lemma upd_g3results_clean proc_data deleted s s' :
  G3.upd_g3results proc_data deleted s = Some s' →
  Forall (λ d, is_True (dget d "updated") = false)
         (G3.rate_dicts s' ++ G3.ea_dicts s' ++ G3.ro_dicts s').
Proof.
  unfold G3.upd_g3results. intros Hupd.
  destruct (G3.upd_rate_dicts _ _ _) as [rate1|] eqn:Hrate1; simpl in Hupd; [|done].
  destruct (G3.upd_rates rate1) as [rate2|] eqn:Hrate2; simpl in Hupd; [|done].
  destruct (G3.upd_ea_dicts rate2 _) as [ea1|] eqn:Hea1; simpl in Hupd; [|done].
  destruct (G3.upd_ea ea1) as [ea2|] eqn:Hea2; simpl in Hupd; [|done].
  destruct (G3.upd_ro_dicts rate2 _) as [[rate3 ro1]|] eqn:Hro1; simpl in Hupd; [|done].
  destruct (G3.upd_ro ro1) as [ro2|] eqn:Hro2; simpl in Hupd; [|done].
  simplify_eq. simpl.
  unfold G3.upd_ro_dicts in Hro1.
  destruct (foldlM _ (G3.ro_dicts s) rate2) as [ro1'|]; simpl in Hro1; [|done].
  simplify_eq. repeat apply Forall_app_2.
  - apply Forall_fmap, list.Forall_forall. intros r _. apply (clear_updated_clean r).
  - by eapply fit_pass_clean.
  - by eapply fit_pass_clean.
Qed.

Lemma upd_g1results_clean proc_data deleted s s' :
  G1.upd_g1results proc_data deleted s = Some s' →
  Forall (λ d, is_True (dget d "updated") = false)
         (G1.ea_dicts s' ++ G1.ro_base_dicts s' ++ G1.ro_ester_dicts s').
Proof.
  unfold G1.upd_g1results. intros Hupd.
  destruct (G1.upd_ea_dicts _ _ _) as [ea1|] eqn:Hea1; simpl in Hupd; [|done].
  destruct (G1.upd_ea ea1) as [ea2|] eqn:Hea2; simpl in Hupd; [|done].
  destruct (G1.upd_ro_base_dicts _ _ _) as [rb1|] eqn:Hrb1; simpl in Hupd; [|done].
  destruct (G1.upd_ro_ester_dicts _ _ _) as [re1|] eqn:Hre1; simpl in Hupd; [|done].
  destruct (G1.upd_ro_base rb1) as [rb2|] eqn:Hrb2; simpl in Hupd; [|done].
  destruct (G1.upd_ro_ester re1) as [re2|] eqn:Hre2; simpl in Hupd; [|done].
  simplify_eq. simpl. repeat apply Forall_app_2; by eapply fit_pass_clean.
Qed.

Lemma G3_run_clean events s :
  G3_run events = Some s →
  Forall (λ d, is_True (dget d "updated") = false)
         (G3.rate_dicts s ++ G3.ea_dicts s ++ G3.ro_dicts s).
Proof.
  apply (foldlM_inv _ (λ s, Forall (λ d, is_True (dget d "updated") = false)
                          (G3.rate_dicts s ++ G3.ea_dicts s ++ G3.ro_dicts s))).
  - intros b [pd del] b' _. apply upd_g3results_clean.
  - constructor.
Qed.

(** X6: between two events no group of any family carries the
    [updated] flag: the regression passes and [upd_ro_dicts] clear
    every flag the membership passes set. *)
Theorem no_group_stays_flagged dicts d :
  result_family dicts → d ∈ dicts → is_True (dget d "updated") = false.
Proof.
  assert (∀ events s, G1_run events = Some s →
            Forall (λ d, is_True (dget d "updated") = false)
              (G1.ea_dicts s ++ G1.ro_base_dicts s ++ G1.ro_ester_dicts s)) as H1.
  { intros events s.
    apply (foldlM_inv _ (λ s, Forall (λ d, is_True (dget d "updated") = false)
             (G1.ea_dicts s ++ G1.ro_base_dicts s ++ G1.ro_ester_dicts s))).
    - intros b [pd del] b' _. apply upd_g1results_clean.
    - constructor. }
  intros Hfam Hd.
  destruct Hfam as [events s Hrun|events s Hrun|events s Hrun
                   |events s Hrun|events s Hrun|events s Hrun].
  1-3: pose proof (G3_run_clean _ _ Hrun) as Hcl.
  4-6: pose proof (H1 _ _ Hrun) as Hcl.
  all: rewrite list.Forall_forall in Hcl; apply Hcl; set_solver.
Qed.

(** X7: deleting an observation that is a member of no rate group
    (or saving one that is not active) leaves the three families of
    the G3 results exactly as they were. *)
Theorem deleting_a_stranger_changes_nothing events s proc_data deleted :
  G3_run events = Some s →
  deleted = true ∨ is_False (pget proc_data "is_active") = true →
  Forall (λ d, py_in (pget proc_data "id") (ref_ids_of d) = false) (G3.rate_dicts s) →
  G3.upd_g3results proc_data deleted s = Some s.
Proof.
  intros Hrun Hdel Hx. apply total_count_0 in Hx.
  destruct (G3_run_inv _ _ Hrun) as [[Hal _ _] _ _ _ _ _ _ _].
  pose proof (G3_run_clean _ _ Hrun) as Hcl.
  apply Forall_app in Hcl as [Hcr Hcl]. apply Forall_app in Hcl as [Hce Hco].
  unfold G3.upd_g3results.
  assert (G3.upd_rate_dicts proc_data (G3.rate_dicts s) deleted = Some (G3.rate_dicts s))
    as ->.
  { unfold G3.upd_rate_dicts.
    rewrite (remove_pass_stranger _ _ _ Hal Hx). simpl.
    destruct Hdel as [-> | ->]; [done|by destruct deleted]. }
  simpl.
  assert (G3.upd_rates (G3.rate_dicts s) = Some (G3.rate_dicts s)) as ->.
  { apply mapM_fixed. eapply List.Forall_impl; [|exact Hcr].
    intros d Hd. unfold G3.upd_rates_step. by rewrite Hd. }
  simpl. rewrite (upd_ea_dicts_fixed _ _ Hcr). simpl.
  unfold G3.upd_ea. rewrite (fit_pass_fixed _ _ _ _ Hce). simpl.
  rewrite (upd_ro_dicts_fixed _ _ Hcr). simpl.
  unfold G3.upd_ro. rewrite (fit_pass_fixed _ _ _ _ Hco). simpl.
  by destruct s.
Qed.

(** X8: after [upd_g3results] has run for a deleted observation, or
    for a saved one whose [is_active] is [False], no rate group has
    the observation among its members. *)
Theorem deleted_observation_is_in_no_rate_group events s proc_data deleted s' d :
  G3_run events = Some s →
  deleted = true ∨ is_False (pget proc_data "is_active") = true →
  G3.upd_g3results proc_data deleted s = Some s' →
  d ∈ G3.rate_dicts s' →
  py_in (pget proc_data "id") (ref_ids_of d) = false.
Proof.
  intros Hrun Hdel Hupd Hd.
  destruct (G3_run_inv _ _ Hrun) as [Hinv _ _ _ _ _ _ _].
  unfold G3.upd_g3results in Hupd.
  destruct (G3.upd_rate_dicts _ _ _) as [rate1|] eqn:Hrate1; simpl in Hupd; [|done].
  destruct (G3.upd_rates rate1) as [rate2|] eqn:Hrate2; simpl in Hupd; [|done].
  destruct (G3.upd_ea_dicts rate2 _) as [ea1|] eqn:Hea1; simpl in Hupd; [|done].
  destruct (G3.upd_ea ea1) as [ea2|] eqn:Hea2; simpl in Hupd; [|done].
  destruct (G3.upd_ro_dicts rate2 _) as [[rate3 ro1]|] eqn:Hro1; simpl in Hupd; [|done].
  destruct (G3.upd_ro ro1) as [ro2|] eqn:Hro2; simpl in Hupd; [|done].
  simplify_eq. simpl in Hd.
  unfold G3.upd_ro_dicts in Hro1.
  destruct (foldlM _ (G3.ro_dicts s) rate2) as [ro1'|]; simpl in Hro1; [|done].
  simplify_eq.
  assert (total_count (pget proc_data "id") rate1 = 0%nat) as H1.
  { unfold G3.upd_rate_dicts in Hrate1.
    destruct (remove_pass _ _ (G3.rate_dicts s)) as [dicts1|] eqn:Hrem;
      simpl in Hrate1; [|done].
    destruct (remove_pass_family_inv ["p"; "T_reactor"] _ _ _
                ltac:(not_in_list) ltac:(not_in_list) Hinv Hrem) as [_ H0].
    destruct Hdel as [-> | Hact]; [by simplify_eq|].
    rewrite Hact in Hrate1. destruct deleted; by simplify_eq. }
  assert (total_count (pget proc_data "id") rate2 = 0%nat) as H2.
  { rewrite <- H1.
    apply (mapM_stores_total_count
             ["rate"; "r_squared"; "plotdata"; "fitdata"; "simuldata"; "error"]
             G3.upd_rates_step); [not_in_list|apply upd_rates_step_stores|done]. }
  apply total_count_0 in H2. rewrite list.Forall_forall in H2.
  apply list_elem_of_fmap in Hd as (r & -> & Hr).
  pose proof (clear_updated_lookup r "ref_ids" ltac:(done)) as Hl.
  unfold clear_updated in Hl. unfold ref_ids_of. rewrite Hl. by apply H2.
Qed.

(** X11: the regression passes write under their result keys only.
    [upd_rates] leaves every entry outside [rate], [r_squared],
    [plotdata], [fitdata], [simuldata] and [error] as it was; the Ea
    and the reaction-order passes of both applications leave every
    entry outside [updated], their result entries, [r_squared],
    [plotdata], [fitdata] and [error] as it was. *)
Theorem regression_passes_keep_the_data :
  (∀ dicts dicts',
     G3.upd_rates dicts = Some dicts' →
     Forall2 (λ d d', ∀ k,
                k ∉ ["rate"; "r_squared"; "plotdata"; "fitdata"; "simuldata"; "error"] →
                d' !! k = d !! k) dicts dicts')
  ∧ (∀ T_key dicts dicts',
       mapM (upd_fit_step T_key ["Ea"; "A_app"] (perform_ea_analysis_on T_key)) dicts
       = Some dicts' →
       Forall2 (λ d d', ∀ k,
                  k ∉ ["updated"; "Ea"; "A_app"; "r_squared"; "plotdata"; "fitdata";
                       "error"] →
                  d' !! k = d !! k) dicts dicts')
  ∧ (∀ C_key out_key dicts dicts',
       mapM (upd_fit_step C_key [out_key] (perform_ro_analysis_on C_key out_key)) dicts
       = Some dicts' →
       Forall2 (λ d d', ∀ k,
                  k ∉ ["updated"; out_key; "r_squared"; "plotdata"; "fitdata"; "error"] →
                  d' !! k = d !! k) dicts dicts').
Proof.
  split; [|split].
  - intros dicts dicts'. apply mapM_Forall2. intros d d' Hd k Hk.
    by apply (upd_rates_step_stores d d' Hd).
  - intros T_key dicts dicts'. apply mapM_Forall2. intros d d' Hd k Hk.
    apply (upd_fit_step_stores _ _ _ _ d d'
             (perform_ea_analysis_on_stores T_key) Hd).
    intros Hin. apply Hk. set_solver.
  - intros C_key out_key dicts dicts'. apply mapM_Forall2. intros d d' Hd k Hk.
    apply (upd_fit_step_stores _ _ _ _ d d'
             (perform_ro_analysis_on_stores C_key out_key) Hd).
    intros Hin. apply Hk. set_solver.
Qed.

End flags.

(** ** Saving an observation and deleting it again *)

Lemma py_index_snoc x l :
  py_in x l = false → py_index x (l ++ [x]) = Some (length l).
Proof.
  induction l as [|y l IH]; simpl.
  - intros _. by rewrite py_eq_refl.
  - intros [Hy Hl]%orb_false_iff. rewrite py_eq_sym, Hy, (IH Hl). done.
Qed.

Lemma append_then_remove keep src x d d1 d2 k l :
  "updated" ∉ keep → "ref_ids" ∉ keep →
  aligned keep d → py_in x (ref_ids_of d) = false →
  append_ref keep src id x d = Some d1 →
  remove_ref keep x d1 = Some d2 →
  k ≠ "updated" → d !! k = Some (VList l) → d2 !! k = Some (VList l).
Proof.
  intros Hu Hr (ids & Hids & Hal) Hx Happ Hrem Hk Hl.
  unfold ref_ids_of in Hx. rewrite Hids in Hx.
  destruct (append_ref_inv keep src id x d d1 Happ) as (ids' & Hids' & ->).
  simplify_eq. simpl in Hrem.
  assert (∀ k', k' ≠ "updated" →
            (<["updated" := VTrue]>
               (map_imap (append_entry keep src) (<["ref_ids" := VList (ids ++ [x])]> d)))
              !! k'
            = if decide (k' = "ref_ids") then Some (VList (ids ++ [x]))
              else if decide (k' ∈ keep) then d !! k'
              else match d !! k' with
                   | Some (VList l) => Some (VList (l ++ [default SNone (src k')]))
                   | Some _ => Some VNone
                   | None => None
                   end) as Hd1.
  { intros k' Hk'. rewrite lookup_appended. rewrite decide_False by done.
    destruct (decide (k' = "ref_ids")) as [->|Hne].
    - rewrite decide_True by (apply elem_of_app; right; left).
      by rewrite lookup_insert_eq.
    - rewrite lookup_insert_ne by done.
      destruct (decide (k' ∈ keep)) as [Hin|Hnin].
      + rewrite decide_True by (apply elem_of_app; by left). done.
      + rewrite decide_False; [done|].
        intros [?|?%list_elem_of_singleton]%elem_of_app; done. }
  destruct (remove_ref_inv keep x _ d2 Hrem) as (ids1 & Hids1 & Hcase).
  rewrite Hd1 in Hids1 by done. rewrite decide_True in Hids1 by done.
  injection Hids1 as <-.
  destruct Hcase as [[Hnot _]|(pos & Hpos & _ & ->)].
  { unfold py_in in Hnot. rewrite existsb_app in Hnot. simpl in Hnot.
    rewrite py_eq_refl in Hnot. by rewrite orb_true_r in Hnot. }
  rewrite (py_index_snoc x ids Hx) in Hpos. injection Hpos as <-.
  destruct (Hal k l Hl) as [Hkeep Hlen].
  rewrite lookup_popped. rewrite decide_False by done.
  rewrite decide_False by done. rewrite Hd1 by done.
  destruct (decide (k = "ref_ids")) as [->|Hne].
  - rewrite Hids in Hl. injection Hl as <-.
    replace (ids ++ [x]) with (ids ++ x :: []) by done.
    by rewrite delete_middle, app_nil_r.
  - rewrite decide_False by done. rewrite Hl. rewrite <- Hlen.
    replace (l ++ [default SNone (src k)]) with (l ++ default SNone (src k) :: []) by done.
    by rewrite delete_middle, app_nil_r.
Qed.

Section round_trip.
Context `{N : Numerics}.

Lemma G3_run_aligned events s :
  G3_run events = Some s → Forall (aligned ["id"; "p"; "T_reactor"]) (G3.rate_dicts s).
Proof.
  intros Hrun. by destruct (G3_run_inv _ _ Hrun) as [[Hal _ _] _ _ _ _ _ _ _].
Qed.

(** X10: saving an observation that was a member of no group and
    deleting it again gives every old rate group its columns back:
    each list of a group, the member list included, is the list it
    was before the two events (a group created by the save stays, with
    empty columns, after the old ones). *)
Theorem save_then_delete_restores_the_columns proc_data dicts dicts1 dicts2 :
  Forall (aligned ["id"; "p"; "T_reactor"]) dicts →
  Forall (λ d, py_in (pget proc_data "id") (ref_ids_of d) = false) dicts →
  G3.upd_rate_dicts proc_data dicts false = Some dicts1 →
  G3.upd_rate_dicts proc_data dicts1 true = Some dicts2 →
  Forall2 (λ d d2, ∀ k l, k ≠ "updated" → d !! k = Some (VList l) →
                          d2 !! k = Some (VList l))
          dicts (take (length dicts) dicts2).
Proof.
  intros Hal Hx Hsave Hdel.
  pose proof Hx as Hx0. apply total_count_0 in Hx0.
  unfold G3.upd_rate_dicts in Hsave, Hdel.
  rewrite (remove_pass_stranger _ _ _ Hal Hx0) in Hsave. simpl in Hsave.
  destruct (remove_pass _ _ dicts1) as [dicts2'|] eqn:Hrem; simpl in Hdel; [|done].
  injection Hdel as ->.
  destruct (is_False _).
  { injection Hsave as <-. rewrite (remove_pass_stranger _ _ _ Hal Hx0) in Hrem.
    injection Hrem as <-. rewrite firstn_all.
    apply Forall_Forall2_diag, list.Forall_forall. by intros d _ k l _ Hl. }
  destruct (insert_pass_inv _ _ _ _ _ _ _ _ Hsave)
    as (dicts1' & Happ & Hcase).
  apply mapM_Some in Hrem.
  assert (∃ rest, dicts1 = dicts1' ++ rest) as [rest ->].
  { destruct Hcase as [[_ ->]|(_ & -> & ids & dn & _ & _ & ->)];
      [exists []; by rewrite app_nil_r|by exists [dn]]. }
  apply Forall2_app_inv_l in Hrem as (olds & news & Holds & _ & ->).
  assert (length dicts = length olds) as ->.
  { transitivity (length dicts1'); eapply Forall2_length; eassumption. }
  rewrite take_app_length.
  clear Hcase Hsave Hx0.
  revert olds Holds. induction Happ as [|d d1 l l1 Hd Hl IH]; intros olds Holds.
  - inversion_clear Holds. constructor.
  - inversion_clear Holds as [|? d2 ? olds' Hd2 Holds'].
    inversion_clear Hal as [|? ? Hald Hall]. inversion_clear Hx as [|? ? Hxd Hxl].
    constructor; [|by apply IH].
    intros k col Hk Hcol. unfold appended in Hd.
    destruct (key_match _ d).
    + eapply (append_then_remove ["id"; "p"; "T_reactor"]);
        [not_in_list|not_in_list|exact Hald|exact Hxd|exact Hd|exact Hd2|exact Hk|exact Hcol].
    + subst d1. destruct Hald as (ids & Hids & _).
      unfold remove_ref, dget in Hd2. rewrite Hids in Hd2. simpl in Hd2.
      unfold ref_ids_of in Hxd. rewrite Hids in Hxd. rewrite Hxd in Hd2.
      by injection Hd2 as <-.
Qed.

End round_trip.

Lemma no_group_stays_flagged_witness :
  is_True (dget (default ∅ (G3.ea_dicts after_three_taus !! 0%nat)) "updated") = false.
Proof.
  apply (no_group_stays_flagged (N:=exact_numerics) (G3.ea_dicts after_three_taus)).
  - apply (g3_ea_family three_taus). vm_refl.
  - apply (list_elem_of_lookup_2 _ 0%nat). vm_refl.
Defined.

Lemma deleting_a_stranger_changes_nothing_witness :
  G3.upd_g3results (N:=exact_numerics) (g3_observation 9 "1 bar" "500 K" "1 s" "2") true
    after_three_taus
  = Some after_three_taus.
Proof.
  apply (deleting_a_stranger_changes_nothing (N:=exact_numerics) three_taus).
  - vm_refl.
  - left. reflexivity.
  - apply total_count_0. vm_refl.
Defined.

Lemma deleted_observation_is_in_no_rate_group_witness :
  py_in (SInt 1)
    (ref_ids_of
       (default ∅
          (G3.rate_dicts
             (default empty_g3results
                (G3.upd_g3results (N:=exact_numerics)
                   (g3_observation 1 "1 bar" "500 K" "1 s" "2") true after_three_taus))
           !! 0%nat)))
  = false.
Proof.
  apply (deleted_observation_is_in_no_rate_group (N:=exact_numerics) three_taus
           after_three_taus (g3_observation 1 "1 bar" "500 K" "1 s" "2") true
           (default empty_g3results
              (G3.upd_g3results (N:=exact_numerics)
                 (g3_observation 1 "1 bar" "500 K" "1 s" "2") true after_three_taus))).
  - vm_refl.
  - left. reflexivity.
  - vm_refl.
  - apply (list_elem_of_lookup_2 _ 0%nat). vm_refl.
Defined.

Lemma save_then_delete_restores_the_columns_witness :
  Forall2 (λ d d2, ∀ k l, k ≠ "updated" → d !! k = Some (VList l) →
                          d2 !! k = Some (VList l))
    (G3.rate_dicts after_one_tau)
    (take (length (G3.rate_dicts after_one_tau))
       (default []
          (G3.upd_rate_dicts (g3_observation 2 "1 bar" "500 K" "2 s" "4")
             two_tau_groups true))).
Proof.
  apply (save_then_delete_restores_the_columns
           (g3_observation 2 "1 bar" "500 K" "2 s" "4")
           (G3.rate_dicts after_one_tau) two_tau_groups).
  - apply (G3_run_aligned (N:=exact_numerics) (take 1 three_taus)). vm_refl.
  - apply total_count_0. vm_refl.
  - vm_refl.
  - vm_refl.
Defined.

(** ** The rate analysis, the Ea pass and [calc_init_slope] at their edges *)

Section analysis_edges.
Context `{N : Numerics}.

Lemma py_eq_True_False f : py_eq f (SBool true) = true → py_eq f (SBool false) = false.
Proof.
  destruct f as [|[]|n|s]; simpl; try done.
  rewrite !bool_decide_eq_true. intros ->. by apply bool_decide_eq_false_2.
Qed.

(** X13: the loop of [perform_rate_analysis] that builds the two plot
    series puts the points whose [is_simulated] flag equals [True]
    into the simulated series and those whose flag equals [False] into
    the experimental one, both in the order of the columns; a point
    whose flag equals neither (a null one) is in neither series. *)
Theorem split_simulated_selects_by_flag flags tau conversion i :
  length tau = length conversion →
  (i + length flags ≤ length tau)%nat →
  G3.split_simulated flags tau conversion i
  = Some (points_flagged (SBool true) flags tau conversion i,
          points_flagged (SBool false) flags tau conversion i).
Proof.
  intros Hlen. unfold points_flagged. revert i.
  induction flags as [|f flags IH]; intros i Hi; [done|].
  simpl in Hi.
  destruct (lookup_lt_is_Some_2 tau i) as [t Ht]; [lia|].
  destruct (lookup_lt_is_Some_2 conversion i) as [c Hc]; [lia|].
  assert (drop i (zip tau conversion) = (t, c) :: drop (S i) (zip tau conversion)) as ->.
  { apply drop_S. rewrite (lookup_zip_with pair tau conversion i), Ht. simpl.
    by rewrite Hc. }
  cbn [G3.split_simulated zip zip_with List.filter fst snd].
  rewrite Ht, Hc, (IH (S i)) by lia. simpl.
  destruct (py_eq f (SBool true)) eqn:Htrue.
  - by rewrite (py_eq_True_False f Htrue).
  - by destruct (py_eq f (SBool false)).
Qed.

(** X12: a temperature of magnitude zero makes the Ea pass raise.
    [perform_ea_analysis] computes [1 / Q_(x).magnitude] outside its
    [try], so a flagged group with at least two distinct temperatures,
    one of them zero, aborts [upd_ea] (and with it the event). *)
Theorem zero_temperature_raises T_key d T t q dicts :
  d ∈ dicts →
  is_True (dget d "updated") = true →
  d !! T_key = Some (VList T) → (2 ≤ len_set T)%nat →
  t ∈ T → Q_magnitude t = Some q → (q == 0)%Q →
  mapM (upd_fit_step T_key ["Ea"; "A_app"] (perform_ea_analysis_on T_key)) dicts = None.
Proof.
  intros Hd Hupd HT Hle Ht Hq Hq0.
  apply mapM_None, list.Exists_exists. exists d. split; [done|].
  unfold upd_fit_step. rewrite Hupd. unfold dget at 1. rewrite HT. simpl.
  rewrite bool_decide_eq_true_2 by done.
  replace (perform_ea_analysis_on T_key d) with (@None dict); [done|].
  symmetry. unfold perform_ea_analysis_on.
  destruct (as_list (dget d "rate")) as [rate|]; simpl; [|done].
  unfold dget. rewrite HT. simpl.
  destruct (mapM _ rate) as [ln_r|]; simpl; [|done].
  replace (mapM inverse_magnitude T) with (@None (list Q)); [done|].
  symmetry. apply mapM_None, list.Exists_exists. exists t. split; [done|].
  unfold inverse_magnitude. rewrite Hq. simpl.
  by rewrite (proj2 (Qeq_bool_iff q 0) Hq0).
Qed.

(** X15: [calc_init_slope] returns [(None, None, None)] when there are
    fewer than [min_points] points, and when the first iteration, the
    one on [min_points] points, raises (in the fit, or on columns of
    different lengths). *)
Theorem calc_init_slope_without_first_fit x y min_points threshold :
  (length x < min_points)%nat
  ∨ curve_fit (take min_points x) (take min_points y) = None
  ∨ length (take min_points x) ≠ length (take min_points y) →
  G1.calc_init_slope x y min_points threshold = (None, None, None).
Proof.
  intros Hcase. unfold G1.calc_init_slope.
  destruct (decide (length x < min_points)%nat) as [Hlt|Hge].
  { replace (length x + 1 - min_points)%nat with 0%nat by lia. done. }
  destruct Hcase as [?|Hcase]; [done|].
  replace (length x + 1 - min_points)%nat with (S (length x - min_points)) by lia.
  cbn [seq G1.init_slope_loop].
  destruct Hcase as [->|Hne]; [done|].
  destruct (curve_fit _ _) as [[popt perr]|]; [|done].
  by rewrite bool_decide_eq_false_2.
Qed.

End analysis_edges.

(** X17: [calc_conv] gives the quotient of the two areas capped at
    one: a result is at most 1, at most the quotient, and one of the
    two.  It gives [None] exactly when an area is missing or the
    reactant area is zero. *)
Theorem calc_conv_is_capped A_reactant A_product :
  match calc_conv A_reactant A_product with
  | Some X =>
      ∃ a b, A_reactant = Some a ∧ A_product = Some b ∧ ¬ (a == 0)%Q
             ∧ (X <= 1)%Q ∧ (X <= b / a)%Q ∧ (X == 1 ∨ X == b / a)%Q
  | None => A_reactant = None ∨ A_product = None
            ∨ ∃ a, A_reactant = Some a ∧ (a == 0)%Q
  end.
Proof.
  unfold calc_conv. destruct A_reactant as [a|]; simpl; [|by left].
  destruct A_product as [b|]; simpl; [|by right; left].
  destruct (Qeq_bool a 0) eqn:Ha.
  - right; right. exists a. split; [done|]. by apply Qeq_bool_iff.
  - exists a, b. split; [done|]. split; [done|].
    split; [by apply Qeq_bool_neq|].
    destruct (Qle_bool (b / a) 1) eqn:Hle.
    + apply Qle_bool_iff in Hle. repeat split; [done|apply Qle_refl|by right].
    + assert (¬ (b / a <= 1)%Q) as Hgt.
      { intros H. apply Qle_bool_iff in H. congruence. }
      apply Qnot_le_lt in Hgt.
      repeat split; [apply Qle_refl|by apply Qlt_le_weak|by left].
Qed.

(** X18: [calc_tau] gives [M R T / (p V)].  It gives [None] exactly when
    an input is missing or one of [p], [V], [T] is zero. *)
Theorem calc_tau_is_the_ideal_gas_space_time M_catalyst V_flow p T_bath :
  match calc_tau M_catalyst V_flow p T_bath with
  | Some tau =>
      ∃ M V p0 T, M_catalyst = Some M ∧ V_flow = Some V ∧ p = Some p0 ∧ T_bath = Some T
        ∧ ¬ (p0 * V * T == 0)%Q
        ∧ (tau * (p0 * V) == M * (R_magnitude * T))%Q
  | None =>
      M_catalyst = None ∨ V_flow = None ∨ p = None ∨ T_bath = None
      ∨ ∃ V p0 T, V_flow = Some V ∧ p = Some p0 ∧ T_bath = Some T
                  ∧ (p0 * V * T == 0)%Q
  end.
Proof.
  assert (¬ (R_magnitude == 0)%Q) as HR by (by vm_compute).
  unfold calc_tau. destruct p as [p0|]; simpl; [|by right; right; left].
  destruct T_bath as [T|]; simpl; [|by right; right; right; left].
  destruct (Qeq_bool (R_magnitude * T) 0) eqn:HRT.
  { apply Qeq_bool_iff in HRT.
    destruct V_flow as [V|]; [|by right; left].
    right; right; right; right. exists V, p0, T. repeat split.
    assert (T == 0)%Q as ->; [|ring].
    destruct (Qmult_integral _ _ HRT) as [E|E]; [by destruct HR|exact E]. }
  apply Qeq_bool_neq in HRT.
  destruct V_flow as [V|]; simpl; [|by right; left].
  destruct M_catalyst as [M|]; simpl; [|by left].
  assert (¬ (T == 0)%Q) as HT.
  { intros E. apply HRT. rewrite E. ring. }
  destruct (Qeq_bool (p0 / (R_magnitude * T) * V) 0) eqn:Hn.
  - apply Qeq_bool_iff in Hn.
    right; right; right; right. exists V, p0, T. repeat split.
    assert (p0 * V == p0 / (R_magnitude * T) * V * (R_magnitude * T))%Q as Hpv
      by (field; done).
    rewrite Hpv, Hn. ring.
  - apply Qeq_bool_neq in Hn.
    exists M, V, p0, T. repeat split.
    + intros E. apply Hn.
      assert (p0 / (R_magnitude * T) * V == p0 * V * T / (R_magnitude * T * T))%Q as ->
        by (field; done).
      rewrite E. field. done.
    + assert (p0 * V == p0 / (R_magnitude * T) * V * (R_magnitude * T))%Q as Hpv
        by (field; done).
      rewrite Hpv. generalize dependent (p0 / (R_magnitude * T) * V)%Q.
      intros n Hn _. field. exact Hn.
Qed.

Lemma split_simulated_selects_by_flag_witness :
  G3.split_simulated [SBool true; SBool false] [1; 2]%Q [2; 4]%Q 0
  = Some (points_flagged (SBool true) [SBool true; SBool false] [1; 2]%Q [2; 4]%Q 0,
          points_flagged (SBool false) [SBool true; SBool false] [1; 2]%Q [2; 4]%Q 0).
Proof.
  apply (split_simulated_selects_by_flag [SBool true; SBool false] [1; 2]%Q [2; 4]%Q 0).
  - reflexivity.
  - simpl. lia.
Defined.

Lemma zero_temperature_raises_witness :
  (map (λ d, dget d "Ea")
     <$> mapM (upd_fit_step "T_reactor" ["Ea"; "A_app"]
                 (perform_ea_analysis_on (N:=exact_numerics) "T_reactor"))
              [ea_group_at "300 K"])
    = Some [VScalar (SStr "6235 J/mol")]
  ∧ mapM (upd_fit_step "T_reactor" ["Ea"; "A_app"]
            (perform_ea_analysis_on (N:=exact_numerics) "T_reactor"))
         [ea_group_at "0 K"]
    = None
  ∧ ((map (λ d, dget d "T_reactor") ∘ G3.ea_dicts)
       <$> G3_run (N:=exact_numerics) (take 5 zero_kelvin))
    = Some [VList [SStr "0 K"]]
  ∧ G3_run (N:=exact_numerics) zero_kelvin = None.
Proof.
  split; [vm_refl|split; [|split; vm_refl]].
  apply (zero_temperature_raises (N:=exact_numerics) "T_reactor"
           (ea_group_at "0 K") [SStr "0 K"; SStr "500 K"] (SStr "0 K") 0%Q).
  - apply list_elem_of_singleton. reflexivity.
  - vm_refl.
  - vm_refl.
  - vm_compute. lia.
  - apply list_elem_of_here.
  - vm_refl.
  - reflexivity.
Defined.

Lemma calc_init_slope_without_first_fit_witness :
  G1.calc_init_slope (N:=exact_numerics) [1]%Q [1]%Q 2 (99 # 100) = (None, None, None).
Proof.
  apply (calc_init_slope_without_first_fit (N:=exact_numerics) [1]%Q [1]%Q 2 (99 # 100)).
  left. simpl. lia.
Defined.

(** ** The data set of the simulation parameters *)

Lemma simul_popped_lookup pos (d : dict) k :
  (<["updated" := VTrue]> (map_imap (G3.simul_pop_entry pos) d)) !! k =
  if decide (k = "updated") then Some VTrue
  else if decide (k = "id") then d !! k
  else match d !! k with
       | Some (VList l) => Some (VList (delete pos l))
       | other => other
       end.
Proof.
  destruct (decide (k = "updated")) as [->|Hne]; [by rewrite lookup_insert_eq|].
  rewrite lookup_insert_ne by done. rewrite map_lookup_imap.
  unfold G3.simul_pop_entry. destruct (d !! k) as [v|]; simpl; [|by case_decide].
  destruct (decide (k = "id")) as [->|Hid].
  - by rewrite bool_decide_eq_true_2 by left.
  - rewrite bool_decide_eq_false_2; [by destruct v|].
    by intros ?%list_elem_of_singleton.
Qed.

Lemma simul_appended_lookup data (d : dict) k :
  (<["updated" := VTrue]> (map_imap (G3.simul_append_entry data) d)) !! k =
  if decide (k = "updated") then Some VTrue
  else if decide (k = "ref_ids") then d !! k
  else match d !! k with
       | Some (VList l) => Some (VList (l ++ [pget data k]))
       | other => other
       end.
Proof.
  destruct (decide (k = "updated")) as [->|Hne]; [by rewrite lookup_insert_eq|].
  rewrite lookup_insert_ne by done. rewrite map_lookup_imap.
  unfold G3.simul_append_entry. destruct (d !! k) as [v|]; simpl; [|by case_decide].
  destruct (decide (k = "ref_ids")) as [->|Hid].
  - by rewrite bool_decide_eq_true_2 by left.
  - rewrite bool_decide_eq_false_2; [by destruct v|].
    by intros ?%list_elem_of_singleton.
Qed.

Lemma upd_simul_dict_aligned data ref_id simul_dicts deleted simul_dicts' :
  data !! "id" = None →
  simul_aligned simul_dicts →
  G3.upd_simul_dict data ref_id simul_dicts deleted = Some simul_dicts' →
  simul_aligned simul_dicts'.
Proof.
  intros Hdata Hal. unfold G3.upd_simul_dict.
  case_bool_decide as Hsize.
  - apply map_size_empty_inv in Hsize as ->.
    destruct (is_False _); intros [= <-]; [by left|]. right.
    set (fresh := <["updated" := VTrue]> (<["ref_ids" := VList [ref_id]]> (∅ : dict))).
    set (created := ((λ v, VList [v]) <$> data) ∪ fresh).
    assert (∀ k l, created !! k = Some (VList l) → length l = 1%nat) as Hone.
    { intros k l. unfold created. rewrite lookup_union_Some_raw, lookup_fmap.
      intros [Hl|[_ Hr]].
      - destruct (data !! k); simpl in Hl; by simplify_eq.
      - unfold fresh in Hr.
        destruct (decide (k = "updated")) as [->|?];
          [by rewrite lookup_insert_eq in Hr|].
        rewrite lookup_insert_ne in Hr by done.
        destruct (decide (k = "ref_ids")) as [->|?].
        + rewrite lookup_insert_eq in Hr. by simplify_eq.
        + rewrite lookup_insert_ne in Hr by done. by rewrite lookup_empty in Hr. }
    split.
    + unfold created. rewrite lookup_union_None. rewrite lookup_fmap, Hdata.
      split; [done|]. unfold fresh.
      rewrite lookup_insert_ne by done. rewrite lookup_insert_ne by done.
      apply lookup_empty.
    + destruct (created !! "ref_ids") as [v|] eqn:Hv.
      * assert (∃ ids, v = VList ids) as [ids ->].
        { unfold created in Hv. apply lookup_union_Some_raw in Hv as [Hl|[_ Hr]].
          - rewrite lookup_fmap in Hl. destruct (data !! "ref_ids"); simpl in Hl;
              simplify_eq. eauto.
          - unfold fresh in Hr. rewrite lookup_insert_ne in Hr by done.
            rewrite lookup_insert_eq in Hr. simplify_eq. eauto. }
        exists ids. split; [done|]. intros k l Hl.
        by rewrite (Hone k l Hl), (Hone _ _ Hv).
      * unfold created in Hv. apply lookup_union_None in Hv as [_ Hv].
        unfold fresh in Hv.
        rewrite lookup_insert_ne in Hv by done. by rewrite lookup_insert_eq in Hv.
  - destruct Hal as [->|(Hnoid & ids & Hids & Hlen)]; [by rewrite map_size_empty in Hsize|].
    unfold dget. rewrite Hids. simpl.
    assert (∀ sd1,
              (if py_in ref_id ids
               then ref_id_pos ← py_index ref_id ids;
                    if pop_ok ["id"] ref_id_pos simul_dicts
                    then Some (<["updated" := VTrue]>
                                 (map_imap (G3.simul_pop_entry ref_id_pos) simul_dicts))
                    else None
               else Some simul_dicts) = Some sd1 →
              sd1 !! "id" = None
              ∧ ∃ ids1, sd1 !! "ref_ids" = Some (VList ids1)
                  ∧ ∀ k l, sd1 !! k = Some (VList l) → length l = length ids1) as Hrem.
    { intros sd1. destruct (py_in _ ids); [|intros [= <-]; eauto].
      destruct (py_index _ ids) as [pos|] eqn:Hpos; simpl; [|done].
      destruct (pop_ok _ pos simul_dicts); [|done]. intros [= <-].
      apply py_index_lt in Hpos. split.
      - rewrite simul_popped_lookup. by rewrite decide_False, decide_True.
      - exists (delete pos ids). split.
        + rewrite simul_popped_lookup. rewrite decide_False by done.
          rewrite decide_False by done. by rewrite Hids.
        + intros k l. rewrite simul_popped_lookup.
          destruct (decide (k = "updated")); [done|].
          destruct (decide (k = "id")) as [->|?]; [by rewrite Hnoid|].
          destruct (simul_dicts !! k) as [[| l0 | |]|] eqn:Hk; try done.
          intros [= <-]. pose proof (Hlen k l0 Hk) as Hl0.
          rewrite !length_delete by (apply lookup_lt_is_Some; lia). lia. }
    destruct (if py_in _ ids then _ else _) as [sd1|] eqn:Hsd1; simpl; [|done].
    destruct (Hrem sd1 eq_refl) as (Hnoid1 & ids1 & Hids1 & Hlen1).
    destruct deleted; [intros [= <-]; right; eauto|].
    destruct (is_False _); [intros [= <-]; right; eauto|].
    rewrite Hids1. simpl. intros [= <-]. right. split.
    + rewrite simul_appended_lookup. rewrite decide_False by done.
      rewrite decide_False by done. rewrite lookup_insert_ne by done.
      by rewrite Hnoid1.
    + exists (ids1 ++ [ref_id]). split.
      * rewrite simul_appended_lookup. rewrite decide_False by done.
        rewrite decide_True by done. by rewrite lookup_insert_eq.
      * intros k l. rewrite simul_appended_lookup.
        destruct (decide (k = "updated")); [done|].
        destruct (decide (k = "ref_ids")) as [->|?].
        { rewrite lookup_insert_eq. by intros [= <-]. }
        rewrite lookup_insert_ne by done.
        destruct (sd1 !! k) as [[| l0 | |]|] eqn:Hk; try done.
        intros [= <-]. rewrite !length_app. simpl.
        by rewrite (Hlen1 k l0 Hk).
Qed.

Lemma upd_simul_dict_is_Some data ref_id simul_dicts deleted :
  simul_aligned simul_dicts →
  is_Some (G3.upd_simul_dict data ref_id simul_dicts deleted).
Proof.
  intros Hal. unfold G3.upd_simul_dict.
  case_bool_decide as Hsize.
  { destruct (is_False _); eauto. }
  destruct Hal as [->|(Hnoid & ids & Hids & Hlen)]; [by rewrite map_size_empty in Hsize|].
  unfold dget. rewrite Hids. simpl.
  assert (aligned ["id"] simul_dicts) as Hal.
  { exists ids. split; [done|]. intros k l Hl. split; [|by eapply Hlen].
    intros ->%list_elem_of_singleton. by rewrite Hnoid in Hl. }
  assert (∃ sd1, (if py_in ref_id ids
                  then ref_id_pos ← py_index ref_id ids;
                       if pop_ok ["id"] ref_id_pos simul_dicts
                       then Some (<["updated" := VTrue]>
                                    (map_imap (G3.simul_pop_entry ref_id_pos) simul_dicts))
                       else None
                  else Some simul_dicts) = Some sd1
                 ∧ is_Some (sd1 !! "ref_ids" ≫= as_list)) as (sd1 & -> & [ids1 Hids1]).
  { destruct (py_in _ ids) eqn:Hin.
    - apply py_index_in in Hin as [pos Hpos]. rewrite Hpos. simpl.
      rewrite (pop_ok_aligned ["id"] pos simul_dicts ids Hal Hids
                 (py_index_lt _ _ _ Hpos)).
      eexists. split; [done|]. rewrite simul_popped_lookup.
      rewrite decide_False by done. rewrite decide_False by done.
      rewrite Hids. simpl. eauto.
    - eexists. split; [done|]. rewrite Hids. simpl. eauto. }
  simpl. destruct deleted; [eauto|]. destruct (is_False _); [eauto|].
  rewrite Hids1. simpl. eauto.
Qed.

Lemma upd_simul_dict_member data ref_id simul_dicts simul_dicts' :
  data !! "ref_ids" = None →
  is_False (pget data "is_active") = false →
  G3.upd_simul_dict data ref_id simul_dicts false = Some simul_dicts' →
  py_in ref_id (ref_ids_of simul_dicts') = true.
Proof.
  intros Hnone Hact. unfold G3.upd_simul_dict. rewrite Hact.
  case_bool_decide.
  - intros [= <-]. unfold ref_ids_of.
    rewrite lookup_union_r.
    2:{ by rewrite lookup_fmap, Hnone. }
    rewrite lookup_insert_ne by done. rewrite lookup_insert_eq.
    simpl. by rewrite py_eq_refl.
  - destruct (as_list (dget simul_dicts "ref_ids")) as [ids|]; simpl; [|done].
    destruct (if py_in _ ids then _ else _) as [sd1|]; simpl; [|done].
    destruct (sd1 !! "ref_ids" ≫= as_list) as [ids1|]; simpl; [|done].
    intros [= <-]. unfold ref_ids_of.
    rewrite lookup_insert_ne by done. rewrite map_lookup_imap.
    rewrite lookup_insert_eq. simpl. apply py_in_last.
Qed.

(** X4: the same in [upd_simul_dicts], whose record is the raw one
    updated with the processed one.  On a save whose [is_active] is
    not the boolean [False]: when the stored data set is a dict, the
    observation is a member of it afterwards; when it is a list, as
    the default of the field is, the call raises. *)
Theorem simul_only_False_is_inactive raw_data proc_data simul_dicts :
  (proc_data ∪ raw_data) !! "ref_ids" = None →
  is_False (pget (delete "id" (proc_data ∪ raw_data)) "is_active") = false →
  match simul_dicts with
  | G3.SimulList _ => G3.upd_simul_dicts raw_data proc_data simul_dicts false = None
  | G3.SimulDict _ =>
      ∀ simul_dicts',
        G3.upd_simul_dicts raw_data proc_data simul_dicts false = Some simul_dicts' →
        ∃ d', simul_dicts' = G3.SimulDict d'
              ∧ py_in (pget proc_data "id") (ref_ids_of d') = true
  end.
Proof.
  intros Hnone Hact. unfold G3.upd_simul_dicts.
  destruct simul_dicts as [l|d].
  - case_bool_decide; [|done]. rewrite Hact. by destruct l.
  - intros simul_dicts'. case_bool_decide; [|done].
    destruct (G3.upd_simul_dict _ _ d false) as [d'|] eqn:Hd'; simpl; [|done].
    intros [= <-]. exists d'. split; [done|].
    eapply upd_simul_dict_member; [|exact Hact|exact Hd'].
    by rewrite lookup_delete_ne.
Qed.

(** X14: on a data set of simulation parameters that is a dict with
    aligned columns, [upd_simul_dicts] returns for every observation
    that has an id, saved or deleted, and its result is a dict with
    aligned columns again. *)
Theorem simul_dicts_stay_aligned raw_data proc_data simul_dicts deleted :
  simul_aligned simul_dicts →
  is_Some ((proc_data ∪ raw_data) !! "id") →
  ∃ simul_dicts',
    G3.upd_simul_dicts raw_data proc_data (G3.SimulDict simul_dicts) deleted
    = Some (G3.SimulDict simul_dicts')
    ∧ simul_aligned simul_dicts'.
Proof.
  intros Hal Hid. unfold G3.upd_simul_dicts.
  rewrite bool_decide_eq_true_2 by done.
  destruct (upd_simul_dict_is_Some (delete "id" (proc_data ∪ raw_data))
              (pget proc_data "id") simul_dicts deleted Hal) as [simul_dicts' Hupd].
  exists simul_dicts'. rewrite Hupd. split; [done|].
  eapply upd_simul_dict_aligned; [|exact Hal|exact Hupd].
  apply lookup_delete_eq.
Qed.

Lemma simul_only_False_is_inactive_witness :
  G3.upd_simul_dicts ∅ no_is_active (G3.SimulList []) false = None
  ∧ ∃ d',
      default (G3.SimulList [])
        (G3.upd_simul_dicts ∅
           (delete "is_active" (g3_observation 2 "2 bar" "500 K" "2 s" "4"))
           (G3.SimulDict simul_one) false)
      = G3.SimulDict d'
      ∧ py_in (SInt 2) (ref_ids_of d') = true.
Proof.
  split.
  - apply (simul_only_False_is_inactive ∅ no_is_active (G3.SimulList [])).
    + vm_refl.
    + vm_refl.
  - pose (second := delete "is_active" (g3_observation 2 "2 bar" "500 K" "2 s" "4")).
    assert ((second ∪ (∅ : record)) !! "ref_ids" = None) as Hnone by vm_refl.
    assert (is_False (pget (delete "id" (second ∪ (∅ : record))) "is_active") = false)
      as Hact by vm_refl.
    assert (G3.upd_simul_dicts ∅ second (G3.SimulDict simul_one) false
            = Some (default (G3.SimulList [])
                      (G3.upd_simul_dicts ∅ second (G3.SimulDict simul_one) false)))
      as Hupd by vm_refl.
    lazymatch goal with
    | |- ?G =>
        exact (simul_only_False_is_inactive ∅ second (G3.SimulDict simul_one)
                 Hnone Hact _ Hupd <: G)
    end.
Defined.

Lemma simul_dicts_stay_aligned_witness :
  ∃ simul_dicts',
    G3.upd_simul_dicts ∅ (g3_observation 2 "2 bar" "500 K" "2 s" "4")
      (G3.SimulDict simul_one) false
    = Some (G3.SimulDict simul_dicts')
    ∧ simul_aligned simul_dicts'.
Proof.
  apply (simul_dicts_stay_aligned ∅ (g3_observation 2 "2 bar" "500 K" "2 s" "4")
           simul_one false).
  - right. split; [vm_refl|]. exists [SInt 1]. split; [vm_refl|].
    intros k l Hl. apply elem_of_map_to_list in Hl.
    assert (map_to_list simul_one
            = [("conversion", VList [SStr "2"]); ("updated", VTrue);
               ("is_simulated", VList [SBool false]);
               ("is_active", VList [SBool true]); ("ref_ids", VList [SInt 1]);
               ("tau", VList [SStr "1 s"]); ("T_reactor", VList [SStr "500 K"]);
               ("p", VList [SStr "1 bar"])]) as E by vm_refl.
    rewrite E in Hl. clear E.
    repeat (apply elem_of_cons in Hl as [Heq|Hl]; [by simplify_eq|]).
    by apply elem_of_nil in Hl.
  - exists (SInt 2). vm_refl.
Defined.

(** ** The row of a saved observation *)

Lemma existsb_lookup {A} (f : A → bool) (l : list A) :
  existsb f l = true → ∃ i a, l !! i = Some a ∧ f a = true.
Proof.
  induction l as [|a l IH]; simpl; [done|].
  destruct (f a) eqn:Ha; simpl.
  - intros _. by exists 0%nat, a.
  - intros H. destruct (IH H) as (i & b & Hi & Hb). by exists (S i), b.
Qed.

Lemma last_row_stores W proc_data d d' :
  "ref_ids" ∉ W → only_stores W d d' → last_row proc_data d → last_row proc_data d'.
Proof.
  intros HW [Hout Hlist] [(ids & Hids & Hnot) Hcols]. split.
  - exists ids. split; [|done]. unfold ref_ids_of in *. by rewrite Hout.
  - intros k l Hk Hl. apply Hcols; [done|]. by apply Hlist.
Qed.

Lemma last_row_clear_updated proc_data r :
  last_row proc_data r → last_row proc_data (clear_updated r).
Proof.
  intros [(ids & Hids & Hnot) Hcols]. split.
  - exists ids. split; [|done]. unfold ref_ids_of in *.
    by rewrite clear_updated_lookup.
  - intros k l Hk. unfold clear_updated. case_match; [|by apply Hcols].
    destruct (decide (k = "updated")) as [->|Hne].
    + by rewrite lookup_insert_eq.
    + rewrite lookup_insert_ne by done. by apply Hcols.
Qed.

Lemma upd_rate_dicts_last_row proc_data dicts dicts' :
  family_inv ["p"; "T_reactor"] dicts →
  is_False (pget proc_data "is_active") = false →
  G3.upd_rate_dicts proc_data dicts false = Some dicts' →
  ∃ i d, dicts' !! i = Some d
    ∧ key_match [("p", pget proc_data "p"); ("T_reactor", pget proc_data "T_reactor")] d
      = true
    ∧ last_row proc_data d.
Proof.
  intros Hinv Hact. unfold G3.upd_rate_dicts. rewrite Hact.
  destruct (remove_pass _ _ dicts) as [dicts1|] eqn:Hrem; simpl; [|done].
  assert ("updated" ∉ ["id"; "p"; "T_reactor"]) as Hu by not_in_list.
  assert ("ref_ids" ∉ ["id"; "p"; "T_reactor"]) as Hr by not_in_list.
  destruct (remove_pass_family_inv ["p"; "T_reactor"] _ _ _ Hu Hr Hinv Hrem)
    as [[Hal1 _ _] H0].
  intros Hins.
  destruct (insert_pass_inv _ _ _ _ _ _ _ _ Hins)
    as (dicts1' & Happ & [[Hex ->]|(_ & -> & ids & dn & _ & Hnew & ->)]).
  - apply existsb_lookup in Hex as (i & d0 & Hi & Hmatch).
    destruct (Forall2_lookup_l _ _ _ _ _ Happ Hi) as (d & Hd & Hdd).
    unfold appended in Hdd. rewrite Hmatch in Hdd.
    exists i, d. split; [done|].
    assert (∀ d, frame ["id"; "p"; "T_reactor"] d (id d)) as Hfr
      by (intros; apply frame_refl).
    pose proof (list_elem_of_lookup_2 _ _ _ Hi) as Hin.
    rewrite list.Forall_forall in Hal1.
    destruct (Hal1 d0 Hin) as (ids0 & Hids0 & Hcols0).
    split.
    { change (key_match [("p", pget proc_data "p");
                         ("T_reactor", pget proc_data "T_reactor")] d = true).
      transitivity (key_match [("p", pget proc_data "p");
                               ("T_reactor", pget proc_data "T_reactor")] d0); [|done].
      apply (key_stable_key_match ["id"; "p"; "T_reactor"]).
      - intros p Hp. set_solver.
      - intros k Hk.
        exact (append_ref_keep ["id"; "p"; "T_reactor"] _ _ Hu Hr Hfr _ _ _ _ Hdd Hk). }
    split.
    + exists (ref_ids_of d0). split.
      * exact (append_ref_ref_ids ["id"; "p"; "T_reactor"] _ _ Hu Hr Hfr _ _ _ Hdd).
      * apply py_count_0. apply total_count_0 in H0.
        rewrite list.Forall_forall in H0. apply py_count_0. by apply H0.
    + intros k l Hk Hl.
      apply (append_ref_inv ["id"; "p"; "T_reactor"]) in Hdd as (ids1 & Hids1 & ->).
      simpl in Hl. rewrite lookup_appended in Hl.
      destruct (decide (k = "updated")); [done|].
      rewrite lookup_insert_ne in Hl by done.
      destruct (decide (k ∈ ["id"; "p"; "T_reactor"] ++ ["ref_ids"])) as [Hkeep|_].
      { destruct (Hcols0 k l Hl) as [Hnk _]. set_solver. }
      destruct (d0 !! k) as [[| l0 | |]|]; try done.
      simplify_eq. by exists l0.
  - exists (length dicts1), dn. split; [by rewrite lookup_app_r, Nat.sub_diag|].
    injection Hnew as <-. split; [|split].
    + unfold key_match, new_group, dget. simpl.
      repeat (rewrite lookup_insert_ne by done). rewrite lookup_insert_eq. simpl.
      rewrite py_eq_refl. simpl.
      repeat (rewrite lookup_insert_ne by done). rewrite lookup_insert_eq. simpl.
      by rewrite py_eq_refl.
    + exists []. split; [|done]. new_group_ref_ids.
    + intros k l Hk. unfold new_group. simpl.
      repeat (rewrite lookup_insert; case_decide;
              [subst k; intros ?; simplify_eq; try (by exists [])|]).
      by rewrite lookup_empty.
Qed.


Section rows.
Context `{N : Numerics}.

(** X9: after [upd_g3results] has run for a saved observation that is
    not inactive, the observation is the last row of exactly one rate
    group, the one of its own [p] and [T_reactor]: its id closes the
    member list, its values close the other columns, and no other
    group has it as a member. *)
Theorem saved_observation_is_the_last_row events s proc_data s' :
  G3_run events = Some s →
  is_False (pget proc_data "is_active") = false →
  G3.upd_g3results proc_data false s = Some s' →
  ∃ i d, G3.rate_dicts s' !! i = Some d
    ∧ val_eq (pget proc_data "p") (dget d "p") = true
    ∧ val_eq (pget proc_data "T_reactor") (dget d "T_reactor") = true
    ∧ last_row proc_data d
    ∧ ∀ j d', G3.rate_dicts s' !! j = Some d' →
        py_in (pget proc_data "id") (ref_ids_of d') = true → j = i.
Proof.
  intros Hrun Hact Hupd.
  pose proof (G3_run_inv _ _ Hrun) as Hinv.
  destruct (upd_g3results_inv _ _ _ _ Hinv Hupd) as [[_ _ Hex'] _ _ _ _ _ _ _].
  destruct Hinv as [Hrate _ _ _ _ _ _ _].
  unfold G3.upd_g3results in Hupd.
  destruct (G3.upd_rate_dicts _ _ _) as [rate1|] eqn:Hrate1; simpl in Hupd; [|done].
  destruct (G3.upd_rates rate1) as [rate2|] eqn:Hrate2; simpl in Hupd; [|done].
  destruct (G3.upd_ea_dicts rate2 _) as [ea1|] eqn:Hea1; simpl in Hupd; [|done].
  destruct (G3.upd_ea ea1) as [ea2|] eqn:Hea2; simpl in Hupd; [|done].
  destruct (G3.upd_ro_dicts rate2 _) as [[rate3 ro1]|] eqn:Hro1; simpl in Hupd; [|done].
  destruct (G3.upd_ro ro1) as [ro2|] eqn:Hro2; simpl in Hupd; [|done].
  simplify_eq. simpl in *.
  unfold G3.upd_ro_dicts in Hro1.
  destruct (foldlM _ (G3.ro_dicts s) rate2) as [ro1'|]; simpl in Hro1; [|done].
  simplify_eq.
  destruct (upd_rate_dicts_last_row _ _ _ Hrate Hact Hrate1)
    as (i & d1 & Hi1 & Hkey1 & Hrow1).
  assert (Forall2 (only_stores
                     ["rate"; "r_squared"; "plotdata"; "fitdata"; "simuldata"; "error"])
            rate1 rate2) as Hst.
  { eapply mapM_Forall2; [|exact Hrate2]. apply upd_rates_step_stores. }
  destruct (Forall2_lookup_l _ _ _ _ _ Hst Hi1) as (d2 & Hi2 & Hd2).
  assert (∀ k, k ∈ ["p"; "T_reactor"] → dget (clear_updated d2) k = dget d1 k) as Hsame.
  { intros k Hk. unfold dget. rewrite clear_updated_lookup by set_solver.
    destruct Hd2 as [Hout _]. rewrite Hout; [done|]. set_solver. }
  exists i, (clear_updated d2). split.
  { pose proof (clear_updated_clean d2) as _.
    change (map clear_updated rate2 !! i = Some (clear_updated d2)).
    by rewrite list_lookup_fmap, Hi2. }
  unfold key_match in Hkey1. simpl in Hkey1.
  apply andb_true_iff in Hkey1 as [Hp HT]. apply andb_true_iff in HT as [HT _].
  split; [by rewrite Hsame by set_solver|].
  split; [by rewrite Hsame by set_solver|].
  assert (last_row proc_data (clear_updated d2)) as Hrow.
  { apply last_row_clear_updated.
    eapply (last_row_stores _ _ d1 d2); [|exact Hd2|exact Hrow1]. not_in_list. }
  split; [done|].
  intros j d' Hj Hin.
  apply (exclusive_at_most_one _ (pget proc_data "id") j i d' (clear_updated d2) Hex' Hj).
  - change (map clear_updated rate2 !! i = Some (clear_updated d2)).
    by rewrite list_lookup_fmap, Hi2.
  - done.
  - destruct Hrow as [(ids & -> & _) _]. apply py_in_last.
Qed.

End rows.

Lemma saved_observation_is_the_last_row_witness :
  ∃ i d, G3.rate_dicts after_three_taus !! i = Some d
    ∧ val_eq (SStr "1 bar") (dget d "p") = true
    ∧ val_eq (SStr "500 K") (dget d "T_reactor") = true
    ∧ last_row (g3_observation 3 "1 bar" "500 K" "3 s" "6") d
    ∧ ∀ j d', G3.rate_dicts after_three_taus !! j = Some d' →
        py_in (SInt 3) (ref_ids_of d') = true → j = i.
Proof.
  apply (saved_observation_is_the_last_row (N:=exact_numerics) (take 2 three_taus)
           after_two_taus (g3_observation 3 "1 bar" "500 K" "3 s" "6") after_three_taus).
  - vm_refl.
  - reflexivity.
  - vm_refl.
Defined.

(** ** [group_dicts_by_keys] *)

Lemma tuple_eq_refl a : tuple_eq a a = true.
Proof. induction a as [|x a IH]; simpl; [done|]. by rewrite py_eq_refl. Qed.

Lemma tuple_eq_sym a b : tuple_eq a b = tuple_eq b a.
Proof.
  revert b. induction a as [|x a IH]; intros [|y b]; simpl; try done.
  by rewrite py_eq_sym, IH.
Qed.

Lemma tuple_eq_trans a b c :
  tuple_eq a b = true → tuple_eq b c = true → tuple_eq a c = true.
Proof.
  revert b c. induction a as [|x a IH]; intros [|y b] [|z c]; simpl; try done.
  rewrite !andb_true_iff. intros [H1 H2] [H3 H4]. split.
  - by eapply py_eq_trans.
  - by eapply IH.
Qed.

Lemma tuple_eq_compat a b c : tuple_eq a b = true → tuple_eq a c = tuple_eq b c.
Proof.
  intros Hab. destruct (tuple_eq b c) eqn:Hbc.
  - by eapply tuple_eq_trans.
  - destruct (tuple_eq a c) eqn:Hac; [|done].
    rewrite tuple_eq_sym in Hab. by rewrite (tuple_eq_trans _ _ _ Hab Hac) in Hbc.
Qed.

Lemma grouped_add_spec kt d grouped :
  (∃ i k v, grouped !! i = Some (k, v) ∧ tuple_eq kt k = true
            ∧ grouped_add kt d grouped = <[i := (k, v ++ [d])]> grouped)
  ∨ ((∀ kv, kv ∈ grouped → tuple_eq kt kv.1 = false)
     ∧ grouped_add kt d grouped = grouped ++ [(kt, [d])]).
Proof.
  induction grouped as [|[k v] grouped IH]; simpl.
  - right. split; [|done]. intros kv Hkv. by apply elem_of_nil in Hkv.
  - destruct (tuple_eq kt k) eqn:Hk.
    + left. by exists 0%nat, k, v.
    + destruct IH as [(i & k' & v' & Hi & Hk' & ->)|[Hno ->]].
      * left. by exists (S i), k', v'.
      * right. split; [|done]. intros kv [->|Hkv]%elem_of_cons; [done|by apply Hno].
Qed.

Lemma filter_snoc {A} (f : A → bool) l a :
  List.filter f (l ++ [a]) = List.filter f l ++ (if f a then [a] else []).
Proof. by rewrite List.filter_app. Qed.

Lemma filter_none {A} (f : A → bool) l :
  (∀ a, a ∈ l → f a = false) → List.filter f l = [].
Proof.
  induction l as [|a l IH]; simpl; [done|]. intros Hl.
  rewrite (Hl a) by left. apply IH. intros b Hb. apply Hl. by right.
Qed.

Lemma filter_lookup_inj {A} (R : A → A → Prop) (f : A → bool) l :
  (∀ i j a b, l !! i = Some a → l !! j = Some b → R a b → i = j) →
  ∀ i j a b, List.filter f l !! i = Some a → List.filter f l !! j = Some b →
             R a b → i = j.
Proof.
  induction l as [|x l IH]; intros Hl i j a b; simpl; [done|].
  assert (∀ i j a b, l !! i = Some a → l !! j = Some b → R a b → i = j) as Hl'.
  { intros i' j' a' b' Hi Hj HR. by injection (Hl (S i') (S j') a' b' Hi Hj HR). }
  assert (∀ c n, List.filter f l !! n = Some c → ∃ m, l !! m = Some c) as Hsub.
  { intros c n Hn. apply list_elem_of_lookup_2, list_elem_of_In, List.filter_In in Hn
      as [Hn _]. by apply list_elem_of_In, list_elem_of_lookup in Hn. }
  destruct (f x); [|by apply IH].
  destruct i as [|i], j as [|j]; simpl; intros Hi Hj HR.
  - done.
  - injection Hi as <-. destruct (Hsub _ _ Hj) as [m Hm].
    by specialize (Hl 0%nat (S m) x b eq_refl Hm HR).
  - injection Hj as <-. destruct (Hsub _ _ Hi) as [m Hm].
    by specialize (Hl (S m) 0%nat a x Hm eq_refl HR).
  - f_equal. by apply (IH Hl' i j a b).
Qed.

Lemma grouping_step keys seen grouped d :
  grouping keys seen grouped →
  grouping keys (seen ++ [d]) (grouped_add (key_tuple keys d) d grouped).
Proof.
  intros [Hdist Hmem Hcov].
  destruct (grouped_add_spec (key_tuple keys d) d grouped)
    as [(i & k & v & Hi & Hk & ->)|[Hno ->]].
  - assert (∀ j kv, grouped !! j = Some kv → j ≠ i →
                    tuple_eq (key_tuple keys d) kv.1 = false) as Hother.
    { intros j kv Hj Hne. destruct (tuple_eq _ kv.1) eqn:E; [|done].
      destruct Hne. apply (Hdist j i kv (k, v) Hj Hi). simpl.
      rewrite tuple_eq_sym. rewrite <- (tuple_eq_compat _ _ _ Hk). done. }
    pose proof (lookup_lt_Some _ _ _ Hi) as Hlt.
    split.
    + intros a b kv1 kv2 Ha Hb.
      destruct (decide (a = i)) as [->|Hai], (decide (b = i)) as [->|Hbi]; [done|..].
      * rewrite list_lookup_insert_eq in Ha by done. injection Ha as <-.
        rewrite list_lookup_insert_ne in Hb by done. simpl. intros E.
        apply (Hdist i b (k, v) kv2 Hi Hb E).
      * rewrite list_lookup_insert_eq in Hb by done. injection Hb as <-.
        rewrite list_lookup_insert_ne in Ha by done. simpl. intros E.
        apply (Hdist a i kv1 (k, v) Ha Hi E).
      * rewrite list_lookup_insert_ne in Ha, Hb by done. by apply Hdist.
    + intros kv Hkv. apply list_elem_of_lookup in Hkv as [j Hj].
      rewrite filter_snoc.
      destruct (decide (j = i)) as [->|Hji].
      * rewrite list_lookup_insert_eq in Hj by done. injection Hj as <-. simpl.
        rewrite Hk.
        destruct (Hmem (k, v) (list_elem_of_lookup_2 _ _ _ Hi)) as [Hv _].
        simpl in Hv. rewrite <- Hv. split; [done|]. by destruct v.
      * rewrite list_lookup_insert_ne in Hj by done.
        rewrite (Hother j kv Hj Hji), app_nil_r.
        apply Hmem. by eapply list_elem_of_lookup_2.
    + intros d' [Hd'|Hd']%elem_of_app.
      * destruct (Hcov d' Hd') as (kv & Hkv & Heq).
        apply list_elem_of_lookup in Hkv as [j Hj].
        destruct (decide (j = i)) as [->|Hji].
        -- rewrite Hi in Hj. injection Hj as <-.
           exists (k, v ++ [d]). split; [|done].
           apply (list_elem_of_lookup_2 _ i). by rewrite list_lookup_insert_eq.
        -- exists kv. split; [|done].
           apply (list_elem_of_lookup_2 _ j). by rewrite list_lookup_insert_ne.
      * apply list_elem_of_singleton in Hd' as ->.
        exists (k, v ++ [d]). split; [|done].
        apply (list_elem_of_lookup_2 _ i). by rewrite list_lookup_insert_eq.
  - split.
    + intros a b kv1 kv2 Ha Hb E.
      assert (∀ c kv, (grouped ++ [(key_tuple keys d, [d])]) !! c = Some kv →
                (c < length grouped)%nat ∧ grouped !! c = Some kv
                ∨ c = length grouped ∧ kv = (key_tuple keys d, [d])) as Hcase.
      { intros c kv Hc. apply lookup_app_Some in Hc as [Hc|[Hge Hc]].
        - left. split; [by eapply lookup_lt_Some|done].
        - right. apply list_lookup_singleton_Some in Hc as [Hc <-]. split; [lia|done]. }
      destruct (Hcase a kv1 Ha) as [[_ Ha']|[-> ->]],
               (Hcase b kv2 Hb) as [[_ Hb']|[-> ->]]; [by eapply Hdist| | |done].
      * simpl in E. rewrite tuple_eq_sym in E.
        by rewrite (Hno kv1 (list_elem_of_lookup_2 _ _ _ Ha')) in E.
      * simpl in E. by rewrite (Hno kv2 (list_elem_of_lookup_2 _ _ _ Hb')) in E.
    + intros kv [Hkv|Hkv]%elem_of_app; rewrite filter_snoc.
      * rewrite (Hno kv Hkv), app_nil_r. by apply Hmem.
      * apply list_elem_of_singleton in Hkv as ->. simpl.
        rewrite tuple_eq_refl. split; [|done].
        replace (List.filter _ seen) with (@nil record); [done|].
        symmetry. apply filter_none. intros d' Hd'.
        destruct (Hcov d' Hd') as (kv & Hkv & Heq).
        destruct (tuple_eq (key_tuple keys d') (key_tuple keys d)) eqn:E; [|done].
        rewrite (tuple_eq_compat _ _ _ E) in Heq. by rewrite (Hno kv Hkv) in Heq.
    + intros d' [Hd'|Hd']%elem_of_app.
      * destruct (Hcov d' Hd') as (kv & Hkv & Heq).
        exists kv. split; [|done]. apply elem_of_app. by left.
      * apply list_elem_of_singleton in Hd' as ->.
        exists (key_tuple keys d, [d]). split; [|apply tuple_eq_refl].
        apply elem_of_app. right. by apply list_elem_of_singleton.
Qed.

Lemma grouping_loop keys dicts :
  grouping keys dicts
    (foldl (λ grouped d, grouped_add (key_tuple keys d) d grouped) [] dicts).
Proof.
  induction dicts as [|d dicts IH] using rev_ind.
  - split; [done| |]; intros ? H; by apply elem_of_nil in H.
  - rewrite foldl_app. simpl. by apply grouping_step.
Qed.

(** X19: [group_dicts_by_keys] groups by the tuple of the values under
    the keys that are present.  Every group of the result holds, in
    input order, all the records whose tuple equals its key, and has
    at least [min_points] of them; every record whose tuple at least
    [min_points] records share is in a group; no two groups of the
    result have equal keys. *)
Theorem group_dicts_by_keys_groups_by_key_tuple dicts keys min_points :
  (∀ k v, (k, v) ∈ group_dicts_by_keys dicts keys min_points →
     v = List.filter (λ d, tuple_eq (key_tuple keys d) k) dicts
     ∧ v ≠ [] ∧ (min_points ≤ Z.of_nat (length v))%Z)
  ∧ (∀ d, d ∈ dicts →
       (min_points
        ≤ Z.of_nat (length (List.filter
                              (λ d', tuple_eq (key_tuple keys d') (key_tuple keys d))
                              dicts)))%Z →
       ∃ k v, (k, v) ∈ group_dicts_by_keys dicts keys min_points
              ∧ tuple_eq (key_tuple keys d) k = true ∧ d ∈ v)
  ∧ (∀ i j kv1 kv2,
       group_dicts_by_keys dicts keys min_points !! i = Some kv1 →
       group_dicts_by_keys dicts keys min_points !! j = Some kv2 →
       tuple_eq kv1.1 kv2.1 = true → i = j).
Proof.
  destruct (grouping_loop keys dicts) as [Hdist Hmem Hcov].
  unfold group_dicts_by_keys.
  set (grouped := foldl _ [] dicts) in *.
  split; [|split].
  - intros k v Hin. apply list_elem_of_In, List.filter_In in Hin as [Hin Hlen].
    apply list_elem_of_In in Hin. apply bool_decide_eq_true in Hlen.
    destruct (Hmem _ Hin) as [Hv Hne]. done.
  - intros d Hd Hlen. destruct (Hcov d Hd) as ([k v] & Hkv & Heq). simpl in Heq.
    destruct (Hmem _ Hkv) as [Hv _]. simpl in Hv.
    assert (List.filter (λ d', tuple_eq (key_tuple keys d') (key_tuple keys d)) dicts = v)
      as Hsame.
    { rewrite Hv. apply List.filter_ext. intros d'.
      destruct (tuple_eq (key_tuple keys d') (key_tuple keys d)) eqn:E.
      - symmetry. by eapply tuple_eq_trans.
      - destruct (tuple_eq (key_tuple keys d') k) eqn:E'; [|done].
        rewrite tuple_eq_sym in Heq.
        by rewrite (tuple_eq_trans _ _ _ E' Heq) in E. }
    rewrite Hsame in Hlen.
    exists k, v. split; [|split; [done|]].
    + apply list_elem_of_In, List.filter_In. split; [by apply list_elem_of_In|].
      by apply bool_decide_eq_true.
    + rewrite Hv. apply list_elem_of_In, List.filter_In.
      split; [by apply list_elem_of_In|done].
  - intros i j kv1 kv2 Hi Hj E.
    exact (filter_lookup_inj (λ kv1 kv2, tuple_eq kv1.1 kv2.1 = true) _ grouped
             Hdist i j kv1 kv2 Hi Hj E).
Qed.

(** ** The conversion trace *)








